(** * Retrieval pipeline of the Arabic document assistant

    A shallow embedding of [document_processor.py] (normalisation and
    chunking) and [vector_store.py] (embedding index and search), followed
    by the properties of the retrieval pipeline.

    Python values are modelled as follows.
    - a [str] is the list of its Unicode code points ([N]);
    - a Python [int] is a [Z]; [len] returns a [Z];
    - a call that may raise returns an [outcome];
    - the [logging] calls of the vector store append records to an
      explicit log;
    - the attributes of a [VectorStore] object are the fields of a record
      that is passed in and returned. *)

From Stdlib Require Import List NArith ZArith Bool Lia Ascii Sorted Permutation.
From Stdlib Require String DecimalString.
Import ListNotations String.StringSyntax.
Delimit Scope string_scope with string.

Set Implicit Arguments.

(* ================================================================== *)
(** * Part I: definitions *)
(* ================================================================== *)

(** ** Python strings *)

Definition char := N.
Definition str := list char.

(** Text of an ASCII literal as a [str]. *)
Definition lit (s : String.string) : str :=
  map N_of_ascii (String.list_ascii_of_string s).
Arguments lit s%_string.

Definition SPACE : char := 32%N.
Definition NEWLINE : char := 10%N.
Definition FORM_FEED : char := 12%N.

Definition len {A} (l : list A) : Z := Z.of_nat (length l).

(** [str.isspace] on one character; the same set is matched by [\s] in
    a [str] pattern of [re]. *)
Definition isspace (c : char) : bool :=
  ((9 <=? c) && (c <=? 13) || (28 <=? c) && (c <=? 32)
   || (c =? 0x85) || (c =? 0xA0) || (c =? 0x1680)
   || (0x2000 <=? c) && (c <=? 0x200A)
   || (c =? 0x2028) || (c =? 0x2029) || (c =? 0x202F)
   || (c =? 0x205F) || (c =? 0x3000))%N.

Fixpoint lstrip (s : str) : str :=
  match s with
  | c :: s' => if isspace c then lstrip s' else s
  | [] => []
  end.

Definition rstrip (s : str) : str := rev (lstrip (rev s)).

(** [s.strip()] *)
Definition strip (s : str) : str := rstrip (lstrip s).

(** Truth value of a sequence: [bool(s)]. *)
Definition truthy {A} (l : list A) : bool :=
  match l with [] => false | _ :: _ => true end.

Fixpoint starts_with (prefix s : str) : bool :=
  match prefix, s with
  | [], _ => true
  | p :: prefix', c :: s' => (p =? c)%N && starts_with prefix' s'
  | _ :: _, [] => false
  end.

(** [s.find(sub)]: the lowest index at which [sub] occurs, or [-1]. *)
Fixpoint find_from (i : Z) (sub s : str) : Z :=
  if starts_with sub s then i
  else match s with
       | [] => (-1)%Z
       | _ :: s' => find_from (i + 1) sub s'
       end.

Definition find (s sub : str) : Z := find_from 0 sub s.

(** [s.count(c)] for a one-character [c]. *)
Definition count (s : str) (c : char) : Z :=
  len (filter (fun x => (x =? c)%N) s).

(** [c in s] for a one-character [c]. *)
Definition contains (c : char) (s : str) : bool :=
  existsb (fun x => (x =? c)%N) s.

(** [s.replace(old, new)] for a one-character [old]. *)
Definition replace (old : char) (new : str) (s : str) : str :=
  flat_map (fun c => if (c =? old)%N then new else [c]) s.

(** [s.split(sep)] for a one-character [sep]; [cur] is the piece being
    read, in reverse. *)
Fixpoint split_char_from (sep : char) (cur : str) (s : str) : list str :=
  match s with
  | [] => [rev cur]
  | c :: s' =>
      if (c =? sep)%N then rev cur :: split_char_from sep [] s'
      else split_char_from sep (c :: cur) s'
  end.

Definition split_char (s : str) (sep : char) : list str :=
  split_char_from sep [] s.

(** [sep.join(parts)] *)
Fixpoint join (sep : str) (parts : list str) : str :=
  match parts with
  | [] => []
  | [p] => p
  | p :: rest => p ++ sep ++ join sep rest
  end.

(** ** Exceptions *)

Inductive exn : Type :=
| IndexError
| AttributeError
| AssertionError
| ValueError
| RuntimeError.

Inductive outcome (A : Type) : Type :=
| Return (a : A)
| Raise (e : exn).
Arguments Return {A} a.
Arguments Raise {A} e.

Definition bind {A B} (m : outcome A) (f : A -> outcome B) : outcome B :=
  match m with
  | Return a => f a
  | Raise e => Raise e
  end.

Notation "x <- m ;; k" := (bind m (fun x => k))
  (at level 61, m at next level, right associativity).

(** ** The fragment of [re] used by the program

    Every pattern of the program is a sequence of character classes, each
    taken once or under a greedy [{n,}] ([+] is [{1,}], [*] is [{0,}]).
    None of them matches the empty string. *)

Inductive quantifier : Type :=
| Once
| AtLeast (n : nat).

Definition regex := list ((char -> bool) * quantifier).

(** [greedy cls k s]: take as many characters of class [cls] as possible,
    giving characters back one at a time until the continuation [k]
    matches.  The result is the number of characters matched. *)
Fixpoint greedy (cls : char -> bool) (k : str -> option nat) (s : str)
  : option nat :=
  match s with
  | c :: s' =>
      if cls c then
        match greedy cls k s' with
        | Some n => Some (S n)
        | None => k s
        end
      else k s
  | [] => k s
  end.

Fixpoint exactly (n : nat) (cls : char -> bool) (k : str -> option nat)
  (s : str) : option nat :=
  match n with
  | O => k s
  | S n' =>
      match s with
      | c :: s' => if cls c then option_map S (exactly n' cls k s') else None
      | [] => None
      end
  end.

(** Length of the match of [r] anchored at the start of [s], as the
    backtracking matcher finds it. *)
Fixpoint match_len (r : regex) (s : str) : option nat :=
  match r with
  | [] => Some O
  | (cls, Once) :: r' => exactly 1 cls (match_len r') s
  | (cls, AtLeast n) :: r' => exactly n cls (greedy cls (match_len r')) s
  end.

(** [re.search(r, s) is not None] *)
Fixpoint re_search (r : regex) (s : str) : bool :=
  match match_len r s with
  | Some _ => true
  | None => match s with
            | [] => false
            | _ :: s' => re_search r s'
            end
  end.

(** [re.sub(r, repl, s)]: leftmost non-overlapping matches are replaced.
    [skip] counts the characters of the current match still to be passed
    over. *)
Fixpoint re_sub_from (r : regex) (repl : str) (skip : nat) (s : str) : str :=
  match s with
  | [] => []
  | c :: s' =>
      match skip with
      | S n => re_sub_from r repl n s'
      | O =>
          match match_len r s with
          | Some (S n) => repl ++ re_sub_from r repl n s'
          | _ => c :: re_sub_from r repl O s'
          end
      end
  end.

Definition re_sub (r : regex) (repl : str) (s : str) : str :=
  re_sub_from r repl O s.

(** [re.split(r, s)]; with [capture] the pattern is wrapped in a group and
    the matched separators are part of the result. *)
Fixpoint re_split_from (r : regex) (capture : bool) (skip : nat) (cur : str)
  (s : str) : list str :=
  match s with
  | [] => [rev cur]
  | c :: s' =>
      match skip with
      | S n => re_split_from r capture n cur s'
      | O =>
          match match_len r s with
          | Some (S n) =>
              rev cur :: (if capture then [firstn (S n) s] else [])
                ++ re_split_from r capture n [] s'
          | _ => re_split_from r capture O (c :: cur) s'
          end
      end
  end.

Definition re_split (r : regex) (capture : bool) (s : str) : list str :=
  re_split_from r capture O [] s.

Definition is_char (c : char) : char -> bool := fun x => (x =? c)%N.

(** [re.escape(sep)]: the pattern that matches [sep] literally. *)
Definition re_escape (sep : str) : regex :=
  map (fun c => (is_char c, Once)) sep.

(** [c{m,}] for a character [c] *)
Definition repeated (c : char) (m : nat) : regex := [(is_char c, AtLeast m)].

(** [r' +'] *)
Definition SPACES : regex := repeated SPACE 1.

(** [r'\n{3,}'] *)
Definition NEWLINES3 : regex := repeated NEWLINE 3.

(** [r'\n\s*\n\s*\n'] *)
Definition PAGE_BREAK : regex :=
  [(is_char NEWLINE, Once); (isspace, AtLeast 0);
   (is_char NEWLINE, Once); (isspace, AtLeast 0);
   (is_char NEWLINE, Once)].

(** ** document_processor.py: [fix_arabic_text] *)

Definition LAM_ALEF_LIGATURE : char := 0xFEFB%N.
Definition LAM : char := 0x644%N.
Definition ALEF : char := 0x627%N.
Definition ALEF_HAMZA_ABOVE : char := 0x623%N.
Definition ALEF_HAMZA_BELOW : char := 0x625%N.
Definition ALEF_MADDA : char := 0x622%N.
Definition ALEF_MAKSURA : char := 0x649%N.
Definition YEH : char := 0x64A%N.
Definition TEH_MARBUTA : char := 0x629%N.
Definition HEH : char := 0x647%N.

(** The [replacements] dict, in insertion order. *)
Definition replacements : list (char * str) :=
  [(ALEF_HAMZA_ABOVE, [ALEF]);
   (ALEF_HAMZA_BELOW, [ALEF]);
   (ALEF_MADDA, [ALEF]);
   (ALEF_MAKSURA, [YEH]);
   (TEH_MARBUTA, [HEH])].

Definition apply_replacements (text : str) : str :=
  fold_left (fun t '(old, new) => replace old new t) replacements text.

Definition fix_arabic_text (text : str) : str :=
  if negb (truthy text) || (len (strip text) =? 0)%Z then []
  else
    let text := re_sub SPACES [SPACE] text in
    let text := re_sub NEWLINES3 [NEWLINE; NEWLINE] text in
    let text := replace LAM_ALEF_LIGATURE [LAM; ALEF] text in
    apply_replacements text.

(** ** document_processor.py: [detect_language] *)

Inductive language : Type :=
| arabic
| english
| unknown.

(** A character of the Arabic block, U+0600 to U+06FF. *)
Definition is_arabic_char (c : char) : bool :=
  ((0x600 <=? c) && (c <=? 0x6FF))%N.

(** [count > n * 0.3] as Python evaluates it.  The literal [0.3] is the
    double [5404319552844595 / 2^54]; the product with the integer [n] is
    rounded to 53 significant bits, ties to even, and the integer [count]
    is compared with that double exactly. *)
Definition exceeds_30_percent (count n : Z) : bool :=
  let P := (n * 5404319552844595)%Z in
  let b := (if P =? 0 then 0 else Z.log2 P + 1)%Z in
  if (b <=? 53)%Z then (P <? count * 2 ^ 54)%Z
  else
    let s := (b - 53)%Z in
    let q := Z.shiftr P s in
    let rem := (P - Z.shiftl q s)%Z in
    let half := Z.shiftl 1 (s - 1) in
    let q := (if (half <? rem) || (rem =? half) && Z.odd q
              then q + 1 else q)%Z in
    (Z.shiftl q s <? count * 2 ^ 54)%Z.

Section DetectLanguage.

(** [langdetect.detect]: returns a language code, or raises. *)
Variable detect : str -> outcome str.

Definition detect_language (text : str) : language :=
  if negb (truthy text) || (len (strip text) =? 0)%Z then unknown
  else
    let arabic_char_count := len (filter is_arabic_char text) in
    if exceeds_30_percent arabic_char_count (len text) then arabic
    else
      match detect (firstn 1000 text) with
      | Return lang =>
          if list_eq_dec N.eq_dec lang (lit "ar") then arabic else english
      | Raise _ => arabic
      end.

End DetectLanguage.

(** ** langchain_text_splitters: [RecursiveCharacterTextSplitter]

    The class of the text-splitting library, as [chunk_document]
    configures it: [keep_separator=True], [is_separator_regex=False],
    [length_function=len], [strip_whitespace=True]. *)

Section TextSplitter.

Variables chunk_size chunk_overlap : Z.

(** The list comprehension that glues every captured separator to the
    piece that follows it. *)
Fixpoint glue_separators (l : list str) : list str :=
  match l with
  | sep :: piece :: rest => (sep ++ piece) :: glue_separators rest
  | _ => []
  end.

Definition _split_text_with_regex (text separator : str) : list str :=
  let splits :=
    if truthy separator then
      match re_split (re_escape separator) true text with
      | first :: rest => first :: glue_separators rest
      | [] => []
      end
    else map (fun c => [c]) text in
  filter truthy splits.

Definition _join_docs (docs : list str) (separator : str) : option str :=
  let text := strip (join separator docs) in
  if truthy text then Some text else None.

(** The inner [while] loop of [_merge_splits]: pieces are dropped from
    the front of [current_doc] until what remains fits the overlap. *)
Fixpoint pop_front (separator_len _len total : Z) (current_doc : list str)
  : outcome (Z * list str) :=
  if ((chunk_overlap <? total)
      || ((chunk_size <? total + _len
                         + (if 0 <? len current_doc then separator_len else 0))
          && (0 <? total)))%Z
  then
    match current_doc with
    | [] => Raise IndexError
    | first :: rest =>
        pop_front separator_len _len
          (total - (len first
                    + (if 1 <? len current_doc then separator_len else 0)))%Z
          rest
    end
  else Return (total, current_doc).

(** One iteration of the [for d in splits] loop of [_merge_splits] on
    the state [(docs, current_doc, total)]. *)
Definition merge_step (separator : str)
  (st : list str * list str * Z) (d : str)
  : outcome (list str * list str * Z) :=
  let '(docs, current_doc, total) := st in
  let separator_len := len separator in
  let _len := len d in
  st' <-
    (if ((chunk_size <? total + _len
                       + (if 0 <? len current_doc then separator_len else 0))
         && (0 <? len current_doc))%Z
     then
       let docs := match _join_docs current_doc separator with
                   | Some doc => docs ++ [doc]
                   | None => docs
                   end in
       popped <- pop_front separator_len _len total current_doc ;;
       Return (docs, snd popped, fst popped)
     else Return st) ;;
  let '(docs, current_doc, total) := st' in
  let current_doc := current_doc ++ [d] in
  Return (docs, current_doc,
          (total + _len
           + (if 1 <? len current_doc then separator_len else 0))%Z).

Fixpoint merge_loop (separator : str) (st : list str * list str * Z)
  (splits : list str) : outcome (list str * list str * Z) :=
  match splits with
  | [] => Return st
  | d :: rest =>
      st' <- merge_step separator st d ;;
      merge_loop separator st' rest
  end.

Definition _merge_splits (splits : list str) (separator : str)
  : outcome (list str) :=
  st <- merge_loop separator ([], [], 0%Z) splits ;;
  let '(docs, current_doc, _) := st in
  Return (match _join_docs current_doc separator with
          | Some doc => docs ++ [doc]
          | None => docs
          end).

(** The [for s in splits] loop of [_split_text].  [good] is
    [_good_splits]; [recurse] is the call on the finer separators, absent
    when [new_separators] is empty.  The separator handed to
    [_merge_splits] is the empty string because separators are kept. *)
Fixpoint split_loop (recurse : option (str -> outcome (list str)))
  (good : list str) (splits : list str) : outcome (list str) :=
  match splits with
  | [] => if truthy good then _merge_splits good [] else Return []
  | s :: rest =>
      if (len s <? chunk_size)%Z then split_loop recurse (good ++ [s]) rest
      else
        merged <- (if truthy good then _merge_splits good []
                   else Return []) ;;
        other <- match recurse with
                 | None => Return [s]
                 | Some f => f s
                 end ;;
        final <- split_loop recurse [] rest ;;
        Return (merged ++ other ++ final)
  end.

(** [_split_text(text, separators)].  [last] is [separators[-1]] of the
    outermost list, which is also the last element of every suffix. *)
Fixpoint _split_text (last : str) (separators : list str) (text : str)
  : outcome (list str) :=
  match separators with
  | [] => split_loop None [] (_split_text_with_regex text last)
  | s :: new_separators =>
      if negb (truthy s) then
        split_loop None [] (_split_text_with_regex text s)
      else if re_search (re_escape s) text then
        split_loop
          (if truthy new_separators
           then Some (_split_text last new_separators) else None)
          [] (_split_text_with_regex text s)
      else _split_text last new_separators text
  end.

(** [split_documents([doc])], giving the [page_content] of every
    resulting document. *)
Definition split_documents (separators : list str) (page_content : str)
  : outcome (list str) :=
  match separators with
  | [] => Raise IndexError
  | _ :: _ => _split_text (List.last separators []) separators page_content
  end.

End TextSplitter.

Definition RecursiveCharacterTextSplitter
  (chunk_size chunk_overlap : Z) (separators : list str)
  : str -> outcome (list str) :=
  split_documents chunk_size chunk_overlap separators.

(** ** document_processor.py: [chunk_document] *)

(** The [metadata] dict of a chunk; [m_language] is [None] when the key
    is absent. *)
Record metadata : Type := Metadata {
  m_source : str;
  m_chunk_id : Z;
  m_page : Z;
  m_line : Z;
  m_language : option language
}.

(** The dict of one chunk: keys ["id"], ["text"] and ["metadata"]. *)
Record chunk : Type := Chunk {
  c_id : Z;
  c_text : str;
  c_metadata : metadata
}.

(** The value bound to [pages] after segmentation.  The statement
    [pages = text.split('\f'),] ends in a comma, so on that branch
    [pages] is a tuple of one element, the list of parts. *)
Inductive pages_value : Type :=
| PageList (parts : list str)
| PageTuple (parts : list str).

Definition pages_len (pages : pages_value) : Z :=
  match pages with
  | PageList parts => len parts
  | PageTuple _ => 1
  end.

Definition ARABIC_SEPARATORS : list str :=
  [[NEWLINE; NEWLINE]; [NEWLINE]; lit "."; lit "!"; lit "?";
   [0x60C%N]; [0x61B%N]; [SPACE]; []].

Definition LATIN_SEPARATORS : list str :=
  [[NEWLINE; NEWLINE]; [NEWLINE]; lit "."; lit "!"; lit "?";
   lit ";"; lit ":"; [SPACE]; []].

Section Chunker.

(** The splitter class of the library: constructed from [chunk_size],
    [chunk_overlap] and [separators], then run on one page. *)
Variable text_splitter_class : Z -> Z -> list str -> str -> outcome (list str).

(** [is_arabic] of [chunk_document] *)
Definition is_arabic (text : str) : bool :=
  existsb is_arabic_char (firstn 500 text).

Definition segment_pages (text : str) : pages_value :=
  let pages :=
    if contains FORM_FEED text then PageTuple (split_char text FORM_FEED)
    else PageList (re_split PAGE_BREAK false text) in
  if ((pages_len pages <? 2) || (500 <? pages_len pages))%Z
  then PageList [text]
  else pages.

Definition text_splitter (text : str) : str -> outcome (list str) :=
  if is_arabic text
  then text_splitter_class 500%Z 100%Z ARABIC_SEPARATORS
  else text_splitter_class 500%Z 100%Z LATIN_SEPARATORS.

Definition estimate_line (page_text page_content : str) : Z :=
  let start_pos := find page_text (firstn 50 page_content) in
  if (start_pos =? -1)%Z then 1%Z
  else (count (firstn (Z.to_nat start_pos) page_text) NEWLINE + 1)%Z.

(** The inner loop: one dict per chunk of the page, ids counting on
    from [chunk_id]. *)
Fixpoint page_entries (lang : language) (page_num : Z) (page_text : str)
  (chunk_id : Z) (page_chunks : list str) : list chunk :=
  match page_chunks with
  | [] => []
  | page_content :: rest =>
      {| c_id := chunk_id;
         c_text := page_content;
         c_metadata :=
           {| m_source := lit "document";
              m_chunk_id := chunk_id;
              m_page := (page_num + 1)%Z;
              m_line := estimate_line page_text page_content;
              m_language := Some lang |} |}
      :: page_entries lang page_num page_text (chunk_id + 1)%Z rest
  end.

(** The loop over [enumerate(pages)]. *)
Fixpoint chunk_pages (split : str -> outcome (list str)) (lang : language)
  (page_num chunk_id : Z) (pages : list str) : outcome (list chunk) :=
  match pages with
  | [] => Return []
  | page_text :: rest =>
      if negb (truthy (strip page_text))
      then chunk_pages split lang (page_num + 1)%Z chunk_id rest
      else
        page_chunks <- split page_text ;;
        later <- chunk_pages split lang (page_num + 1)%Z
                   (chunk_id + len page_chunks)%Z rest ;;
        Return (page_entries lang page_num page_text chunk_id page_chunks
                  ++ later)
  end.

(** The body of the [try] block. *)
Definition chunk_document_body (text : str) : outcome (list chunk) :=
  let lang := if is_arabic text then arabic else english in
  match segment_pages text with
  | PageList pages => chunk_pages (text_splitter text) lang 0%Z 0%Z pages
  | PageTuple _ =>
      (* the loop variable is a list, which has no [strip] *)
      Raise AttributeError
  end.

Definition fallback_chunk (text : str) : chunk :=
  {| c_id := 0;
     c_text := text;
     c_metadata :=
       {| m_source := lit "document";
          m_chunk_id := 0;
          m_page := 1;
          m_line := 1;
          m_language := None |} |}.

Definition chunk_document (text : str) : list chunk :=
  if negb (truthy text) || (len (strip text) =? 0)%Z then []
  else
    match chunk_document_body text with
    | Return chunks => chunks
    | Raise _ => [fallback_chunk text]
    end.

End Chunker.

(** ** vector_store.py *)

Section VectorStore.

(** The numbers of the embedding space ([float32]) with their order,
    and the two library calls on them: the squared Euclidean distance
    of [faiss.IndexFlatL2] and the largest float, which the index
    reports as distance of a missing neighbour. *)
Variable float : Type.
Variable float_leb : float -> float -> bool.
Variable fvec_L2sqr : list float -> list float -> float.
Variable FLT_MAX : float.

(** [np.empty((1, k))]: the rows of [k] distances and [k] labels that
    [index.search] allocates for its result.  Whether they can be
    allocated depends on [k] and on the machine; when they cannot, the
    call raises. *)
Variable np_empty : Z -> outcome unit.

(** [model.encode(texts)]: one row per text, or an exception. *)
Variable encode : list str -> outcome (list (list float)).

(** *** [faiss.IndexFlatL2] *)

Record IndexFlatL2 : Type := {
  d : Z;
  xb : list (list float)
}.

Definition ntotal (ix : IndexFlatL2) : Z := len (xb ix).

(** [faiss.IndexFlatL2(d)] *)
Definition IndexFlatL2_new (dim : Z) : IndexFlatL2 :=
  {| d := dim; xb := [] |}.

(** [index.add(x)] *)
Definition IndexFlatL2_add (ix : IndexFlatL2) (x : list (list float))
  : outcome IndexFlatL2 :=
  if forallb (fun row => (len row =? d ix)%Z) x
  then Return {| d := d ix; xb := xb ix ++ x |}
  else Raise AssertionError.

Fixpoint insert_hit (h : Z * float) (l : list (Z * float))
  : list (Z * float) :=
  match l with
  | [] => [h]
  | h' :: l' =>
      if float_leb (snd h) (snd h') then h :: l
      else h' :: insert_hit h l'
  end.

(** All stored vectors with their labels, nearest first. *)
Definition ranked (ix : IndexFlatL2) (q : list float) : list (Z * float) :=
  fold_right insert_hit []
    (combine (map Z.of_nat (seq 0 (length (xb ix))))
             (map (fvec_L2sqr q) (xb ix))).

(** [index.search(x, k)] for a single query row: the rows [I[0]] and
    [D[0]], zipped.  Missing neighbours have label [-1].  The call
    checks the width of the query and that [k] is positive, then
    allocates the two rows, which raises when [k] is too large. *)
Definition IndexFlatL2_search (ix : IndexFlatL2) (q : list float) (k : Z)
  : outcome (list (Z * float)) :=
  if negb (len q =? d ix)%Z then Raise AssertionError
  else if negb (0 <? k)%Z then Raise AssertionError
  else
    _ <- np_empty k ;;
    let hits := firstn (Z.to_nat k) (ranked ix q) in
    Return (hits ++ repeat ((-1)%Z, FLT_MAX) (Z.to_nat k - length hits)).

(** [embeddings.shape[1]] *)
Definition shape1 (embeddings : list (list float)) : outcome Z :=
  match embeddings with
  | [] => Raise IndexError
  | row :: _ => Return (len row)
  end.

(** *** Log records of [vector_store.py] *)

Inductive log_record : Type :=
| info_adding (n : Z)
| warning_no_texts
| info_index_created (dim : Z)
| error_creating (e : exn)
| warning_no_index
| warning_no_chunks
| info_search_found (hits : list (Z * float))
| info_search_returned (n : Z)
| info_result (i : Z) (score : float)
| error_during_search (e : exn).

Definition is_error (r : log_record) : bool :=
  match r with
  | error_creating _ | error_during_search _ => true
  | _ => false
  end.

(** *** [class VectorStore] *)

Record VectorStore : Type := {
  index : option IndexFlatL2;
  chunks : list chunk;
  dimension : Z
}.

(** [__init__] *)
Definition VectorStore_init : VectorStore :=
  {| index := None; chunks := []; dimension := 768 |}.

Definition set_chunks (self : VectorStore) (v : list chunk) : VectorStore :=
  {| index := index self; chunks := v; dimension := dimension self |}.

Definition set_dimension (self : VectorStore) (v : Z) : VectorStore :=
  {| index := index self; chunks := chunks self; dimension := v |}.

Definition set_index (self : VectorStore) (v : IndexFlatL2) : VectorStore :=
  {| index := Some v; chunks := chunks self; dimension := dimension self |}.

(** [add_document]: the outcome of the call, the object after the call
    and the records logged. *)
Definition add_document (self : VectorStore) (new_chunks : list chunk)
  : outcome Z * VectorStore * list log_record :=
  let log := [info_adding (len new_chunks)] in
  let self := set_chunks self new_chunks in
  let texts := map c_text new_chunks in
  if negb (truthy texts) then (Return 0%Z, self, log ++ [warning_no_texts])
  else
    match encode texts with
    | Raise e => (Raise e, self, log ++ [error_creating e])
    | Return embeddings =>
        match shape1 embeddings with
        | Raise e => (Raise e, self, log ++ [error_creating e])
        | Return dim =>
            let self := set_dimension self dim in
            let self := set_index self (IndexFlatL2_new dim) in
            match IndexFlatL2_add (IndexFlatL2_new dim) embeddings with
            | Raise e => (Raise e, self, log ++ [error_creating e])
            | Return ix =>
                (Return (len new_chunks), set_index self ix,
                 log ++ [info_index_created dim])
            end
        end
    end.

Record search_result : Type := {
  r_chunk : str;
  r_metadata : metadata;
  r_score : float
}.

(** The loop over [range(len(indices[0]))]. *)
Fixpoint collect_results (stored : list chunk) (hits : list (Z * float))
  : outcome (list search_result) :=
  match hits with
  | [] => Return []
  | (idx, distance) :: rest =>
      if (idx =? -1)%Z then collect_results stored rest
      else if ((0 <=? idx) && (idx <? len stored))%Z then
        match nth_error stored (Z.to_nat idx) with
        | Some c =>
            results <- collect_results stored rest ;;
            Return ({| r_chunk := c_text c;
                       r_metadata := c_metadata c;
                       r_score := distance |} :: results)
        | None => Raise IndexError
        end
      else collect_results stored rest
  end.

Fixpoint log_results (i : Z) (results : list search_result)
  : list log_record :=
  match results with
  | [] => []
  | r :: rest => info_result (i + 1)%Z (r_score r) :: log_results (i + 1)%Z rest
  end.

(** The body of the [try] block of [search], with the records logged
    before it returns or raises. *)
Definition search_body (ix : IndexFlatL2) (stored : list chunk)
  (query : str) (k : Z) : outcome (list search_result) * list log_record :=
  match encode [query] with
  | Raise e => (Raise e, [])
  | Return [] => (Raise ValueError, [])
  | Return (q :: _) =>
      match IndexFlatL2_search ix q k with
      | Raise e => (Raise e, [])
      | Return hits =>
          match collect_results stored hits with
          | Raise e => (Raise e, [info_search_found hits])
          | Return results =>
              (Return results,
               [info_search_found hits; info_search_returned (len results)]
                 ++ log_results 0 results)
          end
      end
  end.

(** [search]: the outcome of the call and the records logged. *)
Definition search (self : VectorStore) (query : str) (k : Z)
  : outcome (list search_result) * list log_record :=
  match index self with
  | None => (Return [], [warning_no_index])
  | Some ix =>
      if negb (truthy (chunks self)) then (Return [], [warning_no_chunks])
      else
        match search_body ix (chunks self) query k with
        | (Return results, log) => (Return results, log)
        | (Raise e, log) => (Return [], log ++ [error_during_search e])
        end
  end.

End VectorStore.

Arguments IndexFlatL2 : clear implicits.
Arguments VectorStore : clear implicits.
Arguments search_result : clear implicits.
Arguments log_record : clear implicits.
Arguments VectorStore_init {float}.

(** ** Runs of characters

    The vocabulary of the normaliser's contract: a text is a sequence of
    maximal runs of one repeated character. *)

Fixpoint runs (s : str) : list (char * nat) :=
  match s with
  | [] => []
  | c :: s' =>
      match runs s' with
      | (c', n) :: rs =>
          if (c =? c')%N then (c, S n) :: rs else (c, 1) :: (c', n) :: rs
      | [] => [(c, 1)]
      end
  end.

Definition expand (rs : list (char * nat)) : str :=
  flat_map (fun '(c, n) => repeat c n) rs.

(** A run of spaces becomes one space, a run of three or more newlines
    becomes two newlines, every other run stays. *)
Definition collapse_run (r : char * nat) : char * nat :=
  let '(c, n) := r in
  if (c =? SPACE)%N then (c, 1)
  else if (c =? NEWLINE)%N && (3 <=? n) then (c, 2)
  else (c, n).

Definition collapse_whitespace_runs (s : str) : str :=
  expand (map collapse_run (runs s)).

(** The letter substitutions of [fix_arabic_text], in program order. *)
Definition normalize_letters (s : str) : str :=
  apply_replacements (replace LAM_ALEF_LIGATURE [LAM; ALEF] s).

(** ** A small embedding model over the integers

    Used to run the vector store on concrete inputs: a text is embedded as
    its length and its number of spaces; texts of more than 64 characters
    are refused. *)

Definition demo_encode (texts : list str) : outcome (list (list Z)) :=
  if existsb (fun t => (64 <? len t)%Z) texts then Raise RuntimeError
  else Return (map (fun t => [len t; count t SPACE]) texts).

Definition demo_L2sqr (x y : list Z) : Z :=
  fold_left (fun acc p => (acc + (fst p - snd p) * (fst p - snd p))%Z)
    (combine x y) 0%Z.

Definition demo_FLT_MAX : Z := 340282346638528859811704183484516925440%Z.

(** Result rows of fewer than [2^61] entries can be allocated; a row of
    4-byte distances beyond that exceeds the largest array size. *)
Definition demo_np_empty (k : Z) : outcome unit :=
  if (k <? 2 ^ 61)%Z then Return tt else Raise ValueError.

Definition demo_add_document :=
  add_document (float := Z) demo_encode.

Definition demo_search :=
  search Z.leb demo_L2sqr demo_FLT_MAX demo_np_empty demo_encode.

Definition demo_chunk (i : Z) (s : str) : chunk :=
  {| c_id := i;
     c_text := s;
     c_metadata := {| m_source := lit "document"; m_chunk_id := i;
                      m_page := 1; m_line := 1;
                      m_language := Some english |} |}.

(** The document of the chunking scenario:
    ["Line one.\n\nLine two.\n\n\nLine three."] *)
Definition scenario_text : str :=
  lit "Line one." ++ [NEWLINE; NEWLINE] ++ lit "Line two."
    ++ [NEWLINE; NEWLINE; NEWLINE] ++ lit "Line three.".

(** ** Auxiliary notions for the proofs *)

(** Length of the run of [c] at the start of [s]. *)
Fixpoint run_len (c : char) (s : str) : nat :=
  match s with
  | x :: s' => if (x =? c)%N then S (run_len c s') else O
  | [] => O
  end.

(** Run lists as [runs] produces them: no empty run, and neighbouring
    runs of different characters. *)
Fixpoint canonical (rs : list (char * nat)) : Prop :=
  match rs with
  | [] => True
  | (c, n) :: rest =>
      (1 <= n)%nat /\ run_len c (expand rest) = O /\ canonical rest
  end.

(** The effect of [re.sub] with [c{m,}] and [tgt] copies of [c] as
    replacement, on one run. *)
Definition collapse_at (c : char) (m tgt : nat) (r : char * nat)
  : char * nat :=
  if (fst r =? c)%N && (m <=? snd r)%nat then (fst r, tgt) else r.

(** What the letter substitutions make of one character. *)
Definition letter_image (c : char) : str := normalize_letters [c].

(** ** Concrete inputs for the chunker *)

(** ["A\fB"] *)
Definition form_feed_text : str := lit "A" ++ [FORM_FEED] ++ lit "B".

(** 500 Latin letters followed by 1000 Arabic letters. *)
Definition mixed_text : str := repeat 97%N 500 ++ repeat ALEF 1000.

(** A splitter class whose [split_documents] raises. *)
Definition raising_splitter (_ _ : Z) (_ : list str) (_ : str)
  : outcome (list str) := Raise RuntimeError.

(** A [detect] of [langdetect] that answers ['en']. *)
Definition detect_en (_ : str) : outcome str := Return (lit "en").

(** The tag that [chunk_document] writes on the chunks of [text]. *)
Definition language_tag (text : str) : language :=
  if is_arabic text then arabic else english.

(** ** Vocabulary for the search results *)

(** The label of a hit lies within the stored chunk list. *)
Definition in_range {float : Type} (stored : list chunk) (h : Z * float)
  : bool :=
  ((0 <=? fst h) && (fst h <? len stored))%Z.

(** The result [r] is the text and metadata of the stored chunk that the
    hit [h] points to, with the distance of the hit as score. *)
Definition result_of_hit {float : Type} (stored : list chunk)
  (r : search_result float) (h : Z * float) : Prop :=
  exists c, nth_error stored (Z.to_nat (fst h)) = Some c
            /\ r_chunk r = c_text c
            /\ r_metadata r = c_metadata c
            /\ r_score r = snd h.

(** The result [r] references a chunk at an index within the list. *)
Definition refers_to {float : Type} (stored : list chunk)
  (r : search_result float) : Prop :=
  exists idx c, (0 <= idx < len stored)%Z
                /\ nth_error stored (Z.to_nat idx) = Some c
                /\ r_chunk r = c_text c
                /\ r_metadata r = c_metadata c.

(** ** Concrete stores *)

Definition cats : chunk := demo_chunk 0 (lit "cats are mammals").
Definition dogs : chunk := demo_chunk 1 (lit "dogs").

(** A chunk whose text the demonstration model refuses to embed. *)
Definition oversized : chunk := demo_chunk 0 (repeat 97%N 70).

(** The store after a first, successful build. *)
Definition built_store : VectorStore Z :=
  snd (fst (demo_add_document VectorStore_init [cats; dogs])).

(** ** Vocabulary for the normal form of [fix_arabic_text] *)

(** The text [w] occurs somewhere in [s]. *)
Definition occurs (w s : str) : Prop := exists l r, s = l ++ w ++ r.

(** Length of the longest run of [c] in [s]. *)
Fixpoint max_run (c : char) (s : str) : nat :=
  match s with
  | [] => O
  | _ :: s' => Nat.max (run_len c s) (max_run c s')
  end.

(** The letters that [fix_arabic_text] replaces: the ligature and the
    keys of [replacements]. *)
Definition replaced_letters : list char :=
  LAM_ALEF_LIGATURE :: map fst replacements.

(** The integers [start], [start + 1], ... ([n] of them). *)
Fixpoint count_from (start : Z) (n : nat) : list Z :=
  match n with
  | O => []
  | S n' => start :: count_from (start + 1)%Z n'
  end.

(** The page number written on a chunk. *)
Definition page_of (c : chunk) : Z := m_page (c_metadata c).

(** The line number written on a chunk. *)
Definition line_of (c : chunk) : Z := m_line (c_metadata c).

(** ** ollama_service.py

    The string constants are given by their code points. *)

(** [SAUDI_EXPERT_SYSTEM_PROMPT] *)
Definition SAUDI_EXPERT_SYSTEM_PROMPT : str :=
  [10; 1571; 1606; 1578; 32; 1582; 1576; 1610; 1585; 32; 1587; 1593; 1608;
   1583; 1610; 32; 1605; 1578; 1582; 1589; 1589; 32; 1601; 1610; 32; 1575;
   1604; 1605; 1587; 1575; 1593; 1583; 1577; 32; 1608; 1578; 1581; 1604;
   1610; 1604; 32; 1575; 1604; 1605; 1587; 1578; 1606; 1583; 1575; 1578; 32;
   1576; 1575; 1604; 1604; 1594; 1577; 32; 1575; 1604; 1593; 1585; 1576;
   1610; 1577; 46; 32; 1578; 1587; 1578; 1582; 1583; 1605; 32; 1604; 1594;
   1577; 32; 1593; 1585; 1576; 1610; 1577; 32; 1601; 1589; 1610; 1581; 1577;
   32; 1608; 1608; 1575; 1590; 1581; 1577; 1548; 32; 1608; 1578; 1602; 1583;
   1605; 32; 1573; 1580; 1575; 1576; 1575; 1578; 32; 1583; 1602; 1610; 1602;
   1577; 32; 1608; 1605; 1601; 1610; 1583; 1577; 46; 32; 1578; 1593; 1578;
   1576; 1585; 32; 1606; 1601; 1587; 1603; 32; 1605; 1587; 1578; 1588; 1575;
   1585; 1611; 1575; 32; 1587; 1593; 1608; 1583; 1610; 1611; 1575; 32; 1605;
   1581; 1578; 1585; 1601; 1611; 1575; 32; 1608; 1578; 1578; 1608; 1575;
   1589; 1604; 32; 1576; 1571; 1587; 1604; 1608; 1576; 32; 1605; 1607; 1584;
   1576; 32; 1608; 1605; 1581; 1578; 1585; 1605; 46; 10; 10; 1602; 1608;
   1575; 1593; 1583; 32; 1575; 1604; 1573; 1580; 1575; 1576; 1577; 58; 10;
   49; 46; 32; 1575; 1587; 1578; 1582; 1583; 1605; 32; 1601; 1602; 1591; 32;
   1575; 1604; 1605; 1593; 1604; 1608; 1605; 1575; 1578; 32; 1575; 1604;
   1605; 1608; 1580; 1608; 1583; 1577; 32; 1601; 1610; 32; 1575; 1604; 1587;
   1610; 1575; 1602; 32; 1575; 1604; 1605; 1602; 1583; 1605; 32; 1604; 1604;
   1573; 1580; 1575; 1576; 1577; 46; 10; 50; 46; 32; 1573; 1584; 1575; 32;
   1603; 1575; 1606; 1578; 32; 1575; 1604; 1605; 1593; 1604; 1608; 1605;
   1575; 1578; 32; 1594; 1610; 1585; 32; 1605; 1578; 1608; 1601; 1585; 1577;
   32; 1601; 1610; 32; 1575; 1604; 1587; 1610; 1575; 1602; 1548; 32; 1602;
   1604; 32; 34; 1604; 1575; 32; 1578; 1578; 1608; 1601; 1585; 32; 1604;
   1583; 1610; 32; 1605; 1593; 1604; 1608; 1605; 1575; 1578; 32; 1603; 1575;
   1601; 1610; 1577; 32; 1604; 1604; 1573; 1580; 1575; 1576; 1577; 32; 1593;
   1604; 1609; 32; 1607; 1584; 1575; 32; 1575; 1604; 1587; 1572; 1575; 1604;
   46; 34; 10; 51; 46; 32; 1575; 1604; 1573; 1580; 1575; 1576; 1577; 32;
   1578; 1603; 1608; 1606; 32; 1583; 1575; 1574; 1605; 1611; 1575; 32; 1576;
   1575; 1604; 1604; 1594; 1577; 32; 1575; 1604; 1593; 1585; 1576; 1610;
   1577; 32; 1575; 1604; 1601; 1589; 1581; 1609; 32; 1576; 1594; 1590; 32;
   1575; 1604; 1606; 1592; 1585; 32; 1593; 1606; 32; 1604; 1594; 1577; 32;
   1575; 1604; 1587; 1572; 1575; 1604; 32; 1571; 1608; 32; 1575; 1604; 1605;
   1587; 1578; 1606; 1583; 46; 10; 52; 46; 32; 1593; 1606; 1583; 32; 1575;
   1604; 1575; 1602; 1578; 1576; 1575; 1587; 32; 1605; 1606; 32; 1575; 1604;
   1606; 1589; 1548; 32; 1575; 1587; 1578; 1582; 1583; 1605; 32; 1593; 1576;
   1575; 1585; 1577; 32; 34; 1608; 1601; 1602; 1611; 1575; 32; 1604; 1604;
   1605; 1585; 1580; 1593; 32; 91; 1585; 1602; 1605; 93; 34; 32; 1571; 1608;
   32; 34; 1603; 1605; 1575; 32; 1608; 1585; 1583; 32; 1601; 1610; 32; 1575;
   1604; 1605; 1585; 1580; 1593; 32; 91; 1585; 1602; 1605; 93; 34; 46; 10;
   53; 46; 32; 1602; 1583; 1605; 32; 1573; 1580; 1575; 1576; 1575; 1578; 32;
   1605; 1582; 1578; 1589; 1585; 1577; 32; 1608; 1605; 1576; 1575; 1588;
   1585; 1577; 32; 1608; 1605; 1601; 1610; 1583; 1577; 46; 10]%N.

(** The starters prompt, up to the system prompt. *)
Definition STARTERS_PROMPT_HEAD : str :=
  [10; 32; 32; 32; 32]%N.

(** The starters prompt, between the system prompt and the sample. *)
Definition STARTERS_PROMPT_TASK : str :=
  [10; 32; 32; 32; 32; 10; 32; 32; 32; 32; 1575; 1587; 1578; 1606; 1575;
   1583; 1611; 1575; 32; 1573; 1604; 1609; 32; 1575; 1604; 1605; 1587; 1578;
   1606; 1583; 32; 1575; 1604; 1578; 1575; 1604; 1610; 1548; 32; 1602; 1605;
   32; 1576; 1573; 1606; 1588; 1575; 1569; 32; 53; 32; 1571; 1587; 1574;
   1604; 1577; 32; 1605; 1581; 1578; 1605; 1604; 1577; 32; 1602; 1583; 32;
   1610; 1591; 1585; 1581; 1607; 1575; 32; 1575; 1604; 1605; 1587; 1578;
   1582; 1583; 1605; 46; 32; 1575; 1603; 1578; 1576; 32; 1575; 1604; 1571;
   1587; 1574; 1604; 1577; 32; 1576; 1575; 1604; 1604; 1594; 1577; 32; 1575;
   1604; 1593; 1585; 1576; 1610; 1577; 32; 1601; 1602; 1591; 46; 10; 32; 32;
   32; 32; 10; 32; 32; 32; 32; 1575; 1604; 1605; 1587; 1578; 1606; 1583; 58;
   10; 32; 32; 32; 32]%N.

(** The starters prompt, after the sample. *)
Definition STARTERS_PROMPT_TAIL : str :=
  [10; 32; 32; 32; 32; 10; 32; 32; 32; 32; 1602; 1605; 32; 1576; 1573; 1606;
   1588; 1575; 1569; 32; 53; 32; 1571; 1587; 1574; 1604; 1577; 32; 1601;
   1602; 1591; 32; 1578; 1578; 1593; 1604; 1602; 32; 1576; 1605; 1581; 1578;
   1608; 1609; 32; 1575; 1604; 1605; 1587; 1578; 1606; 1583; 46; 32; 1575;
   1603; 1578; 1576; 32; 1575; 1604; 1571; 1587; 1574; 1604; 1577; 32; 1576;
   1575; 1604; 1604; 1594; 1577; 32; 1575; 1604; 1593; 1585; 1576; 1610;
   1577; 32; 1601; 1602; 1591; 1548; 32; 1587; 1591; 1585; 32; 1608; 1575;
   1581; 1583; 32; 1604; 1603; 1604; 32; 1587; 1572; 1575; 1604; 58; 10; 32;
   32; 32; 32]%N.

(** The query prompt, up to the system prompt. *)
Definition QUERY_PROMPT_HEAD : str :=
  [10; 32; 32; 32; 32]%N.

(** The query prompt, between the system prompt and the context. *)
Definition QUERY_PROMPT_CONTEXT : str :=
  [10; 32; 32; 32; 32; 10; 32; 32; 32; 32; 1575; 1604; 1587; 1610; 1575;
   1602; 32; 40; 1610; 1578; 1603; 1608; 1606; 32; 1605; 1606; 32; 1605;
   1602; 1578; 1591; 1601; 1575; 1578; 32; 1605; 1606; 32; 1575; 1604; 1605;
   1587; 1578; 1606; 1583; 41; 58; 10; 32; 32; 32; 32]%N.

(** The query prompt, between the context and the question. *)
Definition QUERY_PROMPT_QUESTION : str :=
  [10; 32; 32; 32; 32; 10; 32; 32; 32; 32; 1575; 1604; 1587; 1572; 1575;
   1604; 58; 10; 32; 32; 32; 32]%N.

(** The query prompt, after the question. *)
Definition QUERY_PROMPT_TAIL : str :=
  [10; 32; 32; 32; 32; 10; 32; 32; 32; 32; 1602; 1583; 1605; 32; 1573; 1580;
   1575; 1576; 1577; 32; 1583; 1602; 1610; 1602; 1577; 32; 1605; 1587; 1578;
   1606; 1583; 1577; 32; 1601; 1602; 1591; 32; 1593; 1604; 1609; 32; 1575;
   1604; 1605; 1593; 1604; 1608; 1605; 1575; 1578; 32; 1575; 1604; 1608;
   1575; 1585; 1583; 1577; 32; 1601; 1610; 32; 1575; 1604; 1587; 1610; 1575;
   1602; 46; 32; 1593; 1606; 1583; 1605; 1575; 32; 1578; 1587; 1578; 1588;
   1607; 1583; 32; 1576; 1605; 1593; 1604; 1608; 1605; 1575; 1578; 1548; 32;
   1575; 1587; 1578; 1582; 1583; 1605; 32; 1571; 1585; 1602; 1575; 1605; 32;
   1575; 1604; 1605; 1585; 1575; 1580; 1593; 32; 1575; 1604; 1605; 1602;
   1583; 1605; 1577; 32; 1605; 1579; 1604; 32; 91; 1605; 1585; 1580; 1593;
   32; 49; 93; 32; 1571; 1608; 32; 91; 1605; 1585; 1580; 1593; 32; 50; 93;
   32; 1604; 1604; 1573; 1588; 1575; 1585; 1577; 32; 1573; 1604; 1609; 32;
   1605; 1589; 1583; 1585; 32; 1575; 1604; 1605; 1593; 1604; 1608; 1605;
   1575; 1578; 46; 32; 1604; 1575; 32; 1578; 1603; 1578; 1576; 32; 34; 1608;
   1601; 1602; 1611; 1575; 32; 1604; 1604; 1606; 1589; 34; 32; 1601; 1602;
   1591; 1548; 32; 1576; 1604; 32; 1575; 1587; 1578; 1582; 1583; 1605; 32;
   1585; 1602; 1605; 32; 1575; 1604; 1605; 1585; 1580; 1593; 32; 1583; 1575;
   1574; 1605; 1611; 1575; 46; 10; 32; 32; 32; 32; 1575; 1604; 1573; 1580;
   1575; 1576; 1577; 58; 10; 32; 32; 32; 32]%N.

(** The reference id, up to the number. *)
Definition REF_ID_OPEN : str :=
  [91; 1605; 1585; 1580; 1593; 32]%N.

(** The reference id, between the number and the page. *)
Definition REF_ID_PAGE : str :=
  [32; 40; 1589; 1601; 1581; 1577; 32]%N.

(** The reference id, between the page and the line. *)
Definition REF_ID_LINE : str :=
  [44; 32; 1587; 1591; 1585; 32]%N.

(** The reference id, after the line. *)
Definition REF_ID_CLOSE : str :=
  [41; 93]%N.

(** The text returned when the query fails, before the exception text. *)
Definition QUERY_ERROR : str :=
  [1581; 1583; 1579; 32; 1582; 1591; 1571; 58; 32]%N.

(** The Arabic question mark. *)
Definition QUESTION_MARK : char := 0x61F%N.

(** [str(n)] for an int [n]. *)
Definition str_of_int (n : Z) : str :=
  lit (DecimalString.NilZero.string_of_int (Z.to_int n)).

Section Ollama.

Variable float : Type.

(** [call_ollama]: the answer of the model for a prompt, or an
    exception. *)
Variable call_ollama : str -> outcome str.

(** [str(e)] *)
Variable exn_text : exn -> str.

(** [sample] of [generate_starters] *)
Definition starter_sample (document_content : str) : str :=
  if (2000 <? len document_content)%Z then firstn 5000 document_content
  else document_content.

Definition starters_prompt (sample : str) : str :=
  STARTERS_PROMPT_HEAD ++ SAUDI_EXPERT_SYSTEM_PROMPT
    ++ STARTERS_PROMPT_TASK ++ sample ++ STARTERS_PROMPT_TAIL.

Definition generate_starters (document_content : str) : list str :=
  match call_ollama (starters_prompt (starter_sample document_content)) with
  | Return response_text =>
      let questions :=
        map strip
          (filter (fun q => truthy (strip q) && contains QUESTION_MARK q)
             (split_char response_text NEWLINE)) in
      firstn 5 questions
  | Raise _ => []
  end.

(** [ref_id] of [query_document] for the item at position [i].  The
    items are results of [search], whose metadata holds a page and a
    line. *)
Definition reference_id (i : nat) (item : search_result float) : str :=
  REF_ID_OPEN ++ str_of_int (Z.of_nat i + 1)
    ++ REF_ID_PAGE ++ str_of_int (m_page (r_metadata item))
    ++ REF_ID_LINE ++ str_of_int (m_line (r_metadata item))
    ++ REF_ID_CLOSE.

(** The loop over [enumerate(context)], from position [i] on. *)
Fixpoint context_chunks (i : nat) (context : list (search_result float))
  : list str :=
  match context with
  | [] => []
  | item :: rest =>
      (reference_id i item ++ lit ": " ++ r_chunk item)
        :: context_chunks (S i) rest
  end.

Definition query_prompt (query : str) (context : list (search_result float))
  : str :=
  QUERY_PROMPT_HEAD ++ SAUDI_EXPERT_SYSTEM_PROMPT ++ QUERY_PROMPT_CONTEXT
    ++ join [NEWLINE; NEWLINE] (context_chunks 0 context)
    ++ QUERY_PROMPT_QUESTION ++ query ++ QUERY_PROMPT_TAIL.

Definition query_document (query : str)
  (context : list (search_result float)) : str :=
  match call_ollama (query_prompt query context) with
  | Return response_text => response_text
  | Raise e => QUERY_ERROR ++ exn_text e
  end.

End Ollama.

(** ** document_processor.py: text extraction

    The libraries that read the files are taken as parameters: the page
    texts of a PDF, the paragraph and table cell texts of a DOCX, and the
    decoding of a text file under an encoding. *)

(** The text returned for a path with another extension. *)
Definition UNSUPPORTED_FORMAT : str :=
  [1589; 1610; 1594; 1577; 32; 1575; 1604; 1605; 1604; 1601; 32; 1594; 1610;
   1585; 32; 1605; 1583; 1593; 1608; 1605; 1577]%N.

(** The text returned when extraction raises, before the exception text. *)
Definition PROCESSING_ERROR : str :=
  [1582; 1591; 1571; 32; 1601; 1610; 32; 1605; 1593; 1575; 1604; 1580; 1577;
   32; 1575; 1604; 1605; 1587; 1578; 1606; 1583; 58; 32]%N.

(** The text returned when no encoding decodes a text file. *)
Definition TXT_UNREADABLE : str :=
  [1604; 1605; 32; 1610; 1578; 1605; 1603; 1606; 32; 1605; 1606; 32; 1602;
   1585; 1575; 1569; 1577; 32; 1575; 1604; 1605; 1604; 1601; 32; 1575; 1604;
   1606; 1589; 1610; 32; 1576; 1575; 1587; 1578; 1582; 1583; 1575; 1605; 32;
   1571; 1610; 32; 1578; 1585; 1605; 1610; 1586; 32; 1602; 1610; 1575; 1587;
   1610; 46]%N.

(** [encodings] of [extract_from_txt] *)
Definition encodings : list str :=
  [lit "utf-8"; lit "utf-16"; lit "cp1256"; lit "iso-8859-6";
   lit "windows-1256"].

(** The result of reading or decoding under one encoding. *)
Inductive decoded : Type :=
| Decoded (text : str)
| UnicodeDecodeError
| DecodeRaise (e : exn).

(** [s.endswith(suffix)] *)
Definition ends_with (suffix s : str) : bool :=
  starts_with (rev suffix) (rev s).

Section Extraction.

(** [page.extract_text()] for the pages of [PyPDF2.PdfReader(file)];
    [None] when a page has no text. *)
Variable pdf_pages : str -> outcome (list (option str)).

(** [para.text] for the paragraphs of [docx.Document(file_path)], and
    [cell.text] for the cells of the rows of its tables. *)
Variable docx_document : str -> outcome (list str * list (list (list str))).

(** [open(file_path, 'r', encoding=encoding).read()] *)
Variable read_text : str -> str -> decoded.

(** [open(file_path, 'rb').read()] and [binary_data.decode(encoding)] *)
Variable read_bytes : str -> outcome (list N).
Variable decode : list N -> str -> decoded.

(** [str(e)] *)
Variable exn_text : exn -> str.

Definition pdf_page_text (page_text : option str) : str :=
  match page_text with
  | Some t => if truthy t then t ++ [NEWLINE; NEWLINE] else []
  | None => []
  end.

Definition extract_from_pdf (file_path : str) : outcome str :=
  pages <- pdf_pages file_path ;;
  Return (fix_arabic_text (concat (map pdf_page_text pages))).

Definition paragraph_text (para : str) : str :=
  if truthy (strip para) then strip para ++ [NEWLINE; NEWLINE] else [].

Definition row_text (cells : list str) : str :=
  let row_text :=
    join (lit " | ") (map strip (filter (fun c => truthy (strip c)) cells)) in
  if truthy row_text then row_text ++ [NEWLINE] else [].

Definition table_text (rows : list (list str)) : str :=
  concat (map row_text rows) ++ [NEWLINE].

Definition extract_from_docx (file_path : str) : outcome str :=
  doc <- docx_document file_path ;;
  Return (fix_arabic_text
            (concat (map paragraph_text (fst doc))
               ++ concat (map table_text (snd doc)))).

(** The first loop of [extract_from_txt]; [None] when every encoding
    gave a [UnicodeDecodeError]. *)
Fixpoint read_with (file_path : str) (encs : list str)
  : outcome (option str) :=
  match encs with
  | [] => Return None
  | encoding :: rest =>
      match read_text file_path encoding with
      | Decoded text => Return (Some (fix_arabic_text text))
      | UnicodeDecodeError => read_with file_path rest
      | DecodeRaise e => Raise e
      end
  end.

(** The second loop, on the bytes of the file. *)
Fixpoint decode_with (binary_data : list N) (encs : list str)
  : outcome (option str) :=
  match encs with
  | [] => Return None
  | encoding :: rest =>
      match decode binary_data encoding with
      | Decoded text => Return (Some (fix_arabic_text text))
      | UnicodeDecodeError => decode_with binary_data rest
      | DecodeRaise e => Raise e
      end
  end.

Definition extract_from_txt (file_path : str) : outcome str :=
  first <- read_with file_path encodings ;;
  match first with
  | Some text => Return text
  | None =>
      binary_data <- read_bytes file_path ;;
      second <- decode_with binary_data encodings ;;
      match second with
      | Some text => Return text
      | None => Return TXT_UNREADABLE
      end
  end.

Definition process_document (file_path : str) : outcome str :=
  match
    (if ends_with (lit ".pdf") file_path then extract_from_pdf file_path
     else if ends_with (lit ".docx") file_path
          then extract_from_docx file_path
     else if ends_with (lit ".txt") file_path then extract_from_txt file_path
     else Return UNSUPPORTED_FORMAT)
  with
  | Return text => Return text
  | Raise e => Return (PROCESSING_ERROR ++ exn_text e)
  end.

End Extraction.

(** ** app.py

    The chat framework is not modelled: every message sent or updated is
    recorded as an event that names its text template and carries the
    values put into it.  The session holds the keys [files],
    [processed_files] and [document_language]; its key [vector_store]
    always refers to the object of the module-level variable and is not
    kept apart. *)

(** The word looked for in the answer: reference. *)
Definition MARJI : str :=
  [1605; 1585; 1580; 1593]%N.

(** The word looked for in the answer: the references. *)
Definition AL_MARAJI : str :=
  [1575; 1604; 1605; 1585; 1575; 1580; 1593]%N.

(** The heading put before the appended references. *)
Definition REFERENCES_HEADING : str :=
  [10; 10; 42; 42; 1575; 1604; 1605; 1585; 1575; 1580; 1593; 58; 42; 42; 10]%N.

(** The heading of the sources message. *)
Definition SOURCES_HEADING : str :=
  [1575; 1604; 1605; 1589; 1575; 1583; 1585; 32; 1575; 1604; 1605; 1587;
   1578; 1582; 1583; 1605; 1577; 32; 1601; 1610; 32; 1575; 1604; 1573; 1580;
   1575; 1576; 1577; 58]%N.

(** The reference label, up to the number. *)
Definition LABEL_OPEN : str :=
  [91; 1605; 1585; 1580; 1593; 32]%N.

(** The reference label, between the number and the page. *)
Definition LABEL_PAGE : str :=
  [93; 32; 1589; 1601; 1581; 1577; 32]%N.

(** The reference label, between the page and the line. *)
Definition LABEL_LINE : str :=
  [44; 32; 1587; 1591; 1585; 32]%N.

(** [sub in s] *)
Fixpoint occurs_in (sub s : str) : bool :=
  starts_with sub s
  || match s with
     | [] => false
     | _ :: s' => occurs_in sub s'
     end.

(** An uploaded file: [file.name] and [file.path]. *)
Record uploaded_file : Type := {
  file_name : str;
  file_path : str
}.

Inductive ui_event : Type :=
| show_welcome
| show_ask_file
| show_ask_more
| show_question (question : str)
| show_limit_reached
| show_processing (name : str) (step : Z)
| show_no_text (name : str)
| show_no_chunks (name : str)
| show_loaded (name : str) (lang : language) (processed_files : Z)
| show_preview (name : str) (preview_text : str)
| show_starters_heading
| show_starter (question : str)
| show_starter_action (question : str)
| show_offer_more
| show_error (e : exn)
| show_upload_first
| show_thinking
| show_no_information
| show_answer (response : str)
| show_translate_action (response : str)
| show_sources (sources : str) (elements : list str)
| show_search_error (e : exn).

Section App.

Variable float : Type.
Variable float_leb : float -> float -> bool.
Variable fvec_L2sqr : list float -> list float -> float.
Variable FLT_MAX : float.
Variable np_empty : Z -> outcome unit.
Variable encode : list str -> outcome (list (list float)).
Variable splitter : Z -> Z -> list str -> str -> outcome (list str).
Variable detect : str -> outcome str.
Variable call_ollama : str -> outcome str.
Variable exn_text : exn -> str.
Variable pdf_pages : str -> outcome (list (option str)).
Variable docx_document : str -> outcome (list str * list (list (list str))).
Variable read_text : str -> str -> decoded.
Variable read_bytes : str -> outcome (list N).
Variable decode : list N -> str -> decoded.

(** The module-level [vector_store] and the session. *)
Record app_state : Type := {
  vector_store : option (VectorStore float);
  session_files : option (list (str * str));
  session_processed_files : option Z;
  session_document_language : option language
}.

Definition set_vector_store (st : app_state) (v : VectorStore float)
  : app_state :=
  {| vector_store := Some v;
     session_files := session_files st;
     session_processed_files := session_processed_files st;
     session_document_language := session_document_language st |}.

Definition set_files (st : app_state) (v : list (str * str)) : app_state :=
  {| vector_store := vector_store st;
     session_files := Some v;
     session_processed_files := session_processed_files st;
     session_document_language := session_document_language st |}.

Definition set_processed_files (st : app_state) (v : Z) : app_state :=
  {| vector_store := vector_store st;
     session_files := session_files st;
     session_processed_files := Some v;
     session_document_language := session_document_language st |}.

Definition set_document_language (st : app_state) (v : language)
  : app_state :=
  {| vector_store := vector_store st;
     session_files := session_files st;
     session_processed_files := session_processed_files st;
     session_document_language := Some v |}.

(** [processed_files] read from the session, 0 when the key is unset. *)
Definition processed_files (st : app_state) : Z :=
  match session_processed_files st with
  | None => 0%Z
  | Some n => n
  end.

(** The store behind [vector_store], created when the variable is
    [None]. *)
Definition the_store (st : app_state) : VectorStore float :=
  match vector_store st with
  | None => VectorStore_init
  | Some v => v
  end.

(** The messages after a successful build: the summary, the preview,
    the starter questions and the offer to upload more. *)
Definition loaded_messages (st : app_state) (name : str)
  (document_content : str) (lang : language) (starters : list str)
  : list ui_event :=
  let preview_text :=
    if (500 <? len document_content)%Z
    then firstn 500 document_content ++ lit "..."
    else document_content in
  [show_processing name 4;
   show_loaded name lang (processed_files st);
   show_preview name preview_text]
    ++ (if truthy starters
        then show_starters_heading
               :: flat_map (fun q => [show_starter q; show_starter_action q])
                    starters
        else [])
    ++ (if (processed_files st <? 5)%Z then [show_offer_more] else []).

Definition process_uploaded_file (st : app_state) (file : uploaded_file)
  : app_state * list ui_event :=
  let st := set_vector_store st (the_store st) in
  let processed := processed_files st in
  if (5 <=? processed)%Z then (st, [show_limit_reached])
  else
    let name := file_name file in
    let files := match session_files st with
                 | None => []
                 | Some l => l
                 end in
    let st := set_files st (files ++ [(name, file_path file)]) in
    let st := set_processed_files st (processed + 1) in
    let shown := [show_processing name 1; show_processing name 2] in
    match process_document pdf_pages docx_document read_text read_bytes
            decode exn_text (file_path file) with
    | Raise e => (st, shown ++ [show_error e])
    | Return document_content =>
        if negb (truthy document_content)
           || (len (strip document_content) =? 0)%Z
        then (st, shown ++ [show_no_text name])
        else
          let lang := detect_language detect document_content in
          let st := set_document_language st lang in
          let shown := shown ++ [show_processing name 3] in
          let new_chunks := chunk_document splitter document_content in
          if negb (truthy new_chunks)
          then (st, shown ++ [show_no_chunks name])
          else
            match add_document encode (the_store st) new_chunks with
            | (Raise e, store', _) =>
                (set_vector_store st store', shown ++ [show_error e])
            | (Return _, store', _) =>
                let st := set_vector_store st store' in
                let starters := generate_starters call_ollama
                                  document_content in
                (st, shown
                       ++ loaded_messages st name document_content lang
                            starters)
            end
    end.

(** [start]: a new chat with the files given in answer to the first
    request ([None] when there was no answer). *)
Definition start_state : app_state :=
  {| vector_store := Some VectorStore_init;
     session_files := Some [];
     session_processed_files := Some 0%Z;
     session_document_language := None |}.

Fixpoint process_files (st : app_state) (files : list uploaded_file)
  : app_state * list ui_event :=
  match files with
  | [] => (st, [])
  | file :: rest =>
      let r := process_uploaded_file st file in
      let r' := process_files (fst r) rest in
      (fst r', snd r ++ snd r')
  end.

Definition start (files : option (list uploaded_file))
  : app_state * list ui_event :=
  let r := match files with
           | Some l => process_files start_state l
           | None => (start_state, [])
           end in
  (fst r, [show_welcome; show_ask_file] ++ snd r).

(** [on_upload_more] with the answer to the request for one more file. *)
Definition on_upload_more (st : app_state)
  (files : option (list uploaded_file)) : app_state * list ui_event :=
  match files with
  | Some (file :: _) =>
      let r := process_uploaded_file st file in
      (fst r, show_ask_more :: snd r)
  | _ => (st, [show_ask_more])
  end.

(** The states of a chat: the one [start] leaves, then any number of
    [on_upload_more].  The message handlers do not change the state. *)
Inductive reachable : app_state -> Prop :=
| reachable_start (files : option (list uploaded_file)) :
    reachable (fst (start files))
| reachable_upload_more (st : app_state)
    (files : option (list uploaded_file)) :
    reachable st -> reachable (fst (on_upload_more st files)).

(** The entry appended to the session's [files] for an upload. *)
Definition file_entry (file : uploaded_file) : str * str :=
  (file_name file, file_path file).

(** The events that report a failed step. *)
Definition is_failure (e : ui_event) : bool :=
  match e with
  | show_error _ | show_search_error _ | show_no_text _ | show_no_chunks _ =>
      true
  | _ => false
  end.

(** The reference label of the result at position [i]. *)
Definition reference_label (i : nat) (r : search_result float) : str :=
  LABEL_OPEN ++ str_of_int (Z.of_nat i + 1)
    ++ LABEL_PAGE ++ str_of_int (m_page (r_metadata r))
    ++ LABEL_LINE ++ str_of_int (m_line (r_metadata r)).

Fixpoint reference_list (i : nat) (results : list (search_result float))
  : list str :=
  match results with
  | [] => []
  | r :: rest => reference_label i r :: reference_list (S i) rest
  end.

(** The answer shown for a question: the text of the model, with the
    references appended when it names none. *)
Definition with_references (response : str) (references : list str) : str :=
  if negb (occurs_in MARJI response) && negb (occurs_in AL_MARAJI response)
  then response ++ REFERENCES_HEADING ++ join [NEWLINE] references
  else response.

Definition handle_user_message (st : app_state) (user_message : str)
  : list ui_event :=
  match vector_store st with
  | None => [show_upload_first]
  | Some store =>
      match index store with
      | None => [show_upload_first]
      | Some _ =>
          show_thinking
            :: match fst (search float_leb fvec_L2sqr FLT_MAX np_empty encode
                            store user_message 3) with
               | Raise e => [show_search_error e]
               | Return relevant_chunks =>
                   if negb (truthy relevant_chunks)
                   then [show_no_information]
                   else
                     let references := reference_list 0 relevant_chunks in
                     let response :=
                       with_references
                         (query_document call_ollama exn_text user_message
                            relevant_chunks)
                         references in
                     [show_answer response; show_translate_action response]
                       ++ (if truthy references
                           then [show_sources
                                   (SOURCES_HEADING
                                      ++ join [NEWLINE] references)
                                   references]
                           else [])
               end
      end
  end.

(** [on_ask_question] with the question of the action's payload. *)
Definition on_ask_question (st : app_state) (question : str)
  : list ui_event :=
  if truthy question
  then show_question question :: handle_user_message st question
  else [].

End App.

(** ** A small instance of the application

    Used to run the handlers on concrete inputs: every text file reads
    as the same short English text, except that a file whose name starts
    with [blank] reads as three spaces; the other readers fail, the
    language detector answers [en] and the model answers with one
    question. *)

Definition demo_read_text (file_path encoding : str) : decoded :=
  if starts_with (lit "blank") file_path then Decoded (lit "   ")
  else Decoded (lit "Riyadh is the capital. It is a large city.").

Definition demo_call_ollama (prompt : str) : outcome str :=
  Return (lit "What is the capital" ++ [QUESTION_MARK]).

Definition demo_process_uploaded_file :=
  process_uploaded_file (float := Z) demo_encode
    RecursiveCharacterTextSplitter
    (fun _ => Return (lit "en")) demo_call_ollama (fun _ => lit "error")
    (fun _ => Raise RuntimeError) (fun _ => Raise RuntimeError)
    demo_read_text (fun _ => Raise RuntimeError)
    (fun _ _ => UnicodeDecodeError).

Definition demo_start :=
  start (float := Z) demo_encode
    RecursiveCharacterTextSplitter
    (fun _ => Return (lit "en")) demo_call_ollama (fun _ => lit "error")
    (fun _ => Raise RuntimeError) (fun _ => Raise RuntimeError)
    demo_read_text (fun _ => Raise RuntimeError)
    (fun _ _ => UnicodeDecodeError).

Definition demo_handle_user_message :=
  handle_user_message Z.leb demo_L2sqr demo_FLT_MAX demo_np_empty demo_encode
    demo_call_ollama (fun _ => lit "error").

Definition notes_txt : uploaded_file :=
  {| file_name := lit "notes.txt"; file_path := lit "notes.txt" |}.

Definition blank_txt : uploaded_file :=
  {| file_name := lit "blank.txt"; file_path := lit "blank.txt" |}.

Definition notes_doc : uploaded_file :=
  {| file_name := lit "notes.doc"; file_path := lit "notes.doc" |}.

(* ================================================================== *)
(** * Part II: properties *)
(* ================================================================== *)

Unset Implicit Arguments.

(** ** Whitespace-only texts *)

Lemma lstrip_nil_iff (s : str) :
  lstrip s = [] <-> forallb isspace s = true.
Proof.
  induction s as [|c s IH]; simpl.
  - tauto.
  - destruct (isspace c); simpl.
    + exact IH.
    + split; discriminate.
Qed.

Lemma forallb_isspace_lstrip (s : str) :
  forallb isspace (lstrip s) = forallb isspace s.
Proof.
  induction s as [|c s IH]; simpl; [reflexivity|].
  destruct (isspace c) eqn:E; simpl; [exact IH|].
  now rewrite E.
Qed.

Lemma forallb_rev {A} (f : A -> bool) (l : list A) :
  forallb f (rev l) = forallb f l.
Proof.
  induction l as [|a l IH]; simpl; [reflexivity|].
  rewrite forallb_app, IH. simpl.
  rewrite andb_true_r. apply andb_comm.
Qed.

Lemma strip_nil_iff (s : str) :
  strip s = [] <-> forallb isspace s = true.
Proof.
  unfold strip, rstrip.
  rewrite <- (forallb_isspace_lstrip s), <- (forallb_rev isspace (lstrip s)).
  rewrite <- lstrip_nil_iff.
  split; intros H.
  - apply (f_equal (@rev char)) in H. now rewrite rev_involutive in H.
  - now rewrite H.
Qed.

(** The guard of [fix_arabic_text], [detect_language] and
    [chunk_document] holds exactly for the texts made of whitespace. *)
Lemma blank_guard (s : str) :
  negb (truthy s) || (len (strip s) =? 0)%Z = forallb isspace s.
Proof.
  destruct (forallb isspace s) eqn:E.
  - apply strip_nil_iff in E. rewrite E. apply orb_true_r.
  - destruct s as [|c s]; [discriminate|]. simpl negb. simpl orb.
    destruct (strip (c :: s)) eqn:Es.
    + apply strip_nil_iff in Es. congruence.
    + reflexivity.
Qed.

(** ** Patterns made of one repeated character *)

Lemma greedy_run (c : char) (s : str) :
  greedy (is_char c) (fun _ => Some O) s = Some (run_len c s).
Proof.
  induction s as [|x s IH]; simpl; [reflexivity|].
  unfold is_char at 1. destruct (x =? c)%N; [|reflexivity].
  now rewrite IH.
Qed.

Lemma exactly_run (c : char) (m : nat) (s : str) :
  exactly m (is_char c) (greedy (is_char c) (fun _ => Some O)) s
  = if (m <=? run_len c s)%nat then Some (run_len c s) else None.
Proof.
  revert s. induction m as [|m IH]; intros s.
  - simpl. apply greedy_run.
  - destruct s as [|x s]; simpl; [reflexivity|].
    unfold is_char at 1. destruct (x =? c)%N; [|reflexivity].
    rewrite IH. destruct (m <=? run_len c s)%nat; reflexivity.
Qed.

Lemma match_len_run (c : char) (m : nat) (s : str) :
  match_len (repeated c m) s
  = if (m <=? run_len c s)%nat then Some (run_len c s) else None.
Proof. apply exactly_run. Qed.

Lemma run_len_repeat (c : char) (n : nat) (t : str) :
  run_len c t = O -> run_len c (repeat c n ++ t) = n.
Proof.
  intros Ht. induction n as [|n IH]; simpl; [exact Ht|].
  now rewrite N.eqb_refl, IH.
Qed.

Lemma run_len_other (c x : char) (t : str) :
  x <> c -> run_len c (x :: t) = O.
Proof. intros H. simpl. now apply N.eqb_neq in H as ->. Qed.

Section CollapseRuns.

(** [re.sub] with the pattern [c{m,}], [m] at least one. *)
Variables (c : char) (m : nat) (repl : str).
Hypothesis m_pos : (1 <= m)%nat.

Local Abbreviation r := (repeated c m).

Lemma re_sub_from_skip (n : nat) (s : str) :
  re_sub_from r repl n s = re_sub_from r repl O (skipn n s).
Proof.
  revert n. induction s as [|x s IH]; intros [|n]; try reflexivity.
  simpl skipn. rewrite <- IH. reflexivity.
Qed.

Lemma re_sub_other (x : char) (t : str) :
  x <> c -> re_sub r repl (x :: t) = x :: re_sub r repl t.
Proof.
  intros Hx. unfold re_sub. cbn [re_sub_from].
  rewrite match_len_run, run_len_other by assumption.
  destruct m; [lia|]. reflexivity.
Qed.

Lemma re_sub_free_app (w t : str) :
  ~ In c w -> re_sub r repl (w ++ t) = w ++ re_sub r repl t.
Proof.
  induction w as [|x w IH]; intros Hw; [reflexivity|].
  simpl app. rewrite re_sub_other.
  - rewrite IH; [reflexivity|]. intros Hin. apply Hw. now right.
  - intros ->. apply Hw. now left.
Qed.

Lemma re_sub_short_run (n : nat) (t : str) :
  run_len c t = O -> (n < m)%nat ->
  re_sub r repl (repeat c n ++ t) = repeat c n ++ re_sub r repl t.
Proof.
  intros Ht. induction n as [|n IH]; intros Hn; [reflexivity|].
  simpl repeat. simpl app. unfold re_sub. cbn [re_sub_from].
  rewrite match_len_run.
  change (c :: repeat c n ++ t) with (repeat c (S n) ++ t).
  rewrite run_len_repeat by assumption.
  destruct (Nat.leb_spec m (S n)); [lia|].
  f_equal. apply IH. lia.
Qed.

Lemma re_sub_long_run (n : nat) (t : str) :
  run_len c t = O -> (m <= n)%nat ->
  re_sub r repl (repeat c n ++ t) = repl ++ re_sub r repl t.
Proof.
  intros Ht Hn. destruct n as [|n]; [lia|].
  simpl repeat. simpl app. unfold re_sub. cbn [re_sub_from].
  rewrite match_len_run.
  change (c :: repeat c n ++ t) with (repeat c (S n) ++ t).
  rewrite run_len_repeat by assumption.
  destruct (Nat.leb_spec m (S n)); [|lia].
  f_equal. rewrite re_sub_from_skip. f_equal.
  rewrite skipn_app, repeat_length, Nat.sub_diag. simpl.
  rewrite skipn_all2 by (rewrite repeat_length; lia). reflexivity.
Qed.

End CollapseRuns.

(** ** Texts as lists of runs *)

Lemma expand_cons (c : char) (n : nat) (rs : list (char * nat)) :
  expand ((c, n) :: rs) = repeat c n ++ expand rs.
Proof. reflexivity. Qed.

Lemma expand_runs (s : str) : expand (runs s) = s.
Proof.
  induction s as [|c s IH]; [reflexivity|].
  simpl runs. destruct (runs s) as [|[c' n] rs].
  - simpl in IH. subst s. reflexivity.
  - destruct (N.eqb_spec c c') as [->|_].
    + rewrite expand_cons in IH. rewrite expand_cons.
      simpl repeat. simpl app. now rewrite IH.
    + now rewrite expand_cons, IH.
Qed.

Lemma run_len_repeat_head (c x : char) (n : nat) (t : str) :
  (1 <= n)%nat -> (run_len c (repeat x n ++ t) = O <-> x <> c).
Proof.
  intros Hn. destruct n as [|n]; [lia|]. simpl.
  destruct (N.eqb_spec x c); split; intros; congruence.
Qed.

Lemma canonical_runs (s : str) : canonical (runs s).
Proof.
  induction s as [|c s IH]; [exact I|].
  simpl runs. destruct (runs s) as [|[c' n] rs].
  - simpl. auto.
  - destruct IH as (Hn & Hrun & Hrs).
    destruct (N.eqb_spec c c') as [->|Hne].
    + simpl. repeat split; [lia|assumption|assumption].
    + cbn [canonical]. repeat split; try assumption; [lia|].
      rewrite expand_cons. apply run_len_repeat_head; [assumption|congruence].
Qed.

Lemma canonical_positive (rs : list (char * nat)) :
  canonical rs -> Forall (fun r => (1 <= snd r)%nat) rs.
Proof.
  induction rs as [|[c n] rs IH]; intros H; constructor.
  - apply H.
  - apply IH, H.
Qed.

Lemma run_len_expand_map (f : char * nat -> char * nat) (c : char)
  (rs : list (char * nat)) :
  (forall r, fst (f r) = fst r) ->
  (forall r, (1 <= snd r)%nat -> (1 <= snd (f r))%nat) ->
  canonical rs ->
  run_len c (expand rs) = O -> run_len c (expand (map f rs)) = O.
Proof.
  intros Hfst Hsnd Hrs H. destruct rs as [|[x n] rs]; [reflexivity|].
  destruct Hrs as (Hn & _ & _).
  rewrite expand_cons in H. apply run_len_repeat_head in H; [|assumption].
  simpl map. specialize (Hfst (x, n)). specialize (Hsnd (x, n) Hn).
  destruct (f (x, n)) as [x' n']. simpl in Hfst, Hsnd. subst x'.
  rewrite expand_cons. now apply run_len_repeat_head.
Qed.

Lemma canonical_map (f : char * nat -> char * nat) (rs : list (char * nat)) :
  (forall r, fst (f r) = fst r) ->
  (forall r, (1 <= snd r)%nat -> (1 <= snd (f r))%nat) ->
  canonical rs -> canonical (map f rs).
Proof.
  intros Hfst Hsnd. induction rs as [|[x n] rs IH]; intros H; [exact I|].
  destruct H as (Hn & Hrun & Hrs).
  simpl map. pose proof (Hfst (x, n)) as E. pose proof (Hsnd (x, n) Hn) as P.
  destruct (f (x, n)) as [x' n'] eqn:Ef. simpl in E, P. subst x'.
  cbn [canonical]. repeat split.
  - exact P.
  - now apply run_len_expand_map.
  - now apply IH.
Qed.

Lemma collapse_at_fst (c : char) (m tgt : nat) (r : char * nat) :
  fst (collapse_at c m tgt r) = fst r.
Proof. unfold collapse_at. now destruct (_ && _). Qed.

Lemma collapse_at_snd (c : char) (m tgt : nat) (r : char * nat) :
  (1 <= tgt)%nat -> (1 <= snd r)%nat -> (1 <= snd (collapse_at c m tgt r))%nat.
Proof. intros. unfold collapse_at. now destruct (_ && _). Qed.

(** [re.sub] with [c{m,}] acts run by run. *)
Lemma re_sub_expand (c : char) (m tgt : nat) (rs : list (char * nat)) :
  (1 <= m)%nat -> canonical rs ->
  re_sub (repeated c m) (repeat c tgt) (expand rs)
  = expand (map (collapse_at c m tgt) rs).
Proof.
  intros Hm. induction rs as [|[x n] rs IH]; intros H; [reflexivity|].
  destruct H as (Hn & Hrun & Hrs). specialize (IH Hrs).
  simpl map. rewrite expand_cons. unfold collapse_at. simpl fst. simpl snd.
  destruct (N.eqb_spec x c) as [->|Hne]; simpl andb.
  - destruct (Nat.leb_spec m n).
    + rewrite re_sub_long_run by assumption. now rewrite IH.
    + rewrite re_sub_short_run by assumption. now rewrite IH.
  - rewrite re_sub_free_app; [now rewrite IH|assumption|].
    intros Hin. apply repeat_spec in Hin. congruence.
Qed.

Lemma collapse_run_split (r : char * nat) :
  (1 <= snd r)%nat ->
  collapse_at NEWLINE 3 2 (collapse_at SPACE 1 1 r) = collapse_run r.
Proof.
  destruct r as [c n]. simpl snd. intros Hn. unfold collapse_run.
  destruct (N.eqb_spec c SPACE) as [->|Hs].
  - assert (E : collapse_at SPACE 1 1 (SPACE, n) = (SPACE, 1%nat)).
    { unfold collapse_at. simpl fst. simpl snd. rewrite N.eqb_refl.
      destruct (Nat.leb_spec 1 n); [reflexivity|lia]. }
    rewrite E. reflexivity.
  - assert (E : collapse_at SPACE 1 1 (c, n) = (c, n)).
    { unfold collapse_at. simpl fst. apply N.eqb_neq in Hs.
      now rewrite Hs. }
    rewrite E. reflexivity.
Qed.

(** The two [re.sub] calls of [fix_arabic_text] together do what the
    contract says, run by run. *)
Lemma whitespace_subs_collapse_runs (s : str) :
  re_sub NEWLINES3 [NEWLINE; NEWLINE] (re_sub SPACES [SPACE] s)
  = collapse_whitespace_runs s.
Proof.
  unfold collapse_whitespace_runs, SPACES, NEWLINES3.
  rewrite <- (expand_runs s) at 1.
  pose proof (canonical_runs s) as Hc.
  change [SPACE] with (repeat SPACE 1).
  change [NEWLINE; NEWLINE] with (repeat NEWLINE 2).
  rewrite re_sub_expand by (auto; lia).
  rewrite re_sub_expand; [|lia|].
  - rewrite map_map. f_equal. apply map_ext_in. intros r Hr.
    apply collapse_run_split.
    apply canonical_positive in Hc. rewrite Forall_forall in Hc. auto.
  - apply canonical_map; auto using collapse_at_fst.
    intros. now apply collapse_at_snd.
Qed.

(** ** The letter substitutions *)

Lemma replace_app (old : char) (new a b : str) :
  replace old new (a ++ b) = replace old new a ++ replace old new b.
Proof. apply flat_map_app. Qed.

Lemma normalize_letters_app (a b : str) :
  normalize_letters (a ++ b) = normalize_letters a ++ normalize_letters b.
Proof.
  unfold normalize_letters, apply_replacements, replacements.
  cbn [fold_left]. now rewrite !replace_app.
Qed.

Lemma normalize_letters_flat_map (s : str) :
  normalize_letters s = flat_map letter_image s.
Proof.
  induction s as [|c s IH]; [reflexivity|].
  change (c :: s) with ([c] ++ s).
  rewrite normalize_letters_app, IH. reflexivity.
Qed.

(** The table of the substitutions, character by character. *)
Lemma letter_image_cases (c : char) :
  letter_image c =
    if (c =? LAM_ALEF_LIGATURE)%N then [LAM; ALEF]
    else if (c =? ALEF_HAMZA_ABOVE)%N then [ALEF]
    else if (c =? ALEF_HAMZA_BELOW)%N then [ALEF]
    else if (c =? ALEF_MADDA)%N then [ALEF]
    else if (c =? ALEF_MAKSURA)%N then [YEH]
    else if (c =? TEH_MARBUTA)%N then [HEH]
    else [c].
Proof.
  unfold letter_image, normalize_letters, apply_replacements, replacements.
  unfold replace. cbn [fold_left flat_map app].
  destruct (N.eqb_spec c LAM_ALEF_LIGATURE) as [->|H1]; [reflexivity|].
  cbn [flat_map app].
  destruct (N.eqb_spec c ALEF_HAMZA_ABOVE) as [->|H2]; [reflexivity|].
  cbn [flat_map app].
  destruct (N.eqb_spec c ALEF_HAMZA_BELOW) as [->|H3]; [reflexivity|].
  cbn [flat_map app].
  destruct (N.eqb_spec c ALEF_MADDA) as [->|H4]; [reflexivity|].
  cbn [flat_map app].
  destruct (N.eqb_spec c ALEF_MAKSURA) as [->|H5]; [reflexivity|].
  cbn [flat_map app].
  destruct (N.eqb_spec c TEH_MARBUTA) as [->|H6]; reflexivity.
Qed.

Ltac letter_cases c :=
  rewrite (letter_image_cases c);
  destruct (N.eqb_spec c LAM_ALEF_LIGATURE);
  [|destruct (N.eqb_spec c ALEF_HAMZA_ABOVE);
    [|destruct (N.eqb_spec c ALEF_HAMZA_BELOW);
      [|destruct (N.eqb_spec c ALEF_MADDA);
        [|destruct (N.eqb_spec c ALEF_MAKSURA);
          [|destruct (N.eqb_spec c TEH_MARBUTA)]]]]].

Lemma letter_image_idempotent (c : char) :
  flat_map letter_image (letter_image c) = letter_image c.
Proof.
  letter_cases c; try reflexivity.
  cbn [flat_map]. rewrite app_nil_r.
  rewrite letter_image_cases.
  repeat match goal with
         | H : c <> ?k |- context [(c =? ?k)%N] =>
             destruct (N.eqb_spec c k); [contradiction|]
         end.
  reflexivity.
Qed.

Lemma normalize_letters_idempotent (s : str) :
  normalize_letters (normalize_letters s) = normalize_letters s.
Proof.
  rewrite !normalize_letters_flat_map.
  induction s as [|c s IH]; [reflexivity|].
  cbn [flat_map]. rewrite flat_map_app, IH.
  now rewrite letter_image_idempotent.
Qed.

Lemma letter_image_isspace (c : char) :
  forallb isspace (letter_image c) = isspace c.
Proof.
  letter_cases c; subst; try reflexivity.
  simpl. apply andb_true_r.
Qed.

Lemma normalize_letters_isspace (s : str) :
  forallb isspace (normalize_letters s) = forallb isspace s.
Proof.
  rewrite normalize_letters_flat_map.
  induction s as [|c s IH]; [reflexivity|].
  cbn [flat_map forallb]. rewrite forallb_app, IH.
  now rewrite letter_image_isspace.
Qed.

(** A space or a newline is kept, and no other character turns into
    one or disappears. *)
Lemma letter_image_keeps (c0 : char) :
  c0 = SPACE \/ c0 = NEWLINE ->
  letter_image c0 = [c0] /\
  forall x, x <> c0 -> letter_image x <> [] /\ ~ In c0 (letter_image x).
Proof.
  intros H0. split.
  - destruct H0; subst; reflexivity.
  - intros x Hx. letter_cases x; subst; split; try discriminate;
      simpl; intros F; destruct H0; subst; intuition discriminate.
Qed.

(** ** Collapsing runs commutes with the letter substitutions *)

Section SubstituteThenCollapse.

Variables (c : char) (m tgt : nat) (g : char -> str).
Hypothesis m_pos : (1 <= m)%nat.
Hypothesis g_keeps : g c = [c].
Hypothesis g_others : forall x, x <> c -> g x <> [] /\ ~ In c (g x).

Lemma flat_map_repeat_kept (n : nat) :
  flat_map g (repeat c n) = repeat c n.
Proof.
  induction n as [|n IH]; [reflexivity|].
  simpl. now rewrite g_keeps, IH.
Qed.

Lemma flat_map_free (w : str) :
  ~ In c w -> ~ In c (flat_map g w).
Proof.
  intros Hw Hin. apply in_flat_map in Hin as (x & Hx & Hin).
  assert (x <> c) by (intros ->; contradiction).
  now apply (g_others x).
Qed.

Lemma run_len_flat_map (t : str) :
  run_len c t = O -> run_len c (flat_map g t) = O.
Proof.
  destruct t as [|x t]; [reflexivity|]. simpl.
  destruct (N.eqb_spec x c) as [|Hx]; [discriminate|]. intros _.
  destruct (g_others x Hx) as [Hne Hin].
  destruct (g x) as [|y w]; [congruence|]. simpl.
  destruct (N.eqb_spec y c) as [->|]; [|reflexivity].
  exfalso. apply Hin. now left.
Qed.

Lemma re_sub_flat_map_runs (rs : list (char * nat)) :
  canonical rs ->
  re_sub (repeated c m) (repeat c tgt) (flat_map g (expand rs))
  = flat_map g (re_sub (repeated c m) (repeat c tgt) (expand rs)).
Proof.
  induction rs as [|[x n] rs IH]; intros H; [reflexivity|].
  destruct H as (Hn & Hrun & Hrs). specialize (IH Hrs).
  rewrite expand_cons, flat_map_app.
  destruct (N.eqb_spec x c) as [->|Hne].
  - rewrite flat_map_repeat_kept.
    destruct (Nat.leb_spec m n).
    + rewrite !re_sub_long_run; auto using run_len_flat_map.
      now rewrite flat_map_app, flat_map_repeat_kept, IH.
    + rewrite !re_sub_short_run; auto using run_len_flat_map.
      now rewrite flat_map_app, flat_map_repeat_kept, IH.
  - assert (Hfree : ~ In c (repeat x n)).
    { intros Hin. apply repeat_spec in Hin. congruence. }
    rewrite !re_sub_free_app; auto using flat_map_free.
    now rewrite flat_map_app, IH.
Qed.

Lemma re_sub_flat_map (s : str) :
  re_sub (repeated c m) (repeat c tgt) (flat_map g s)
  = flat_map g (re_sub (repeated c m) (repeat c tgt) s).
Proof.
  rewrite <- (expand_runs s). apply re_sub_flat_map_runs, canonical_runs.
Qed.

End SubstituteThenCollapse.

Lemma re_sub_spaces_letters (s : str) :
  re_sub SPACES [SPACE] (normalize_letters s)
  = normalize_letters (re_sub SPACES [SPACE] s).
Proof.
  rewrite !normalize_letters_flat_map.
  destruct (letter_image_keeps SPACE) as [Hk Ho]; [now left|].
  apply (re_sub_flat_map SPACE 1 1 letter_image); auto.
Qed.

Lemma re_sub_newlines_letters (s : str) :
  re_sub NEWLINES3 [NEWLINE; NEWLINE] (normalize_letters s)
  = normalize_letters (re_sub NEWLINES3 [NEWLINE; NEWLINE] s).
Proof.
  rewrite !normalize_letters_flat_map.
  destruct (letter_image_keeps NEWLINE) as [Hk Ho]; [now right|].
  apply (re_sub_flat_map NEWLINE 3 2 letter_image); auto; lia.
Qed.

(** ** Collapsed texts are fixed points of the two [re.sub] calls *)

Lemma collapse_run_fst (r : char * nat) : fst (collapse_run r) = fst r.
Proof.
  destruct r as [c n]. unfold collapse_run.
  destruct (c =? SPACE)%N; [reflexivity|]. now destruct (_ && _).
Qed.

Lemma collapse_run_snd (r : char * nat) :
  (1 <= snd r)%nat -> (1 <= snd (collapse_run r))%nat.
Proof.
  destruct r as [c n]. unfold collapse_run. simpl. intros H.
  destruct (c =? SPACE)%N; [simpl; lia|]. destruct (_ && _); simpl; lia.
Qed.

Lemma collapse_at_space_done (r : char * nat) :
  collapse_at SPACE 1 1 (collapse_run r) = collapse_run r.
Proof.
  destruct r as [c n]. unfold collapse_run.
  destruct (N.eqb_spec c SPACE) as [->|Hs]; [reflexivity|].
  unfold collapse_at. apply N.eqb_neq in Hs.
  destruct (_ && (3 <=? n)%nat); simpl fst; now rewrite Hs.
Qed.

Lemma collapse_at_newline_done (r : char * nat) :
  collapse_at NEWLINE 3 2 (collapse_run r) = collapse_run r.
Proof.
  destruct r as [c n]. unfold collapse_run.
  destruct (N.eqb_spec c SPACE) as [->|Hs]; [reflexivity|].
  destruct (N.eqb_spec c NEWLINE) as [->|Hn].
  - destruct (3 <=? n)%nat eqn:E; cbn [andb]; unfold collapse_at;
      cbn [fst snd].
    + reflexivity.
    + rewrite E. now rewrite andb_false_r.
  - cbn [andb]. unfold collapse_at. cbn [fst].
    apply N.eqb_neq in Hn. now rewrite Hn.
Qed.

Lemma canonical_collapsed (s : str) :
  canonical (map collapse_run (runs s)).
Proof.
  apply canonical_map; auto using collapse_run_fst, collapse_run_snd,
    canonical_runs.
Qed.

Lemma re_sub_spaces_collapsed (s : str) :
  re_sub SPACES [SPACE] (collapse_whitespace_runs s)
  = collapse_whitespace_runs s.
Proof.
  unfold collapse_whitespace_runs, SPACES.
  change [SPACE] with (repeat SPACE 1).
  rewrite re_sub_expand; auto using canonical_collapsed.
  rewrite map_map. f_equal. apply map_ext. apply collapse_at_space_done.
Qed.

Lemma re_sub_newlines_collapsed (s : str) :
  re_sub NEWLINES3 [NEWLINE; NEWLINE] (collapse_whitespace_runs s)
  = collapse_whitespace_runs s.
Proof.
  unfold collapse_whitespace_runs, NEWLINES3.
  change [NEWLINE; NEWLINE] with (repeat NEWLINE 2).
  rewrite re_sub_expand; auto using canonical_collapsed; try lia.
  rewrite map_map. f_equal. apply map_ext. apply collapse_at_newline_done.
Qed.

Lemma forallb_isspace_expand (rs : list (char * nat)) :
  Forall (fun r => (1 <= snd r)%nat) rs ->
  forallb isspace (expand rs) = forallb (fun r => isspace (fst r)) rs.
Proof.
  induction 1 as [|[c n] rs Hn _ IH]; [reflexivity|].
  rewrite expand_cons, forallb_app, IH. cbn [forallb fst]. f_equal.
  simpl in Hn. destruct n as [|n]; [lia|]. clear Hn.
  induction n as [|n IHn]; simpl; [apply andb_true_r|].
  simpl in IHn. rewrite IHn. now destruct (isspace c).
Qed.

Lemma collapse_whitespace_runs_isspace (s : str) :
  forallb isspace (collapse_whitespace_runs s) = forallb isspace s.
Proof.
  unfold collapse_whitespace_runs.
  rewrite forallb_isspace_expand
    by apply canonical_positive, canonical_collapsed.
  rewrite <- (expand_runs s) at 2.
  rewrite forallb_isspace_expand
    by apply canonical_positive, canonical_runs.
  induction (runs s) as [|r rs IH]; [reflexivity|].
  cbn [map forallb]. now rewrite collapse_run_fst, IH.
Qed.

(** ** [fix_arabic_text] *)

Lemma fix_arabic_text_eq (text : str) :
  fix_arabic_text text =
    if forallb isspace text then []
    else normalize_letters (collapse_whitespace_runs text).
Proof.
  unfold fix_arabic_text. rewrite blank_guard.
  destruct (forallb isspace text); [reflexivity|].
  cbv zeta. now rewrite whitespace_subs_collapse_runs.
Qed.

(** C7, as stated, fails on a text made of whitespace: the two spaces are
    not collapsed to one space, the result is the empty string. *)
Lemma fix_arabic_text_whitespace_only :
  fix_arabic_text [SPACE; SPACE] = [] /\
  normalize_letters (collapse_whitespace_runs [SPACE; SPACE]) = [SPACE].
Proof. split; reflexivity. Qed.

(** C7 (amended): [fix_arabic_text] returns the empty string unchanged, is
    defined on every string, maps a text made only of whitespace to the
    empty string, and on every other text collapses each run of spaces to
    one space and each run of three or more newlines to two newlines
    (followed by the letter substitutions). *)
Theorem fix_arabic_text_collapses_runs :
  fix_arabic_text [] = [] /\
  forall text : str,
    fix_arabic_text text =
      if forallb isspace text then []
      else normalize_letters (collapse_whitespace_runs text).
Proof.
  split; [reflexivity|]. intros text.
  unfold fix_arabic_text. rewrite blank_guard.
  destruct (forallb isspace text); [reflexivity|].
  cbv zeta. rewrite whitespace_subs_collapse_runs. reflexivity.
Qed.

(** C8: normalisation is idempotent. *)
Theorem fix_arabic_text_idempotent (x : str) :
  fix_arabic_text (fix_arabic_text x) = fix_arabic_text x.
Proof.
  rewrite (fix_arabic_text_eq x).
  destruct (forallb isspace x) eqn:Hx; [reflexivity|].
  rewrite fix_arabic_text_eq.
  rewrite normalize_letters_isspace, collapse_whitespace_runs_isspace, Hx.
  rewrite <- (whitespace_subs_collapse_runs (normalize_letters _)).
  rewrite re_sub_spaces_letters, re_sub_spaces_collapsed.
  rewrite re_sub_newlines_letters, re_sub_newlines_collapsed.
  apply normalize_letters_idempotent.
Qed.

(** ** [chunk_document] *)

Lemma page_entries_meta (lang : language) (page_num : Z) (page_text : str)
  (page_chunks : list str) (chunk_id : Z) :
  Forall (fun c => m_page (c_metadata c) = (page_num + 1)%Z
                   /\ m_language (c_metadata c) = Some lang)
    (page_entries lang page_num page_text chunk_id page_chunks).
Proof.
  revert chunk_id. induction page_chunks as [|p ps IH]; intros chunk_id.
  - constructor.
  - simpl. constructor; [now split|apply IH].
Qed.

Lemma chunk_pages_language (split : str -> outcome (list str))
  (lang : language) (pages : list str) :
  forall page_num chunk_id chunks,
    chunk_pages split lang page_num chunk_id pages = Return chunks ->
    Forall (fun c => m_language (c_metadata c) = Some lang) chunks.
Proof.
  induction pages as [|p ps IH]; intros page_num chunk_id chunks H.
  - injection H as <-. constructor.
  - simpl in H. destruct (negb (truthy (strip p))); [now apply IH in H|].
    destruct (split p) as [page_chunks|e]; [|discriminate]. simpl in H.
    destruct (chunk_pages split lang (page_num + 1)
                (chunk_id + len page_chunks) ps) as [later|e] eqn:E;
      [|discriminate].
    simpl in H. injection H as <-. apply Forall_app. split.
    + eapply Forall_impl; [|apply page_entries_meta]. now intros c [_ Hc].
    + now apply IH in E.
Qed.

Lemma segment_pages_form_feed (text : str) :
  contains FORM_FEED text = true -> segment_pages text = PageList [text].
Proof. intros H. unfold segment_pages. now rewrite H. Qed.

(** C3, as stated, fails: chunking the scenario text does not give
    exactly one passage with page 1. *)
Lemma chunk_document_scenario_not_single :
  ~ (exists p : chunk,
        chunk_document RecursiveCharacterTextSplitter scenario_text = [p]
        /\ m_page (c_metadata p) = 1%Z).
Proof. intros (p & H & _). vm_compute in H. discriminate. Qed.

(** C3 (amended): the three newlines of the scenario text are a page
    break for [chunk_document], so chunking it gives exactly two passages,
    ["Line one.\n\nLine two."] with page 1 and ["Line three."] with page
    2.  Chunking the normalised text, as the pipeline does, gives exactly
    one passage, with page 1. *)
Theorem chunk_document_scenario :
  re_split PAGE_BREAK false scenario_text
  = [lit "Line one." ++ [NEWLINE; NEWLINE] ++ lit "Line two.";
     lit "Line three."]
  /\ map (fun c => (c_id c, c_text c, m_page (c_metadata c)))
       (chunk_document RecursiveCharacterTextSplitter scenario_text)
     = [(0%Z, lit "Line one." ++ [NEWLINE; NEWLINE] ++ lit "Line two.", 1%Z);
        (1%Z, lit "Line three.", 2%Z)]
  /\ map (fun c => (c_id c, c_text c, m_page (c_metadata c)))
       (chunk_document RecursiveCharacterTextSplitter
          (fix_arabic_text scenario_text))
     = [(0%Z, lit "Line one." ++ [NEWLINE; NEWLINE] ++ lit "Line two."
               ++ [NEWLINE; NEWLINE] ++ lit "Line three.", 1%Z)].
Proof. repeat split; vm_compute; reflexivity. Qed.

(** C4 (the code at the failing inputs): whenever the text contains a
    form feed, the page list is the whole text alone and every passage
    has page 1, whatever the splitter returns. *)
Theorem chunk_document_form_feed_single_page
  (splitter : Z -> Z -> list str -> str -> outcome (list str)) (text : str) :
  contains FORM_FEED text = true ->
  segment_pages text = PageList [text]
  /\ Forall (fun c => m_page (c_metadata c) = 1%Z)
       (chunk_document splitter text).
Proof.
  intros H. split; [now apply segment_pages_form_feed|].
  unfold chunk_document.
  destruct (negb (truthy text) || (len (strip text) =? 0)%Z); [constructor|].
  unfold chunk_document_body. rewrite segment_pages_form_feed by assumption.
  cbn [chunk_pages].
  destruct (negb (truthy (strip text))); [constructor|].
  destruct (text_splitter splitter text text) as [page_chunks|e]; simpl.
  - rewrite app_nil_r. eapply Forall_impl; [|apply page_entries_meta].
    now intros c [Hc _].
  - repeat constructor.
Qed.

Lemma chunk_document_form_feed_witness :
  contains FORM_FEED form_feed_text = true
  /\ segment_pages form_feed_text = PageList [form_feed_text]
  /\ Forall (fun c => m_page (c_metadata c) = 1%Z)
       (chunk_document RecursiveCharacterTextSplitter form_feed_text).
Proof.
  split; [reflexivity|].
  apply (chunk_document_form_feed_single_page
           RecursiveCharacterTextSplitter form_feed_text).
  reflexivity.
Defined.

(** On ["A\fB"] the code emits the single passage ["A\fB"] with page 1;
    the two form-feed parts ["A"] and ["B"] are not separated. *)
Example chunk_document_form_feed_text :
  map (fun c => (c_text c, m_page (c_metadata c)))
    (chunk_document RecursiveCharacterTextSplitter form_feed_text)
  = [(form_feed_text, 1%Z)].
Proof. vm_compute. reflexivity. Qed.

(** C9, as stated, fails twice: the fallback passage carries no language
    tag, and on a text of 500 Latin letters followed by 1000 Arabic
    letters every passage is tagged english while [detect_language]
    answers arabic. *)
Lemma chunk_document_language_counterexample :
  (chunk_document raising_splitter (lit "abc") = [fallback_chunk (lit "abc")]
   /\ m_language (c_metadata (fallback_chunk (lit "abc"))) = None)
  /\ (chunk_document RecursiveCharacterTextSplitter mixed_text <> []
      /\ forallb (fun c => match m_language (c_metadata c) with
                           | Some english => true
                           | _ => false
                           end)
           (chunk_document RecursiveCharacterTextSplitter mixed_text) = true
      /\ detect_language detect_en mixed_text = arabic).
Proof.
  split; [split; reflexivity|].
  split; [|split]; vm_compute; [discriminate|reflexivity|reflexivity].
Qed.

(** C9 (amended): every passage emitted by [chunk_document] other than
    the fallback passage is tagged with one document-level language,
    arabic exactly when one of the first 500 characters of the text lies
    in U+0600..U+06FF, and the same test selects the separator set of the
    splitter.  The tag is computed by [chunk_document] itself, not by
    [detect_language]. *)
Theorem chunk_document_language_tag
  (splitter : Z -> Z -> list str -> str -> outcome (list str)) (text : str) :
  Forall (fun c => c = fallback_chunk text
                   \/ m_language (c_metadata c) = Some (language_tag text))
    (chunk_document splitter text)
  /\ language_tag text
     = (if existsb is_arabic_char (firstn 500 text) then arabic else english)
  /\ text_splitter splitter text
     = splitter 500%Z 100%Z
         (match language_tag text with
          | arabic => ARABIC_SEPARATORS
          | _ => LATIN_SEPARATORS
          end).
Proof.
  split; [|split].
  - unfold chunk_document.
    destruct (negb (truthy text) || (len (strip text) =? 0)%Z); [constructor|].
    destruct (chunk_document_body splitter text) as [chunks|e] eqn:E.
    + unfold chunk_document_body in E.
      destruct (segment_pages text) as [pages|parts]; [|discriminate].
      apply chunk_pages_language in E.
      eapply Forall_impl; [|exact E]. intros c Hc. now right.
    + constructor; [now left|constructor].
  - reflexivity.
  - unfold text_splitter, language_tag. now destruct (is_arabic text).
Qed.

(** ** The vector store *)

Section VectorStoreProperties.

Variable float : Type.
Variable float_leb : float -> float -> bool.
Variable fvec_L2sqr : list float -> list float -> float.
Variable FLT_MAX : float.
Variable np_empty : Z -> outcome unit.
Variable encode : list str -> outcome (list (list float)).

Local Abbreviation le_score := (fun a b : float => float_leb a b = true).
Local Abbreviation store := (VectorStore float).

(** *** The result loop *)

Lemma collect_results_spec (stored : list chunk) (hits : list (Z * float)) :
  exists results,
    collect_results stored hits = Return results
    /\ Forall2 (result_of_hit stored) results
         (filter (in_range stored) hits).
Proof.
  induction hits as [|[idx distance] hits (results & E & H)].
  - exists []. split; [reflexivity|constructor].
  - cbn [collect_results filter]. unfold in_range at 1. cbn [fst].
    destruct (Z.eqb_spec idx (-1)) as [->|Hm].
    + simpl andb. cbv iota. exists results. now split.
    + destruct ((0 <=? idx) && (idx <? len stored))%Z eqn:R.
      * apply andb_true_iff in R as [R1 R2].
        apply Z.leb_le in R1. apply Z.ltb_lt in R2. unfold len in R2.
        destruct (nth_error stored (Z.to_nat idx)) as [c|] eqn:N.
        -- rewrite E. simpl. eexists. split; [reflexivity|].
           constructor; [|exact H]. exists c. simpl. auto.
        -- apply nth_error_None in N. lia.
      * exists results. now split.
Qed.

Lemma result_of_hit_refers (stored : list chunk) (r : search_result float)
  (h : Z * float) :
  in_range stored h = true -> result_of_hit stored r h -> refers_to stored r.
Proof.
  intros R (c & N & Ht & Hm & _). exists (fst h), c.
  apply andb_true_iff in R as [R1 R2].
  apply Z.leb_le in R1. apply Z.ltb_lt in R2. auto.
Qed.

Lemma results_refer (stored : list chunk) (results : list (search_result float))
  (hits : list (Z * float)) :
  Forall2 (result_of_hit stored) results (filter (in_range stored) hits) ->
  Forall (refers_to stored) results.
Proof.
  intros H.
  assert (Hin : Forall (fun h => in_range stored h = true)
                  (filter (in_range stored) hits)).
  { apply Forall_forall. intros h Hh. now apply filter_In in Hh. }
  induction H as [|r h rs hs Hr _ IH]; constructor.
  - inversion Hin; subst. eapply result_of_hit_refers; eauto.
  - apply IH. now inversion Hin.
Qed.

Lemma results_scores (stored : list chunk) (results : list (search_result float))
  (hits : list (Z * float)) :
  Forall2 (result_of_hit stored) results hits ->
  map (@r_score float) results = map snd hits.
Proof.
  induction 1 as [|r h rs hs (c & _ & _ & _ & Hs) _ IH]; [reflexivity|].
  simpl. now rewrite Hs, IH.
Qed.

(** *** [search] *)

Lemma search_body_refers (ix : IndexFlatL2 float) (stored : list chunk)
  (query : str) (k : Z) (results : list (search_result float))
  (log : list (log_record float)) :
  search_body float_leb fvec_L2sqr FLT_MAX np_empty encode ix stored query k
  = (Return results, log) ->
  Forall (refers_to stored) results.
Proof.
  unfold search_body. intros H.
  destruct (encode [query]) as [[|q rest]|e]; try discriminate.
  destruct (IndexFlatL2_search _ _ _ _ ix q k) as [hits|e]; [|discriminate].
  destruct (collect_results_spec stored hits) as (rs & E & F).
  rewrite E in H. injection H as <- _. eapply results_refer; eauto.
Qed.

Lemma search_returns (self : store) (query : str) (k : Z) :
  exists results,
    fst (search float_leb fvec_L2sqr FLT_MAX np_empty encode self query k)
    = Return results
    /\ Forall (refers_to (chunks self)) results.
Proof.
  unfold search. destruct (index self) as [ix|].
  - destruct (negb (truthy (chunks self))).
    + exists []. split; [reflexivity|constructor].
    + destruct (search_body _ _ _ _ _ ix (chunks self) query k)
        as [[results|e] log] eqn:E.
      * exists results. split; [reflexivity|].
        eapply search_body_refers; eauto.
      * exists []. split; [reflexivity|constructor].
  - exists []. split; [reflexivity|constructor].
Qed.

(** C10: every result of [search] references a stored chunk at an index
    within the chunk list, for any index and any chunk list (also when
    they disagree in size); the result loop never raises and keeps
    exactly the hits whose label is in range. *)
Theorem search_results_in_bounds (self : store) (query : str) (k : Z) :
  (exists results,
      fst (search float_leb fvec_L2sqr FLT_MAX np_empty encode self query k)
      = Return results
      /\ Forall (refers_to (chunks self)) results)
  /\ (forall (stored : list chunk) (hits : list (Z * float)),
         exists results,
           collect_results stored hits = Return results
           /\ Forall (refers_to stored) results
           /\ Forall2 (result_of_hit stored) results
                (filter (in_range stored) hits)).
Proof.
  split; [apply search_returns|].
  intros stored hits.
  destruct (collect_results_spec stored hits) as (rs & E & F).
  exists rs. repeat split; auto. eapply results_refer; eauto.
Qed.

(** C6: [search] never raises.  It returns the empty list with a warning
    when there is no index or no chunk, and the empty list with an error
    record when the query embedding or the index search raises, as for
    any other exception of the [try] block. *)
Theorem search_never_raises (self : store) (query : str) (k : Z) :
  (exists results,
      fst (search float_leb fvec_L2sqr FLT_MAX np_empty encode self query k)
      = Return results)
  /\ (index self = None ->
      search float_leb fvec_L2sqr FLT_MAX np_empty encode self query k
      = (Return [], [warning_no_index float]))
  /\ (chunks self = [] ->
      exists w,
        search float_leb fvec_L2sqr FLT_MAX np_empty encode self query k
        = (Return [], [w])
        /\ (w = warning_no_index float \/ w = warning_no_chunks float))
  /\ (forall ix e,
         index self = Some ix -> chunks self <> [] ->
         encode [query] = Raise e
         \/ (exists q rest, encode [query] = Return (q :: rest)
                            /\ IndexFlatL2_search float_leb fvec_L2sqr
                                 FLT_MAX np_empty ix q k = Raise e) ->
         search float_leb fvec_L2sqr FLT_MAX np_empty encode self query k
         = (Return [], [error_during_search float e]))
  /\ (forall ix e log,
         index self = Some ix -> chunks self <> [] ->
         search_body float_leb fvec_L2sqr FLT_MAX np_empty encode ix
           (chunks self) query k = (Raise e, log) ->
         search float_leb fvec_L2sqr FLT_MAX np_empty encode self query k
         = (Return [], log ++ [error_during_search float e])).
Proof.
  split; [|split; [|split; [|split]]].
  - destruct (search_returns self query k) as (rs & E & _). now exists rs.
  - intros H. unfold search. now rewrite H.
  - intros H. unfold search. rewrite H.
    destruct (index self); simpl; eexists; (split; [reflexivity|]); auto.
  - intros ix e Hi Hc H. unfold search. rewrite Hi.
    destruct (chunks self) as [|c cs]; [congruence|]. simpl negb. cbv iota.
    unfold search_body.
    destruct H as [H|(q & rest & H & Hs)]; rewrite H; [reflexivity|].
    now rewrite Hs.
  - intros ix e log Hi Hc H. unfold search. rewrite Hi.
    destruct (chunks self) as [|c cs]; [congruence|]. simpl negb. cbv iota.
    now rewrite H.
Qed.

End VectorStoreProperties.

(** ** Ranking of the stored vectors *)

Section Ranking.

Variable float : Type.
Variable float_leb : float -> float -> bool.

Local Abbreviation le_score := (fun a b : float => float_leb a b = true).

Lemma insert_hit_length (h : Z * float) (l : list (Z * float)) :
  length (insert_hit float_leb h l) = S (length l).
Proof.
  induction l as [|h' l IH]; simpl; [reflexivity|].
  destruct (float_leb (snd h) (snd h')); simpl; [reflexivity|].
  now rewrite IH.
Qed.

Lemma insert_hit_Forall (P : Z * float -> Prop) (h : Z * float)
  (l : list (Z * float)) :
  P h -> Forall P l -> Forall P (insert_hit float_leb h l).
Proof.
  intros Hh. induction 1 as [|h' l Hh' Hl IH]; simpl.
  - now repeat constructor.
  - destruct (float_leb (snd h) (snd h')); repeat constructor; auto.
Qed.

Lemma sort_hits_length (l : list (Z * float)) :
  length (fold_right (insert_hit float_leb) [] l) = length l.
Proof.
  induction l as [|h l IH]; simpl; [reflexivity|].
  now rewrite insert_hit_length, IH.
Qed.

Lemma sort_hits_Forall (P : Z * float -> Prop) (l : list (Z * float)) :
  Forall P l -> Forall P (fold_right (insert_hit float_leb) [] l).
Proof.
  induction 1; simpl; [constructor|]. now apply insert_hit_Forall.
Qed.

Hypothesis float_leb_total :
  forall a b, float_leb a b = true \/ float_leb b a = true.

Lemma insert_hit_HdRel (a : float) (h : Z * float) (l : list (Z * float)) :
  le_score a (snd h) -> HdRel le_score a (map snd l) ->
  HdRel le_score a (map snd (insert_hit float_leb h l)).
Proof.
  intros Ha Hl. destruct l as [|h' l]; simpl.
  - now constructor.
  - destruct (float_leb (snd h) (snd h')); simpl; constructor; auto.
    now inversion Hl.
Qed.

Lemma insert_hit_Sorted (h : Z * float) (l : list (Z * float)) :
  Sorted le_score (map snd l) ->
  Sorted le_score (map snd (insert_hit float_leb h l)).
Proof.
  induction l as [|h' l IH]; simpl; intros H.
  - repeat constructor.
  - destruct (float_leb (snd h) (snd h')) eqn:E; simpl.
    + constructor; [exact H|]. now constructor.
    + inversion H as [|? ? Hs Hd]; subst. constructor; [now apply IH|].
      apply insert_hit_HdRel; [|exact Hd].
      destruct (float_leb_total (snd h) (snd h')); congruence.
Qed.

Lemma sort_hits_Sorted (l : list (Z * float)) :
  Sorted le_score (map snd (fold_right (insert_hit float_leb) [] l)).
Proof.
  induction l as [|h l IH]; simpl; [constructor|].
  now apply insert_hit_Sorted.
Qed.

End Ranking.

Lemma Sorted_firstn {A} (R : A -> A -> Prop) (k : nat) (l : list A) :
  Sorted R l -> Sorted R (firstn k l).
Proof.
  revert k. induction l as [|a l IH]; intros [|k] H; simpl; try constructor.
  - apply IH. now inversion H.
  - inversion H as [|? ? _ Hd]; subst.
    destruct l as [|b l]; destruct k; simpl; constructor.
    now inversion Hd.
Qed.

Lemma firstn_In {A} (k : nat) (l : list A) (a : A) :
  In a (firstn k l) -> In a l.
Proof.
  intros H. rewrite <- (firstn_skipn k l). apply in_or_app. now left.
Qed.

Lemma filter_all {A} (f : A -> bool) (l : list A) :
  Forall (fun x => f x = true) l -> filter f l = l.
Proof.
  induction 1 as [|a l Ha _ IH]; simpl; [reflexivity|]. now rewrite Ha, IH.
Qed.

Lemma filter_repeat_none {A} (f : A -> bool) (a : A) (n : nat) :
  f a = false -> filter f (repeat a n) = [].
Proof. intros H. induction n; simpl; [reflexivity|]. now rewrite H. Qed.

Section BuildThenSearch.

Variable float : Type.
Variable float_leb : float -> float -> bool.
Variable fvec_L2sqr : list float -> list float -> float.
Variable FLT_MAX : float.
Variable np_empty : Z -> outcome unit.
Variable encode : list str -> outcome (list (list float)).

Local Abbreviation le_score := (fun a b : float => float_leb a b = true).
Local Abbreviation store := (VectorStore float).

Lemma ranked_length (ix : IndexFlatL2 float) (q : list float) :
  length (ranked float_leb fvec_L2sqr ix q) = length (xb ix).
Proof.
  unfold ranked. rewrite sort_hits_length, length_combine, !length_map.
  rewrite length_seq. apply Nat.min_id.
Qed.

Lemma ranked_labels (ix : IndexFlatL2 float) (q : list float) :
  Forall (fun h => (0 <= fst h < len (xb ix))%Z)
    (ranked float_leb fvec_L2sqr ix q).
Proof.
  unfold ranked. apply sort_hits_Forall, Forall_forall.
  intros [i dist] Hin. apply in_combine_l in Hin.
  apply in_map_iff in Hin as (n & <- & Hn). apply in_seq in Hn.
  simpl. unfold len. lia.
Qed.

(** The hits that survive the result loop when the chunk list is as
    long as the index: the [k] nearest, without the padding. *)
Lemma filter_search_hits (ix : IndexFlatL2 float) (stored : list chunk)
  (q : list float) (k n : nat) :
  length stored = length (xb ix) ->
  filter (in_range stored)
    (firstn k (ranked float_leb fvec_L2sqr ix q)
       ++ repeat ((-1)%Z, FLT_MAX) n)
  = firstn k (ranked float_leb fvec_L2sqr ix q).
Proof.
  intros Hlen. rewrite filter_app, filter_repeat_none by reflexivity.
  rewrite app_nil_r. apply filter_all.
  apply Forall_forall. intros h Hh. apply firstn_In in Hh.
  pose proof (ranked_labels ix q) as F. rewrite Forall_forall in F.
  specialize (F h Hh). unfold in_range, len in *. rewrite Hlen.
  apply andb_true_iff. split; [apply Z.leb_le|apply Z.ltb_lt]; lia.
Qed.

(** *** [add_document] *)

Lemma add_document_empty (self : store) :
  add_document encode self []
  = (Return 0%Z, set_chunks self [],
     [info_adding float 0; warning_no_texts float]).
Proof. reflexivity. Qed.

Lemma add_document_embedding_raises (self : store) (passages : list chunk)
  (e : exn) :
  passages <> [] -> encode (map c_text passages) = Raise e ->
  add_document encode self passages
  = (Raise e, set_chunks self passages,
     [info_adding float (len passages); error_creating float e]).
Proof.
  intros Hne He. unfold add_document. rewrite He.
  destruct passages; [congruence|]. reflexivity.
Qed.

(** The embedding model returns one row per text, all of the width of
    the model. *)
Variable model_dim : nat.
Hypothesis encode_shape :
  forall texts rows,
    encode texts = Return rows ->
    length rows = length texts
    /\ Forall (fun row => length row = model_dim) rows.

Lemma add_document_embedded (self : store) (passages : list chunk)
  (rows : list (list float)) :
  passages <> [] -> encode (map c_text passages) = Return rows ->
  add_document encode self passages
  = (Return (len passages),
     {| index := Some {| d := Z.of_nat model_dim; xb := rows |};
        chunks := passages;
        dimension := Z.of_nat model_dim |},
     [info_adding float (len passages);
      info_index_created float (Z.of_nat model_dim)])
  /\ length rows = length passages.
Proof.
  intros Hne He. destruct (encode_shape _ _ He) as [Hlen Hrows].
  rewrite length_map in Hlen. split; [|exact Hlen].
  unfold add_document. rewrite He.
  destruct passages as [|p ps]; [congruence|].
  destruct rows as [|row rows]; [discriminate|].
  cbn [map truthy negb shape1].
  assert (Hd : len row = Z.of_nat model_dim).
  { apply Forall_inv in Hrows. unfold len. now rewrite Hrows. }
  rewrite Hd. unfold IndexFlatL2_add, IndexFlatL2_new. cbn [d xb app].
  assert (Hall : forallb (fun r0 => (len r0 =? Z.of_nat model_dim)%Z)
                   (row :: rows) = true).
  { apply forallb_forall. intros r0 Hr0. rewrite Forall_forall in Hrows.
    unfold len. rewrite (Hrows r0 Hr0). apply Z.eqb_refl. }
  rewrite Hall. reflexivity.
Qed.

End BuildThenSearch.

Section Builds.

Variable float : Type.
Variable float_leb : float -> float -> bool.
Variable fvec_L2sqr : list float -> list float -> float.
Variable FLT_MAX : float.
Variable np_empty : Z -> outcome unit.
Variable encode : list str -> outcome (list (list float)).

Local Abbreviation le_score := (fun a b : float => float_leb a b = true).
Local Abbreviation store := (VectorStore float).

(** C2 (amended): [add_document] with an empty list returns 0, leaves
    the previous index object and dimension untouched, replaces the
    stored chunk list by the empty list, and every later [search]
    returns the empty list. *)
Theorem add_document_empty_list (self : store) :
  let r := add_document encode self [] in
  fst (fst r) = Return 0%Z
  /\ index (snd (fst r)) = index self
  /\ dimension (snd (fst r)) = dimension self
  /\ chunks (snd (fst r)) = []
  /\ forall query k,
       fst (search float_leb fvec_L2sqr FLT_MAX np_empty encode (snd (fst r))
              query k)
       = Return [].
Proof.
  cbv zeta. rewrite add_document_empty. repeat split.
  intros query k. unfold search. simpl. now destruct (index self).
Qed.

Variable model_dim : nat.
Hypothesis encode_shape :
  forall texts rows,
    encode texts = Return rows ->
    length rows = length texts
    /\ Forall (fun row => length row = model_dim) rows.

(** C1 (amended): a call of [add_document] has one of three outcomes.
    With an empty list it returns 0 and only the chunk list changes.
    When the embedding call succeeds, all passages are embedded and
    indexed: the store holds the passages and a fresh index with one
    row per passage.  When the embedding call raises, the exception is
    propagated and the store holds the new passage list together with
    the previous index, which is left as it was. *)
Theorem add_document_outcomes (self : store) (passages : list chunk) :
  let r := add_document encode self passages in
  (passages = []
   /\ fst (fst r) = Return 0%Z
   /\ snd (fst r) = set_chunks self [])
  \/ (exists rows,
         encode (map c_text passages) = Return rows
         /\ fst (fst r) = Return (len passages)
         /\ chunks (snd (fst r)) = passages
         /\ index (snd (fst r))
            = Some {| d := Z.of_nat model_dim; xb := rows |}
         /\ length rows = length passages)
  \/ (exists e,
         encode (map c_text passages) = Raise e
         /\ fst (fst r) = Raise e
         /\ chunks (snd (fst r)) = passages
         /\ index (snd (fst r)) = index self
         /\ dimension (snd (fst r)) = dimension self).
Proof.
  cbv zeta. destruct passages as [|p ps] eqn:Ep.
  - left. now rewrite add_document_empty.
  - rewrite <- Ep. assert (Hne : passages <> []) by (subst; discriminate).
    right. destruct (encode (map c_text passages)) as [rows|e] eqn:He.
    + left. exists rows.
      destruct (add_document_embedded float encode model_dim encode_shape
                  self passages rows Hne He) as [-> Hlen].
      now repeat split.
    + right. exists e.
      rewrite (add_document_embedding_raises float encode self passages e)
        by assumption.
      now repeat split.
Qed.

Hypothesis float_leb_total :
  forall a b, float_leb a b = true \/ float_leb b a = true.

(** C5 (amended): after a successful build over [m] passages, a search
    with [k >= 1] whose query embedding succeeds, and for which the
    index can allocate its result rows of [k] entries, returns exactly
    [min k m] results, with non-decreasing scores, each referencing one
    of the passages; the [-1] entries of the index never surface. *)
Theorem search_after_build (self self' : store) (passages : list chunk)
  (m : Z) (log : list (log_record float)) (query : str) (k : Z)
  (E : list (list float)) :
  add_document encode self passages = (Return m, self', log) ->
  (1 <= k)%Z ->
  encode [query] = Return E ->
  np_empty k = Return tt ->
  exists results,
    fst (search float_leb fvec_L2sqr FLT_MAX np_empty encode self' query k)
    = Return results
    /\ len results = Z.min k m
    /\ Sorted le_score (map (@r_score float) results)
    /\ Forall (refers_to passages) results.
Proof.
  intros Hadd Hk HE Halloc. destruct passages as [|p ps].
  - rewrite add_document_empty in Hadd. injection Hadd as <- <- _.
    exists []. repeat split; try constructor.
    + unfold search. simpl. now destruct (index self).
    + unfold len. simpl. lia.
  - remember (p :: ps) as passages eqn:Ep.
    assert (Hne : passages <> []) by (subst; discriminate).
    assert (Ht : truthy passages = true) by (subst; reflexivity).
    destruct (encode (map c_text passages)) as [rows|e] eqn:He.
    2:{ rewrite (add_document_embedding_raises float encode self passages e)
          in Hadd by assumption. discriminate. }
    destruct (add_document_embedded float encode model_dim encode_shape
                self passages rows Hne He) as [Hadd' Hlen].
    rewrite Hadd' in Hadd. injection Hadd as <- <- _. clear Hadd'.
    destruct (encode_shape _ _ HE) as [HlenE HrowsE].
    destruct E as [|q [|q' E]]; try discriminate. clear HlenE.
    apply Forall_inv in HrowsE.
    set (ix := {| d := Z.of_nat model_dim; xb := rows |}).
    unfold search. cbn [index chunks]. rewrite Ht. cbn [negb].
    unfold search_body. rewrite HE.
    unfold IndexFlatL2_search. cbn [d]. unfold len at 1. rewrite HrowsE.
    rewrite Z.eqb_refl. cbn [negb].
    destruct (Z.ltb_spec 0 k) as [_|]; [|lia]. cbn [negb].
    rewrite Halloc. cbn [bind].
    set (hits := firstn (Z.to_nat k) (ranked float_leb fvec_L2sqr ix q)).
    destruct (collect_results_spec float passages
                (hits ++ repeat ((-1)%Z, FLT_MAX) (Z.to_nat k - length hits)))
      as (results & Ec & F).
    rewrite Ec. exists results. split; [reflexivity|].
    pose proof (results_refer float passages results _ F) as Hrefs.
    unfold hits in F.
    rewrite (filter_search_hits float float_leb fvec_L2sqr FLT_MAX ix)
      in F by (symmetry; exact Hlen).
    fold hits in F. repeat split.
    + apply Forall2_length in F. unfold len. rewrite F. unfold hits.
      rewrite length_firstn, ranked_length. unfold ix. cbn [xb].
      rewrite Hlen. lia.
    + rewrite (results_scores float passages results hits F).
      unfold hits. rewrite <- firstn_map. apply Sorted_firstn.
      apply sort_hits_Sorted, float_leb_total.
    + exact Hrefs.
Qed.

End Builds.

(** ** The vector store on concrete inputs *)

Lemma demo_encode_shape (texts : list str) (rows : list (list Z)) :
  demo_encode texts = Return rows ->
  length rows = length texts /\ Forall (fun row => length row = 2%nat) rows.
Proof.
  unfold demo_encode.
  destruct (existsb (fun t => (64 <? len t)%Z) texts); [discriminate|].
  intros H. injection H as <-. split; [apply length_map|].
  apply Forall_forall. intros row Hin.
  now apply in_map_iff in Hin as (t & <- & _).
Qed.

Lemma Zleb_total (a b : Z) : (a <=? b)%Z = true \/ (b <=? a)%Z = true.
Proof.
  destruct (Z.leb_spec a b); [now left|]. right. apply Z.leb_le. lia.
Qed.

(** C1, as stated, fails: after a first build over two passages, a
    rebuild whose embedding call raises propagates the exception and
    leaves the store with the new passage list and the old index.  The
    store is neither the previous build nor unsearchable: a search
    answers with the new passage, scored by an old vector. *)
Lemma add_document_failed_rebuild :
  let r := demo_add_document built_store [oversized] in
  fst (fst r) = Raise RuntimeError
  /\ chunks (snd (fst r)) = [oversized]
  /\ chunks built_store = [cats; dogs]
  /\ index (snd (fst r)) = index built_store
  /\ index built_store = Some {| d := 2; xb := [[16; 2]; [4; 0]]%Z |}
  /\ fst (demo_search (snd (fst r)) (lit "what is") 3)
     = Return [{| r_chunk := c_text oversized;
                  r_metadata := c_metadata oversized;
                  r_score := 82%Z |}].
Proof. cbv zeta. repeat split; vm_compute; reflexivity. Qed.

Lemma add_document_outcomes_witness :
  let r := demo_add_document built_store [oversized] in
  ([oversized] = []
   /\ fst (fst r) = Return 0%Z
   /\ snd (fst r) = set_chunks built_store [])
  \/ (exists rows,
         demo_encode (map c_text [oversized]) = Return rows
         /\ fst (fst r) = Return (len [oversized])
         /\ chunks (snd (fst r)) = [oversized]
         /\ index (snd (fst r)) = Some {| d := Z.of_nat 2; xb := rows |}
         /\ length rows = length [oversized])
  \/ (exists e,
         demo_encode (map c_text [oversized]) = Raise e
         /\ fst (fst r) = Raise e
         /\ chunks (snd (fst r)) = [oversized]
         /\ index (snd (fst r)) = index built_store
         /\ dimension (snd (fst r)) = dimension built_store).
Proof.
  exact (add_document_outcomes Z demo_encode 2 demo_encode_shape
           built_store [oversized]).
Defined.

(** C2, as stated, fails: an empty [add_document] on a built store
    returns 0 but empties the stored chunk list, and the index stays in
    place instead of being reset to the no-index state. *)
Lemma add_document_empty_clears_chunks :
  let r := demo_add_document built_store [] in
  fst (fst r) = Return 0%Z
  /\ chunks built_store = [cats; dogs]
  /\ chunks (snd (fst r)) = []
  /\ index (snd (fst r)) = Some {| d := 2; xb := [[16; 2]; [4; 0]]%Z |}.
Proof. cbv zeta. repeat split; vm_compute; reflexivity. Qed.

(** C5, as stated, fails: on the store built over two passages, with
    a query whose embedding succeeds, a search with [k = 2^63 - 1] does
    not return [min k 2 = 2] results.  The index cannot allocate rows of
    that many entries, the exception is caught, and the search returns
    the empty list with an error record. *)
Lemma search_unallocatable_k :
  demo_add_document VectorStore_init [cats; dogs]
  = (Return 2%Z, built_store, [info_adding Z 2; info_index_created Z 2])
  /\ (1 <= 2 ^ 63 - 1)%Z
  /\ demo_encode [lit "what is"] = Return [[7; 1]%Z]
  /\ Z.min (2 ^ 63 - 1) 2 = 2%Z
  /\ demo_np_empty (2 ^ 63 - 1) = Raise ValueError
  /\ fst (demo_search built_store (lit "what is") (2 ^ 63 - 1)) = Return []
  /\ snd (demo_search built_store (lit "what is") (2 ^ 63 - 1))
     = [error_during_search Z ValueError].
Proof. repeat split; vm_compute; try reflexivity. discriminate. Qed.

Lemma search_after_build_witness :
  demo_add_document VectorStore_init [cats; dogs]
  = (Return 2%Z, built_store, [info_adding Z 2; info_index_created Z 2])
  /\ (1 <= 3)%Z
  /\ demo_encode [lit "what is"] = Return [[7; 1]%Z]
  /\ demo_np_empty 3 = Return tt
  /\ exists results,
       fst (demo_search built_store (lit "what is") 3) = Return results
       /\ len results = Z.min 3 2
       /\ Sorted (fun a b => (a <=? b)%Z = true) (map (@r_score Z) results)
       /\ Forall (refers_to [cats; dogs]) results.
Proof.
  assert (Hadd : demo_add_document VectorStore_init [cats; dogs]
                 = (Return 2%Z, built_store,
                    [info_adding Z 2; info_index_created Z 2]))
    by reflexivity.
  assert (Hk : (1 <= 3)%Z) by lia.
  assert (HE : demo_encode [lit "what is"] = Return [[7; 1]%Z])
    by reflexivity.
  assert (Halloc : demo_np_empty 3 = Return tt) by reflexivity.
  repeat split; try assumption.
  exact (search_after_build Z Z.leb demo_L2sqr demo_FLT_MAX demo_np_empty
           demo_encode 2 demo_encode_shape Zleb_total VectorStore_init
           built_store [cats; dogs] 2 _ (lit "what is") 3 _ Hadd Hk HE
           Halloc).
Defined.

Lemma search_never_raises_witness :
  index (@VectorStore_init Z) = None
  /\ demo_search VectorStore_init (lit "what is") 3
     = (Return [], [warning_no_index Z]).
Proof.
  split; [reflexivity|].
  apply (proj1 (proj2 (search_never_raises Z Z.leb demo_L2sqr demo_FLT_MAX
                         demo_np_empty demo_encode VectorStore_init
                         (lit "what is") 3))).
  reflexivity.
Defined.

(** A search on the store left by the failed rebuild: the index answers
    with the labels 1 and 0 of the old build, the list has one chunk, and
    only the label in range gives a result. *)
Example search_drops_out_of_range :
  collect_results [oversized] [(1, 10); (0, 82); (-1, demo_FLT_MAX)]%Z
  = Return [{| r_chunk := c_text oversized;
               r_metadata := c_metadata oversized;
               r_score := 82%Z |}].
Proof. reflexivity. Qed.

(* ================================================================== *)
(** * Part III: further properties of the code *)
(* ================================================================== *)

(** ** The normal form produced by [fix_arabic_text] *)

Lemma run_len_le_max_run (c : char) (s : str) :
  (run_len c s <= max_run c s)%nat.
Proof. destruct s; simpl; lia. Qed.

Lemma max_run_free_app (c : char) (w t : str) :
  ~ In c w -> max_run c (w ++ t) = max_run c t.
Proof.
  induction w as [|x w IH]; intros Hw; [reflexivity|].
  cbn [app max_run]. rewrite IH by (intros H; apply Hw; now right).
  rewrite run_len_other; [reflexivity|].
  intros ->. apply Hw. now left.
Qed.

Lemma max_run_repeat (c : char) (n : nat) (t : str) :
  run_len c t = O ->
  max_run c (repeat c n ++ t) = Nat.max n (max_run c t).
Proof.
  intros Ht. induction n as [|n IH]; [reflexivity|].
  change (repeat c (S n) ++ t) with (c :: (repeat c n ++ t)).
  cbn [max_run]. rewrite IH.
  change (c :: (repeat c n ++ t)) with (repeat c (S n) ++ t).
  rewrite run_len_repeat by assumption. lia.
Qed.

Lemma max_run_occurs (c : char) (n : nat) (s : str) :
  occurs (repeat c n) s -> (n <= max_run c s)%nat.
Proof.
  intros (l & r & ->). induction l as [|x l IH].
  - simpl app. destruct n as [|n]; [lia|].
    etransitivity; [|apply run_len_le_max_run].
    clear. induction n as [|n IH]; simpl; rewrite N.eqb_refl; [lia|].
    simpl in IH. rewrite N.eqb_refl in IH. lia.
  - cbn [app max_run]. lia.
Qed.

Lemma occurs_run_len (c : char) (n : nat) (s : str) :
  (n <= run_len c s)%nat -> exists r, s = repeat c n ++ r.
Proof.
  revert s. induction n as [|n IH]; intros s H; [now exists s|].
  destruct s as [|x s]; [simpl in H; lia|]. simpl in H.
  destruct (N.eqb_spec x c) as [->|]; [|lia].
  destruct (IH s) as (r & ->); [lia|]. now exists r.
Qed.

Lemma occurs_max_run (c : char) (n : nat) (s : str) :
  (1 <= n <= max_run c s)%nat -> occurs (repeat c n) s.
Proof.
  induction s as [|x s IH]; simpl; intros H; [lia|].
  destruct (Nat.le_gt_cases n (run_len c (x :: s))) as [Hr|Hr].
  - destruct (occurs_run_len c n (x :: s) Hr) as (r & E).
    exists [], r. exact E.
  - simpl in Hr. destruct IH as (l & r & ->); [lia|].
    exists (x :: l), r. reflexivity.
Qed.

Section RunsUnderSubstitution.

Variables (c : char) (g : char -> str).
Hypothesis g_keeps : g c = [c].
Hypothesis g_others : forall x, x <> c -> g x <> [] /\ ~ In c (g x).

Lemma max_run_flat_map_runs (rs : list (char * nat)) :
  canonical rs ->
  max_run c (flat_map g (expand rs)) = max_run c (expand rs).
Proof.
  induction rs as [|[x n] rs IH]; intros H; [reflexivity|].
  destruct H as (Hn & Hrun & Hrs). specialize (IH Hrs).
  rewrite expand_cons, flat_map_app.
  destruct (N.eqb_spec x c) as [->|Hne].
  - rewrite (flat_map_repeat_kept c g g_keeps).
    rewrite !max_run_repeat; auto using run_len_flat_map.
  - assert (Hfree : ~ In c (repeat x n)).
    { intros Hin. apply repeat_spec in Hin. congruence. }
    rewrite !max_run_free_app; auto using flat_map_free.
Qed.

End RunsUnderSubstitution.

Lemma max_run_expand (c : char) (b : nat) (rs : list (char * nat)) :
  canonical rs ->
  Forall (fun r => fst r = c -> (snd r <= b)%nat) rs ->
  (max_run c (expand rs) <= b)%nat.
Proof.
  induction rs as [|[x n] rs IH]; intros H F; [simpl; lia|].
  destruct H as (Hn & Hrun & Hrs).
  inversion F as [|? ? Hx Hrest]; subst. specialize (IH Hrs Hrest).
  rewrite expand_cons. destruct (N.eqb_spec x c) as [->|Hne].
  - rewrite max_run_repeat by assumption. simpl in Hx.
    specialize (Hx eq_refl). lia.
  - rewrite max_run_free_app; [exact IH|].
    intros Hin. apply repeat_spec in Hin. congruence.
Qed.

Lemma expand_max_run (c : char) (rs : list (char * nat)) :
  canonical rs ->
  Forall (fun r => fst r = c -> (snd r <= max_run c (expand rs))%nat) rs.
Proof.
  induction rs as [|[x n] rs IH]; intros H; constructor.
  - destruct H as (Hn & Hrun & Hrs). cbn [fst snd]. intros ->.
    rewrite expand_cons, max_run_repeat by assumption. lia.
  - destruct H as (Hn & Hrun & Hrs).
    eapply Forall_impl; [|apply IH, Hrs]. intros r Hr E.
    specialize (Hr E). rewrite expand_cons.
    destruct (N.eqb_spec x c) as [->|Hne].
    + rewrite max_run_repeat by assumption. lia.
    + rewrite max_run_free_app; [exact Hr|].
      intros Hin. apply repeat_spec in Hin. congruence.
Qed.

Lemma collapsed_runs_bounds (s : str) :
  Forall (fun r => fst r = SPACE -> (snd r <= 1)%nat)
    (map collapse_run (runs s))
  /\ Forall (fun r => fst r = NEWLINE -> (snd r <= 2)%nat)
       (map collapse_run (runs s)).
Proof.
  split; apply Forall_forall; intros r Hr;
    apply in_map_iff in Hr as ([x n] & <- & _); intros E;
    rewrite collapse_run_fst in E; cbn [fst] in E; subst x;
    unfold collapse_run.
  - rewrite N.eqb_refl. simpl. lia.
  - change (NEWLINE =? SPACE)%N with false. rewrite N.eqb_refl.
    cbn [andb]. destruct (Nat.leb_spec 3 n); simpl; lia.
Qed.

Lemma max_run_normalize_letters (c : char) (s : str) :
  c = SPACE \/ c = NEWLINE ->
  max_run c (normalize_letters s) = max_run c s.
Proof.
  intros Hc. rewrite normalize_letters_flat_map.
  destruct (letter_image_keeps c Hc) as [Hk Ho].
  rewrite <- (expand_runs s).
  apply max_run_flat_map_runs; auto using canonical_runs.
Qed.

Lemma fix_arabic_text_max_runs (text : str) :
  (max_run SPACE (fix_arabic_text text) <= 1)%nat
  /\ (max_run NEWLINE (fix_arabic_text text) <= 2)%nat.
Proof.
  rewrite fix_arabic_text_eq.
  destruct (forallb isspace text); [simpl; lia|].
  destruct (collapsed_runs_bounds text) as [Hs Hn].
  rewrite !max_run_normalize_letters by auto.
  unfold collapse_whitespace_runs.
  split; apply max_run_expand; auto using canonical_collapsed.
Qed.

(** X1: the text returned by [fix_arabic_text] never contains two
    spaces in a row, nor three newlines in a row. *)
Theorem fix_arabic_text_no_long_runs (text : str) :
  ~ occurs [SPACE; SPACE] (fix_arabic_text text)
  /\ ~ occurs [NEWLINE; NEWLINE; NEWLINE] (fix_arabic_text text).
Proof.
  destruct (fix_arabic_text_max_runs text) as [Hs Hn].
  split; intros H.
  - apply (max_run_occurs SPACE 2) in H. lia.
  - apply (max_run_occurs NEWLINE 3) in H. lia.
Qed.

Lemma letter_image_no_replaced (x c : char) :
  In c (letter_image x) -> ~ In c replaced_letters.
Proof.
  letter_cases x; subst; simpl; intros H F;
    repeat match goal with
           | H : _ \/ _ |- _ => destruct H
           | H : False |- _ => contradiction
           end; subst; try discriminate; congruence.
Qed.

Lemma normalize_letters_no_replaced (s : str) :
  Forall (fun c => ~ In c replaced_letters) (normalize_letters s).
Proof.
  rewrite normalize_letters_flat_map. apply Forall_forall. intros c Hc.
  apply in_flat_map in Hc as (x & _ & Hx).
  eapply letter_image_no_replaced; eauto.
Qed.

Lemma letter_image_other (c : char) :
  ~ In c replaced_letters -> letter_image c = [c].
Proof.
  intros H. rewrite letter_image_cases.
  repeat match goal with
         | |- context [(c =? ?k)%N] =>
             destruct (N.eqb_spec c k) as [->|];
             [exfalso; apply H; simpl; tauto|]
         end.
  reflexivity.
Qed.

Lemma normalize_letters_unchanged (s : str) :
  Forall (fun c => ~ In c replaced_letters) s -> normalize_letters s = s.
Proof.
  rewrite normalize_letters_flat_map.
  induction 1 as [|c s Hc _ IH]; [reflexivity|].
  cbn [flat_map]. now rewrite letter_image_other, IH.
Qed.

(** X2: the text returned by [fix_arabic_text] contains none of the
    letters it replaces: no lam-alef ligature, no alef with hamza or
    madda, no alef maksura, no teh marbuta. *)
Theorem fix_arabic_text_no_replaced_letters (text : str) :
  Forall (fun c => ~ In c replaced_letters) (fix_arabic_text text)
  /\ replaced_letters
     = [LAM_ALEF_LIGATURE; ALEF_HAMZA_ABOVE; ALEF_HAMZA_BELOW; ALEF_MADDA;
        ALEF_MAKSURA; TEH_MARBUTA].
Proof.
  split; [|reflexivity]. rewrite fix_arabic_text_eq.
  destruct (forallb isspace text); [constructor|].
  apply normalize_letters_no_replaced.
Qed.

Lemma fix_arabic_text_isspace (text : str) :
  forallb isspace (fix_arabic_text text) = forallb isspace text.
Proof.
  rewrite fix_arabic_text_eq. destruct (forallb isspace text) eqn:E.
  - reflexivity.
  - now rewrite normalize_letters_isspace, collapse_whitespace_runs_isspace.
Qed.

(** X3: [fix_arabic_text] returns the empty string exactly for the texts
    made only of whitespace, and its result is made only of whitespace
    exactly when its argument is: a text with content keeps content. *)
Theorem fix_arabic_text_empty_iff_blank (text : str) :
  (fix_arabic_text text = [] <-> forallb isspace text = true)
  /\ forallb isspace (fix_arabic_text text) = forallb isspace text.
Proof.
  split; [|apply fix_arabic_text_isspace]. split; intros H.
  - rewrite <- fix_arabic_text_isspace. now rewrite H.
  - now rewrite fix_arabic_text_eq, H.
Qed.

Lemma not_occurs_max_run (c : char) (n : nat) (s : str) :
  ~ occurs (repeat c (S n)) s -> (max_run c s <= n)%nat.
Proof.
  intros H. destruct (Nat.le_gt_cases (max_run c s) n) as [|Hgt]; [assumption|].
  exfalso. apply H. apply occurs_max_run. lia.
Qed.

Lemma map_fixed {A} (f : A -> A) (l : list A) :
  Forall (fun x => f x = x) l -> map f l = l.
Proof. induction 1 as [|x l Hx _ IH]; simpl; congruence. Qed.

Lemma collapse_whitespace_runs_unchanged (s : str) :
  (max_run SPACE s <= 1)%nat -> (max_run NEWLINE s <= 2)%nat ->
  collapse_whitespace_runs s = s.
Proof.
  intros Hs Hn. unfold collapse_whitespace_runs.
  rewrite <- (expand_runs s) at 2. f_equal. apply map_fixed.
  pose proof (canonical_runs s) as Hc.
  pose proof (canonical_positive _ Hc) as Hp.
  pose proof (expand_max_run SPACE _ Hc) as Fs.
  pose proof (expand_max_run NEWLINE _ Hc) as Fn.
  rewrite expand_runs in Fs, Fn.
  rewrite Forall_forall in *. intros [x n] Hr.
  specialize (Hp _ Hr). specialize (Fs _ Hr). specialize (Fn _ Hr).
  simpl in Hp, Fs, Fn. unfold collapse_run.
  destruct (N.eqb_spec x SPACE) as [->|_].
  - f_equal. specialize (Fs eq_refl). lia.
  - destruct (N.eqb_spec x NEWLINE) as [->|_]; [|reflexivity].
    specialize (Fn eq_refl). cbn [andb].
    destruct (Nat.leb_spec 3 n); [lia|reflexivity].
Qed.

(** X4: the texts that [fix_arabic_text] returns unchanged are exactly
    the empty text and the texts that have content, no two spaces in a
    row, no three newlines in a row and none of the replaced letters. *)
Theorem fix_arabic_text_fixed_points (text : str) :
  fix_arabic_text text = text
  <-> text = []
      \/ (forallb isspace text = false
          /\ ~ occurs [SPACE; SPACE] text
          /\ ~ occurs [NEWLINE; NEWLINE; NEWLINE] text
          /\ Forall (fun c => ~ In c replaced_letters) text).
Proof.
  split.
  - intros H. destruct (forallb isspace text) eqn:E.
    + left. rewrite fix_arabic_text_eq, E in H. now symmetry.
    + right. split; [reflexivity|].
      destruct (fix_arabic_text_max_runs text) as [Hs Hn].
      rewrite H in Hs, Hn. repeat split.
      * intros O. apply (max_run_occurs SPACE 2) in O. lia.
      * intros O. apply (max_run_occurs NEWLINE 3) in O. lia.
      * rewrite <- H, fix_arabic_text_eq, E.
        apply normalize_letters_no_replaced.
  - intros [->|(E & Hs & Hn & Hl)]; [reflexivity|].
    rewrite fix_arabic_text_eq, E.
    rewrite collapse_whitespace_runs_unchanged.
    + now apply normalize_letters_unchanged.
    + now apply (not_occurs_max_run SPACE 1).
    + now apply (not_occurs_max_run NEWLINE 2).
Qed.

(** ** [detect_language] *)

Section FloatThreshold.

Local Open Scope Z_scope.

(** The double nearest to [n * 0.3] differs from the exact product by at
    most one part in [2^53]. *)
Lemma rounded_product_bounds (n : Z) :
  0 < n ->
  let P := n * 5404319552844595 in
  53 < Z.log2 P + 1 ->
  let s := Z.log2 P + 1 - 53 in
  let q := Z.shiftr P s in
  let rem := P - Z.shiftl q s in
  let half := Z.shiftl 1 (s - 1) in
  let q' := if (half <? rem) || (rem =? half) && Z.odd q then q + 1 else q in
  let fl := Z.shiftl q' s in
  9007199254740992 * (fl - P) <= P /\ 9007199254740992 * (P - fl) <= P.
Proof.
  intros Hn P Hb s q rem half q' fl.
  assert (HP : 0 < P) by (unfold P; lia).
  destruct (Z.log2_spec P HP) as [Hlo _].
  assert (Hs : 1 <= s) by (unfold s; lia).
  assert (Hh : half = 2 ^ (s - 1))
    by (unfold half; rewrite Z.shiftl_mul_pow2 by lia; lia).
  assert (Ht : 2 ^ s = 2 * half).
  { rewrite Hh. replace s with (1 + (s - 1)) at 1 by lia.
    rewrite Z.pow_add_r by lia. reflexivity. }
  assert (Hpos : 0 < half) by (rewrite Hh; apply Z.pow_pos_nonneg; lia).
  assert (HL : 2 ^ Z.log2 P = 9007199254740992 * half).
  { rewrite Hh. replace (Z.log2 P) with (53 + (s - 1)) by (unfold s; lia).
    rewrite Z.pow_add_r by lia. reflexivity. }
  assert (Hq : q = P / (2 * half))
    by (unfold q; rewrite Z.shiftr_div_pow2 by lia; now rewrite Ht).
  assert (Hrem : rem = P - q * (2 * half))
    by (unfold rem; rewrite Z.shiftl_mul_pow2 by lia; now rewrite Ht).
  pose proof (Z.div_mod P (2 * half) ltac:(lia)) as Hdm.
  pose proof (Z.mod_pos_bound P (2 * half) ltac:(lia)) as Hmb.
  rewrite <- Hq in Hdm.
  assert (Hfl : fl = q' * (2 * half))
    by (unfold fl; rewrite Z.shiftl_mul_pow2 by lia; now rewrite Ht).
  rewrite Hfl. unfold q'.
  destruct ((half <? rem) || (rem =? half) && Z.odd q) eqn:C.
  - assert (half <= rem).
    { apply orb_true_iff in C as [C|C].
      - apply Z.ltb_lt in C. lia.
      - apply andb_true_iff in C as [C _]. apply Z.eqb_eq in C. lia. }
    replace ((q + 1) * (2 * half)) with (q * (2 * half) + 2 * half) by ring.
    lia.
  - assert (rem <= half).
    { apply orb_false_iff in C as [C _]. apply Z.ltb_ge in C. lia. }
    lia.
Qed.

Lemma exceeds_30_percent_exact (count n : Z) :
  0 <= n <= 2251799813685248 ->
  (3 * n < 10 * count -> exceeds_30_percent count n = true)
  /\ (10 * count < 3 * n -> exceeds_30_percent count n = false).
Proof.
  intros Hn. unfold exceeds_30_percent.
  change (2 ^ 54) with 18014398509481984.
  destruct (Z.eqb_spec (n * 5404319552844595) 0) as [E|E].
  - change (0 <=? 53) with true. cbv iota.
    split; intros H; [apply Z.ltb_lt|apply Z.ltb_ge]; lia.
  - destruct (Z.leb_spec (Z.log2 (n * 5404319552844595) + 1) 53) as [Hb|Hb].
    + split; intros H; [apply Z.ltb_lt|apply Z.ltb_ge]; lia.
    + destruct (rounded_product_bounds n ltac:(lia) Hb) as [Hup Hdn].
      cbv zeta in Hup, Hdn.
      split; intros H; [apply Z.ltb_lt|apply Z.ltb_ge]; lia.
Qed.

End FloatThreshold.

(** X5: [detect_language] answers unknown exactly for the texts made
    only of whitespace; for a text with content it answers arabic or
    english, and english only when [langdetect] returned a code other
    than ['ar']. *)
Theorem detect_language_unknown_iff_blank
  (detect : str -> outcome str) (text : str) :
  (detect_language detect text = unknown <-> forallb isspace text = true)
  /\ (detect_language detect text = english ->
      exists lang, detect (firstn 1000 text) = Return lang
                   /\ lang <> lit "ar").
Proof.
  unfold detect_language. rewrite blank_guard.
  destruct (forallb isspace text).
  - split; [tauto|discriminate].
  - destruct (exceeds_30_percent _ _).
    + split; [split; discriminate|discriminate].
    + destruct (detect (firstn 1000 text)) as [lang|e].
      * destruct (list_eq_dec N.eq_dec lang (lit "ar")).
        -- split; [split; discriminate|discriminate].
        -- split; [split; discriminate|]. intros _. now exists lang.
      * split; [split; discriminate|discriminate].
Qed.

(** X6: the test [arabic_char_count > len(text) * 0.3], although made in
    floating point, decides the share exactly away from the boundary.
    For a text with content of at most [2^51] characters: when more than
    30 percent of the characters are in the Arabic block the answer is
    arabic whatever [langdetect] says; when fewer are, the answer is that
    of [langdetect], with arabic as default when it raises. *)
Theorem detect_language_share
  (detect : str -> outcome str) (text : str) :
  forallb isspace text = false ->
  (len text <= 2251799813685248)%Z ->
  ((3 * len text < 10 * len (filter is_arabic_char text))%Z ->
   detect_language detect text = arabic)
  /\ ((10 * len (filter is_arabic_char text) < 3 * len text)%Z ->
      detect_language detect text
      = match detect (firstn 1000 text) with
        | Return lang =>
            if list_eq_dec N.eq_dec lang (lit "ar") then arabic else english
        | Raise _ => arabic
        end).
Proof.
  intros Hb Hlen. unfold detect_language. rewrite blank_guard, Hb.
  destruct (exceeds_30_percent_exact (len (filter is_arabic_char text))
              (len text)) as [Habove Hbelow]; [unfold len in *; lia|].
  split; intros H.
  - now rewrite Habove.
  - now rewrite Hbelow.
Qed.

Lemma detect_language_share_witness :
  forallb isspace mixed_text = false
  /\ (len mixed_text <= 2251799813685248)%Z
  /\ (3 * len mixed_text < 10 * len (filter is_arabic_char mixed_text))%Z
  /\ detect_language detect_en mixed_text = arabic.
Proof.
  assert (Hb : forallb isspace mixed_text = false) by reflexivity.
  assert (Hl : (len mixed_text <= 2251799813685248)%Z)
    by (vm_compute; discriminate).
  assert (Hs : (3 * len mixed_text
                < 10 * len (filter is_arabic_char mixed_text))%Z)
    by reflexivity.
  split; [exact Hb|]. split; [exact Hl|]. split; [exact Hs|].
  exact (proj1 (detect_language_share detect_en mixed_text Hb Hl) Hs).
Defined.

(** ** Identifiers and positions written by [chunk_document] *)

Lemma count_from_app (a : Z) (n m : nat) :
  count_from a (n + m) = count_from a n ++ count_from (a + Z.of_nat n)%Z m.
Proof.
  revert a. induction n as [|n IH]; intros a.
  - simpl. f_equal. lia.
  - cbn [Nat.add count_from app]. rewrite IH. do 3 f_equal. lia.
Qed.

Lemma count_from_seq (n : nat) :
  count_from 0 n = map Z.of_nat (seq 0 n).
Proof.
  assert (H : forall a k, count_from (Z.of_nat a) k = map Z.of_nat (seq a k)).
  { intros a k. revert a. induction k as [|k IH]; intros a; [reflexivity|].
    simpl. f_equal. rewrite <- IH. f_equal. lia. }
  exact (H O n).
Qed.

Lemma page_entries_length (lang : language) (page_num : Z) (page_text : str)
  (page_chunks : list str) (chunk_id : Z) :
  length (page_entries lang page_num page_text chunk_id page_chunks)
  = length page_chunks.
Proof.
  revert chunk_id. induction page_chunks as [|p ps IH]; intros chunk_id;
    simpl; [reflexivity|]. now rewrite IH.
Qed.

Lemma page_entries_ids (lang : language) (page_num : Z) (page_text : str)
  (page_chunks : list str) (chunk_id : Z) :
  map c_id (page_entries lang page_num page_text chunk_id page_chunks)
  = count_from chunk_id (length page_chunks)
  /\ Forall (fun c => m_chunk_id (c_metadata c) = c_id c)
       (page_entries lang page_num page_text chunk_id page_chunks).
Proof.
  revert chunk_id. induction page_chunks as [|p ps IH]; intros chunk_id.
  - split; [reflexivity|constructor].
  - destruct (IH (chunk_id + 1)%Z) as [E F]. simpl. split.
    + now rewrite E.
    + now constructor.
Qed.

Lemma chunk_pages_ids (split : str -> outcome (list str)) (lang : language)
  (pages : list str) :
  forall page_num chunk_id chunks,
    chunk_pages split lang page_num chunk_id pages = Return chunks ->
    map c_id chunks = count_from chunk_id (length chunks)
    /\ Forall (fun c => m_chunk_id (c_metadata c) = c_id c) chunks.
Proof.
  induction pages as [|p ps IH]; intros page_num chunk_id chunks H.
  - injection H as <-. split; [reflexivity|constructor].
  - simpl in H. destruct (negb (truthy (strip p))); [now apply IH in H|].
    destruct (split p) as [page_chunks|e]; [|discriminate]. simpl in H.
    destruct (chunk_pages split lang (page_num + 1)
                (chunk_id + len page_chunks) ps) as [later|e] eqn:E;
      [|discriminate].
    simpl in H. injection H as <-. apply IH in E as [E F].
    destruct (page_entries_ids lang page_num p page_chunks chunk_id)
      as [E' F'].
    split; [|now apply Forall_app].
    rewrite map_app, length_app, count_from_app, E', E.
    now rewrite page_entries_length.
Qed.

(** X7: the ids written by [chunk_document] are dense and in emission
    order: the list of ids is 0, 1, ..., n-1, and the [chunk_id] of the
    metadata repeats the id.  This holds for every splitter, and for the
    fallback passage too. *)
Theorem chunk_document_ids_dense
  (splitter : Z -> Z -> list str -> str -> outcome (list str)) (text : str) :
  map c_id (chunk_document splitter text)
  = map Z.of_nat (seq 0 (length (chunk_document splitter text)))
  /\ Forall (fun c => m_chunk_id (c_metadata c) = c_id c)
       (chunk_document splitter text).
Proof.
  rewrite <- count_from_seq. unfold chunk_document.
  destruct (negb (truthy text) || (len (strip text) =? 0)%Z).
  - split; [reflexivity|constructor].
  - destruct (chunk_document_body splitter text) as [chunks|e] eqn:E.
    + unfold chunk_document_body in E.
      destruct (segment_pages text) as [pages|parts]; [|discriminate].
      now apply chunk_pages_ids in E.
    + split; [reflexivity|]. now repeat constructor.
Qed.

Lemma segment_pages_list (text : str) :
  exists pages,
    segment_pages text = PageList pages
    /\ (1 <= length pages <= 500)%nat.
Proof.
  unfold segment_pages. destruct (contains FORM_FEED text).
  - exists [text]. simpl. split; [reflexivity|lia].
  - cbn [pages_len].
    destruct (Z.ltb_spec (len (re_split PAGE_BREAK false text)) 2);
      [exists [text]; simpl; split; [reflexivity|lia]|].
    destruct (Z.ltb_spec 500 (len (re_split PAGE_BREAK false text)));
      [exists [text]; simpl; split; [reflexivity|lia]|].
    eexists. split; [reflexivity|]. unfold len in *. lia.
Qed.

Lemma filter_firstn_length {A} (f : A -> bool) (k : nat) (l : list A) :
  (length (filter f (firstn k l)) <= length (filter f l))%nat.
Proof.
  revert k. induction l as [|a l IH]; intros [|k]; simpl; try lia.
  specialize (IH k). destruct (f a); simpl; lia.
Qed.

Lemma estimate_line_bounds (page_text page_content : str) :
  (1 <= estimate_line page_text page_content
   <= count page_text NEWLINE + 1)%Z.
Proof.
  unfold estimate_line, count, len. cbv zeta.
  destruct (find page_text (firstn 50 page_content) =? -1)%Z; [lia|].
  split; [lia|].
  apply Z.add_le_mono_r, Nat2Z.inj_le, filter_firstn_length.
Qed.

Lemma page_entries_provenance (lang : language) (page_num : Z)
  (page_text : str) (page_chunks : list str) (chunk_id : Z) :
  Forall (fun c => page_of c = (page_num + 1)%Z
                   /\ In (c_text c) page_chunks
                   /\ line_of c = estimate_line page_text (c_text c))
    (page_entries lang page_num page_text chunk_id page_chunks).
Proof.
  revert chunk_id. induction page_chunks as [|p ps IH]; intros chunk_id.
  - constructor.
  - simpl. constructor.
    + unfold page_of, line_of. simpl. auto.
    + eapply Forall_impl; [|apply IH]. intros c (Hp & Hin & Hl).
      repeat split; auto using in_cons.
Qed.

(** Every chunk of the loop comes from the segment its page number
    points to. *)
Lemma chunk_pages_provenance (split : str -> outcome (list str))
  (lang : language) (pages : list str) :
  forall page_num chunk_id chunks,
    chunk_pages split lang page_num chunk_id pages = Return chunks ->
    Forall (fun c =>
              exists (i : nat) (page_text : str) (pieces : list str),
                nth_error pages i = Some page_text
                /\ page_of c = (page_num + Z.of_nat i + 1)%Z
                /\ split page_text = Return pieces
                /\ In (c_text c) pieces
                /\ line_of c = estimate_line page_text (c_text c))
      chunks.
Proof.
  induction pages as [|p ps IH]; intros page_num chunk_id chunks H.
  - injection H as <-. constructor.
  - assert (Hlater : forall cid later,
               chunk_pages split lang (page_num + 1) cid ps = Return later ->
               Forall (fun c =>
                         exists i page_text pieces,
                           nth_error (p :: ps) i = Some page_text
                           /\ page_of c = (page_num + Z.of_nat i + 1)%Z
                           /\ split page_text = Return pieces
                           /\ In (c_text c) pieces
                           /\ line_of c = estimate_line page_text (c_text c))
                 later).
    { intros cid later E. apply IH in E.
      eapply Forall_impl; [|exact E].
      intros c (i & pt & pieces & Hn & Hp & Hs & Hin & Hl).
      exists (S i), pt, pieces. repeat split; auto. rewrite Hp. lia. }
    simpl in H. destruct (negb (truthy (strip p))); [now apply Hlater in H|].
    destruct (split p) as [page_chunks|e] eqn:Es; [|discriminate].
    simpl in H.
    destruct (chunk_pages split lang (page_num + 1)
                (chunk_id + len page_chunks) ps) as [later|e] eqn:E;
      [|discriminate].
    simpl in H. injection H as <-. apply Forall_app. split.
    + eapply Forall_impl; [|apply page_entries_provenance].
      intros c (Hp & Hin & Hl). exists O, p, page_chunks.
      repeat split; auto. rewrite Hp. simpl. lia.
    + now apply Hlater in E.
Qed.

Lemma StronglySorted_app {A} (R : A -> A -> Prop) (l1 l2 : list A) :
  StronglySorted R l1 -> StronglySorted R l2 ->
  (forall a b, In a l1 -> In b l2 -> R a b) ->
  StronglySorted R (l1 ++ l2).
Proof.
  induction 1 as [|a l1 Hs IH Ha]; intros H2 H; [exact H2|].
  simpl. constructor.
  - apply IH; [exact H2|]. intros x y Hx Hy. apply H; [now right|exact Hy].
  - apply Forall_app. split; [exact Ha|].
    apply Forall_forall. intros y Hy. apply H; [now left|exact Hy].
Qed.

Lemma StronglySorted_constant {A} (R : A -> A -> Prop) (a : A) (l : list A) :
  R a a -> Forall (fun x => x = a) l -> StronglySorted R l.
Proof.
  intros Ha. induction 1 as [|x l -> F IH]; constructor; [exact IH|].
  eapply Forall_impl; [|exact F]. now intros y ->.
Qed.

Lemma chunk_pages_sorted (split : str -> outcome (list str))
  (lang : language) (pages : list str) :
  forall page_num chunk_id chunks,
    chunk_pages split lang page_num chunk_id pages = Return chunks ->
    StronglySorted Z.le (map page_of chunks).
Proof.
  induction pages as [|p ps IH]; intros page_num chunk_id chunks H.
  - injection H as <-. constructor.
  - simpl in H. destruct (negb (truthy (strip p))); [now apply IH in H|].
    destruct (split p) as [page_chunks|e]; [|discriminate]. simpl in H.
    destruct (chunk_pages split lang (page_num + 1)
                (chunk_id + len page_chunks) ps) as [later|e] eqn:E;
      [|discriminate].
    simpl in H. injection H as <-. rewrite map_app.
    pose proof (page_entries_provenance lang page_num p page_chunks chunk_id)
      as F.
    pose proof (chunk_pages_provenance _ _ _ _ _ _ E) as G.
    rewrite Forall_forall in F, G.
    apply StronglySorted_app.
    + apply (StronglySorted_constant Z.le (page_num + 1)%Z); [lia|].
      apply Forall_forall. intros x Hx.
      apply in_map_iff in Hx as (c & <- & Hc). now apply F.
    + now apply IH in E.
    + intros a b Ha Hb.
      apply in_map_iff in Ha as (c & <- & Hc).
      apply in_map_iff in Hb as (c' & <- & Hc').
      destruct (F c Hc) as (-> & _).
      destruct (G c' Hc') as (i & _ & _ & _ & -> & _). lia.
Qed.

(** X8: the positions written by [chunk_document] are well formed for
    every splitter: each passage has a page between 1 and 500 and a line
    of at least 1, and the pages never decrease along the output. *)
Theorem chunk_document_positions
  (splitter : Z -> Z -> list str -> str -> outcome (list str)) (text : str) :
  Forall (fun c => (1 <= page_of c <= 500)%Z /\ (1 <= line_of c)%Z)
    (chunk_document splitter text)
  /\ Sorted Z.le (map page_of (chunk_document splitter text)).
Proof.
  unfold chunk_document.
  destruct (negb (truthy text) || (len (strip text) =? 0)%Z);
    [split; constructor|].
  destruct (chunk_document_body splitter text) as [chunks|e] eqn:E.
  - unfold chunk_document_body in E.
    destruct (segment_pages_list text) as (pages & Hseg & Hlen).
    rewrite Hseg in E. split.
    + apply chunk_pages_provenance in E.
      eapply Forall_impl; [|exact E].
      intros c (i & pt & pieces & Hn & Hp & _ & _ & Hl).
      assert (i < length pages)%nat
        by (apply nth_error_Some; congruence).
      pose proof (estimate_line_bounds pt (c_text c)). lia.
    + apply StronglySorted_Sorted. eapply chunk_pages_sorted; eauto.
  - split; [|repeat constructor].
    constructor; [|constructor]. unfold page_of, line_of. simpl. lia.
Qed.

(** X9: every passage other than the fallback one comes from the segment
    its page number points to: its text is one of the pieces the splitter
    returned for that segment, and its line is the number of newlines of
    the segment before the first occurrence of the passage's first 50
    characters, plus one (1 when they do not occur). *)
Theorem chunk_document_provenance
  (splitter : Z -> Z -> list str -> str -> outcome (list str)) (text : str) :
  exists pages,
    segment_pages text = PageList pages
    /\ Forall (fun c =>
                 c = fallback_chunk text
                 \/ exists (i : nat) (page_text : str) (pieces : list str),
                      nth_error pages i = Some page_text
                      /\ page_of c = (Z.of_nat i + 1)%Z
                      /\ text_splitter splitter text page_text = Return pieces
                      /\ In (c_text c) pieces
                      /\ line_of c
                         = (if (find page_text (firstn 50 (c_text c)) =? -1)%Z
                            then 1
                            else count
                                   (firstn
                                      (Z.to_nat
                                         (find page_text
                                            (firstn 50 (c_text c))))
                                      page_text) NEWLINE + 1)%Z)
         (chunk_document splitter text).
Proof.
  destruct (segment_pages_list text) as (pages & Hseg & _).
  exists pages. split; [exact Hseg|]. unfold chunk_document.
  destruct (negb (truthy text) || (len (strip text) =? 0)%Z); [constructor|].
  destruct (chunk_document_body splitter text) as [chunks|e] eqn:E.
  - unfold chunk_document_body in E. rewrite Hseg in E.
    apply chunk_pages_provenance in E.
    eapply Forall_impl; [|exact E].
    intros c (i & pt & pieces & Hn & Hp & Hs & Hin & Hl). right.
    exists i, pt, pieces. repeat split; auto.
  - constructor; [now left|constructor].
Qed.

Lemma chunk_pages_raises (split : str -> outcome (list str))
  (lang : language) (pages : list str) (page : str) (e : exn) :
  In page pages -> strip page <> [] -> split page = Raise e ->
  forall page_num chunk_id,
    exists e', chunk_pages split lang page_num chunk_id pages = Raise e'.
Proof.
  intros Hin Hne He. induction pages as [|p ps IH]; [contradiction|].
  intros page_num chunk_id. simpl.
  destruct (negb (truthy (strip p))) eqn:Eb.
  - destruct Hin as [->|Hin]; [|now apply IH].
    destruct (strip page); [congruence|discriminate].
  - destruct (split p) as [page_chunks|e0] eqn:Es; [|now exists e0].
    destruct Hin as [->|Hin]; [congruence|]. simpl.
    destruct (IH Hin (page_num + 1)%Z (chunk_id + len page_chunks)%Z)
      as (e' & ->).
    now exists e'.
Qed.

(** X10: the fallback is all or nothing.  When the splitter raises on
    any segment that has content, [chunk_document] discards the chunks of
    all the other segments and returns exactly one passage: the whole
    text with id 0, page 1, line 1 and no language. *)
Theorem chunk_document_fallback
  (splitter : Z -> Z -> list str -> str -> outcome (list str)) (text : str)
  (pages : list str) (page : str) (e : exn) :
  forallb isspace text = false ->
  segment_pages text = PageList pages ->
  In page pages ->
  strip page <> [] ->
  text_splitter splitter text page = Raise e ->
  chunk_document splitter text
  = [{| c_id := 0;
        c_text := text;
        c_metadata := {| m_source := lit "document"; m_chunk_id := 0;
                         m_page := 1; m_line := 1; m_language := None |} |}].
Proof.
  intros Hb Hseg Hin Hne He. unfold chunk_document.
  rewrite blank_guard, Hb. unfold chunk_document_body. rewrite Hseg.
  destruct (chunk_pages_raises (text_splitter splitter text)
              (if is_arabic text then arabic else english)
              pages page e Hin Hne He 0%Z 0%Z) as (e' & ->).
  reflexivity.
Qed.

Lemma chunk_document_fallback_witness :
  forallb isspace (lit "abc") = false
  /\ segment_pages (lit "abc") = PageList [lit "abc"]
  /\ chunk_document raising_splitter (lit "abc")
     = [{| c_id := 0;
           c_text := lit "abc";
           c_metadata := {| m_source := lit "document"; m_chunk_id := 0;
                            m_page := 1; m_line := 1;
                            m_language := None |} |}].
Proof.
  split; [reflexivity|]. split; [reflexivity|].
  apply (chunk_document_fallback raising_splitter (lit "abc")
           [lit "abc"] (lit "abc") RuntimeError);
    [reflexivity|reflexivity|now left|discriminate|reflexivity].
Defined.

Lemma re_split_no_match (r : regex) (capture : bool) (s : str) :
  re_search r s = false -> re_split r capture s = [s].
Proof.
  unfold re_split. change s with (rev [] ++ s) at 3.
  generalize (@nil char) as cur. induction s as [|c s IH]; intros cur H.
  - simpl. now rewrite app_nil_r.
  - cbn [re_search] in H. cbn [re_split_from].
    destruct (match_len r (c :: s)); [discriminate|].
    rewrite IH by exact H. simpl. now rewrite <- app_assoc.
Qed.

Lemma single_segment_pages
  (splitter : Z -> Z -> list str -> str -> outcome (list str)) (text : str) :
  segment_pages text = PageList [text] ->
  Forall (fun c => page_of c = 1%Z) (chunk_document splitter text).
Proof.
  intros Hseg. unfold chunk_document.
  destruct (negb (truthy text) || (len (strip text) =? 0)%Z); [constructor|].
  destruct (chunk_document_body splitter text) as [chunks|e] eqn:E.
  - unfold chunk_document_body in E. rewrite Hseg in E.
    apply chunk_pages_provenance in E.
    eapply Forall_impl; [|exact E].
    intros c (i & pt & pieces & Hn & Hp & _).
    destruct i as [|[|i]]; simpl in Hn; try discriminate. exact Hp.
  - now repeat constructor.
Qed.

(** X11: a page number other than 1 only ever comes from blank-line
    inference: when some passage has a page other than 1, the text
    contains no form feed and the pattern [\n\s*\n\s*\n] occurs in it. *)
Theorem chunk_document_later_page
  (splitter : Z -> Z -> list str -> str -> outcome (list str)) (text : str)
  (c : chunk) :
  In c (chunk_document splitter text) ->
  page_of c <> 1%Z ->
  contains FORM_FEED text = false /\ re_search PAGE_BREAK text = true.
Proof.
  intros Hin Hp.
  assert (Hmulti : segment_pages text <> PageList [text]).
  { intros Hseg. pose proof (single_segment_pages splitter text Hseg) as F.
    rewrite Forall_forall in F. now apply F in Hin. }
  destruct (contains FORM_FEED text) eqn:Ef.
  - exfalso. apply Hmulti. now apply segment_pages_form_feed.
  - split; [reflexivity|].
    destruct (re_search PAGE_BREAK text) eqn:Er; [reflexivity|].
    exfalso. apply Hmulti. unfold segment_pages.
    rewrite Ef, (re_split_no_match _ _ _ Er). reflexivity.
Qed.

Lemma chunk_document_later_page_witness :
  exists c,
    In c (chunk_document RecursiveCharacterTextSplitter scenario_text)
    /\ page_of c = 2%Z
    /\ contains FORM_FEED scenario_text = false
    /\ re_search PAGE_BREAK scenario_text = true.
Proof.
  exists {| c_id := 1;
            c_text := lit "Line three.";
            c_metadata := {| m_source := lit "document"; m_chunk_id := 1;
                             m_page := 2; m_line := 1;
                             m_language := Some english |} |}.
  assert (Hin : In {| c_id := 1;
                      c_text := lit "Line three.";
                      c_metadata := {| m_source := lit "document";
                                       m_chunk_id := 1;
                                       m_page := 2; m_line := 1;
                                       m_language := Some english |} |}
                  (chunk_document RecursiveCharacterTextSplitter
                     scenario_text))
    by (vm_compute; right; left; reflexivity).
  split; [exact Hin|]. split; [reflexivity|].
  apply (chunk_document_later_page RecursiveCharacterTextSplitter
           scenario_text _ Hin).
  discriminate.
Defined.

(** ** Further properties of the vector store *)

Lemma StronglySorted_map_filter {A B} (R : B -> B -> Prop) (f : A -> B)
  (p : A -> bool) (l : list A) :
  StronglySorted R (map f l) -> StronglySorted R (map f (filter p l)).
Proof.
  induction l as [|a l IH]; intros H; [constructor|].
  simpl in H. inversion H as [|? ? Hs Hf]; subst. simpl.
  destruct (p a); [|now apply IH]. simpl. constructor; [now apply IH|].
  rewrite Forall_forall in *. intros b Hb.
  apply in_map_iff in Hb as (x & <- & Hx). apply filter_In in Hx as [Hx _].
  apply Hf. now apply in_map.
Qed.

Lemma StronglySorted_firstn {A} (R : A -> A -> Prop) (k : nat) (l : list A) :
  StronglySorted R l -> StronglySorted R (firstn k l).
Proof.
  revert k. induction l as [|a l IH]; intros [|k] H; simpl; try constructor.
  - apply IH. now inversion H.
  - inversion H as [|? ? _ Hf]; subst. rewrite Forall_forall in *.
    intros b Hb. apply Hf. eapply firstn_In; eauto.
Qed.

Lemma StronglySorted_firstn_skipn {A} (R : A -> A -> Prop) (k : nat)
  (l : list A) :
  StronglySorted R l ->
  forall a b, In a (firstn k l) -> In b (skipn k l) -> R a b.
Proof.
  revert k. induction l as [|x l IH]; intros [|k] H a b Ha Hb;
    simpl in *; try contradiction.
  inversion H as [|? ? Hs Hf]; subst. destruct Ha as [->|Ha].
  - rewrite Forall_forall in Hf. apply Hf.
    rewrite <- (firstn_skipn k l). apply in_or_app. now right.
  - eapply IH; eauto.
Qed.

Lemma StronglySorted_map_inv {A B} (R : B -> B -> Prop) (f : A -> B)
  (l : list A) :
  StronglySorted R (map f l) ->
  StronglySorted (fun a b => R (f a) (f b)) l.
Proof.
  induction l as [|a l IH]; intros H; [constructor|].
  simpl in H. inversion H as [|? ? Hs Hf]; subst.
  constructor; [now apply IH|].
  rewrite Forall_forall in *. intros b Hb. apply Hf. now apply in_map.
Qed.

Lemma Forall2_In_r {A B} (R : A -> B -> Prop) (l : list A) (l' : list B)
  (b : B) :
  Forall2 R l l' -> In b l' -> exists a, In a l /\ R a b.
Proof.
  induction 1 as [|x y l l' Hxy _ IH]; intros Hb; [contradiction|].
  destruct Hb as [->|Hb].
  - exists x. split; [now left|exact Hxy].
  - destruct (IH Hb) as (a & Ha & Hr). exists a. split; [now right|exact Hr].
Qed.

Lemma Forall2_In_l {A B} (R : A -> B -> Prop) (l : list A) (l' : list B)
  (a : A) :
  Forall2 R l l' -> In a l -> exists b, In b l' /\ R a b.
Proof.
  induction 1 as [|x y l l' Hxy _ IH]; intros Ha; [contradiction|].
  destruct Ha as [->|Ha].
  - exists y. split; [now left|exact Hxy].
  - destruct (IH Ha) as (b & Hb & Hr). exists b. split; [now right|exact Hr].
Qed.

Lemma insert_hit_In (float : Type) (float_leb : float -> float -> bool)
  (h x : Z * float) (l : list (Z * float)) :
  In x (insert_hit float_leb h l) <-> x = h \/ In x l.
Proof.
  induction l as [|h' l IH]; simpl.
  - split; [intros [H|[]]; now left|intros [H|[]]; now left].
  - destruct (float_leb (snd h) (snd h')); simpl.
    + split; [intros [H|H]; [now left|now right]|].
      intros [H|H]; [now left|now right].
    + rewrite IH. split.
      * intros [H|[H|H]]; [right; now left|now left|right; now right].
      * intros [H|[H|H]]; [right; now left|now left|right; now right].
Qed.

Lemma sort_hits_In (float : Type) (float_leb : float -> float -> bool)
  (x : Z * float) (l : list (Z * float)) :
  In x (fold_right (insert_hit float_leb) [] l) <-> In x l.
Proof.
  induction l as [|h l IH]; simpl; [reflexivity|].
  rewrite insert_hit_In, IH. split.
  - intros [H|H]; [now left|now right].
  - intros [H|H]; [now left|now right].
Qed.

Section SearchAnyState.

Variable float : Type.
Variable float_leb : float -> float -> bool.
Variable fvec_L2sqr : list float -> list float -> float.
Variable FLT_MAX : float.
Variable np_empty : Z -> outcome unit.
Variable encode : list str -> outcome (list (list float)).

Local Abbreviation le_score := (fun a b : float => float_leb a b = true).
Local Abbreviation store := (VectorStore float).

(** What [search] computes once the guards and the two library calls
    have passed: the results are the hits of the [k] nearest stored
    vectors whose label is in range, in that order. *)
Lemma search_hits (self : store) (ix : IndexFlatL2 float) (query : str)
  (k : Z) (q : list float) (rest : list (list float)) :
  index self = Some ix -> chunks self <> [] ->
  encode [query] = Return (q :: rest) -> len q = d ix -> (0 < k)%Z ->
  np_empty k = Return tt ->
  exists results,
    fst (search float_leb fvec_L2sqr FLT_MAX np_empty encode self query k)
    = Return results
    /\ Forall2 (result_of_hit (chunks self)) results
         (filter (in_range (chunks self))
            (firstn (Z.to_nat k) (ranked float_leb fvec_L2sqr ix q))).
Proof.
  intros Hi Hc HE Hd Hk Ha. unfold search. rewrite Hi.
  destruct (chunks self) as [|c0 cs] eqn:Ec; [congruence|].
  cbn [truthy negb]. unfold search_body. rewrite HE.
  unfold IndexFlatL2_search. rewrite Hd, Z.eqb_refl. cbn [negb].
  destruct (Z.ltb_spec 0 k) as [_|]; [|lia]. cbn [negb].
  rewrite Ha. cbn [bind].
  match goal with
  | |- context [collect_results ?st ?hs] =>
      destruct (collect_results_spec float st hs) as (results & E & F)
  end.
  rewrite E. exists results. split; [reflexivity|].
  now rewrite filter_app, filter_repeat_none, app_nil_r in F.
Qed.

(** When the result rows cannot be allocated, [search] returns the
    empty list. *)
Lemma search_unallocated (self : store) (query : str) (k : Z) (e : exn) :
  np_empty k = Raise e ->
  fst (search float_leb fvec_L2sqr FLT_MAX np_empty encode self query k)
  = Return [].
Proof.
  intros Ha. unfold search. destruct (index self) as [ix|]; [|reflexivity].
  destruct (negb (truthy (chunks self))); [reflexivity|].
  unfold search_body.
  destruct (encode [query]) as [[|q rest]|e']; try reflexivity.
  unfold IndexFlatL2_search.
  destruct (negb (len q =? d ix)%Z); [reflexivity|].
  destruct (negb (0 <? k)%Z); [reflexivity|].
  now rewrite Ha.
Qed.

Hypothesis float_leb_total :
  forall a b, float_leb a b = true \/ float_leb b a = true.
Hypothesis float_leb_trans :
  forall a b c,
    float_leb a b = true -> float_leb b c = true -> float_leb a c = true.

Lemma ranked_StronglySorted (ix : IndexFlatL2 float) (q : list float) :
  StronglySorted le_score (map snd (ranked float_leb fvec_L2sqr ix q)).
Proof.
  apply Sorted_StronglySorted.
  - intros a b c. apply float_leb_trans.
  - apply sort_hits_Sorted, float_leb_total.
Qed.

(** X13: in every state of the store, also when the chunk list and the
    index disagree, [search] returns at most [k] results (none when [k]
    is not positive), at most as many as the index holds vectors, and
    the scores never decrease along the result. *)
Theorem search_bounded_sorted (self : store) (query : str) (k : Z) :
  exists results,
    fst (search float_leb fvec_L2sqr FLT_MAX np_empty encode self query k)
    = Return results
    /\ (len results <= Z.max 0 k)%Z
    /\ (forall ix, index self = Some ix -> (len results <= ntotal ix)%Z)
    /\ Sorted le_score (map (@r_score float) results).
Proof.
  assert (Hnil : exists results : list (search_result float),
             Return (@nil (search_result float)) = Return results
             /\ (len results <= Z.max 0 k)%Z
             /\ (forall ix : IndexFlatL2 float,
                    index self = Some ix -> (len results <= ntotal ix)%Z)
             /\ Sorted le_score (map (@r_score float) results)).
  { exists []. split; [reflexivity|]. split; [unfold len; simpl; lia|].
    split; [intros ix _; unfold ntotal, len; simpl; lia|constructor]. }
  destruct (index self) as [ix|] eqn:Hi; [|unfold search; now rewrite Hi].
  destruct (chunks self) as [|c0 cs] eqn:Hc;
    [unfold search; now rewrite Hi, Hc|].
  destruct (encode [query]) as [[|q rest]|e] eqn:HE;
    try (unfold search, search_body; now rewrite Hi, Hc, HE).
  destruct (Z.eqb_spec (len q) (d ix)) as [Hd|Hd].
  2:{ unfold search, search_body, IndexFlatL2_search.
      rewrite Hi, Hc, HE. apply Z.eqb_neq in Hd. now rewrite Hd. }
  destruct (Z.ltb_spec 0 k) as [Hk|Hk].
  2:{ unfold search, search_body, IndexFlatL2_search.
      rewrite Hi, Hc, HE, Hd, Z.eqb_refl.
      destruct (Z.ltb_spec 0 k); [lia|]. exact Hnil. }
  destruct (np_empty k) as [[]|e] eqn:Ha.
  2:{ rewrite (search_unallocated self query k e Ha). exact Hnil. }
  destruct (search_hits self ix query k q rest Hi) as (results & E & F);
    auto; [rewrite Hc; discriminate|].
  exists results. split; [exact E|].
  pose proof (Forall2_length F) as Hlen.
  pose proof (filter_length_le (in_range (chunks self))
                (firstn (Z.to_nat k) (ranked float_leb fvec_L2sqr ix q)))
    as Hle.
  rewrite length_firstn, ranked_length in Hle. repeat split.
  - unfold len. lia.
  - intros ix' Hix. injection Hix as <-. unfold len, ntotal, len. lia.
  - rewrite (results_scores float _ _ _ F).
    apply StronglySorted_Sorted, StronglySorted_map_filter.
    rewrite <- firstn_map. apply StronglySorted_firstn, ranked_StronglySorted.
Qed.

End SearchAnyState.

Lemma In_enumerated {A B} (f : A -> B) (rows : list A) (j : nat) (row : A) :
  nth_error rows j = Some row ->
  In (Z.of_nat j, f row)
    (combine (map Z.of_nat (seq 0 (length rows))) (map f rows)).
Proof.
  assert (H : forall a,
             nth_error rows j = Some row ->
             In (Z.of_nat (a + j), f row)
               (combine (map Z.of_nat (seq a (length rows))) (map f rows))).
  { revert j. induction rows as [|r0 rs IH]; intros j a Hn.
    - destruct j; discriminate.
    - destruct j as [|j]; simpl in Hn.
      + injection Hn as ->. left. now rewrite Nat.add_0_r.
      + right. rewrite <- Nat.add_succ_comm. now apply IH. }
  exact (H O).
Qed.

Section NearestNeighbours.

Variable float : Type.
Variable float_leb : float -> float -> bool.
Variable fvec_L2sqr : list float -> list float -> float.
Variable FLT_MAX : float.
Variable np_empty : Z -> outcome unit.
Variable encode : list str -> outcome (list (list float)).

Local Abbreviation le_score := (fun a b : float => float_leb a b = true).
Local Abbreviation store := (VectorStore float).

Variable model_dim : nat.
Hypothesis encode_shape :
  forall texts rows,
    encode texts = Return rows ->
    length rows = length texts
    /\ Forall (fun row => length row = model_dim) rows.

(** X12: a build replaces the previous one entirely.  When the passages
    are not empty and their embedding succeeds, the outcome of
    [add_document], the store it leaves and the records it logs are the
    same whatever the store held before. *)
Theorem add_document_replaces (self1 self2 : store) (passages : list chunk)
  (rows : list (list float)) :
  passages <> [] ->
  encode (map c_text passages) = Return rows ->
  add_document encode self1 passages = add_document encode self2 passages
  /\ chunks (snd (fst (add_document encode self1 passages))) = passages
  /\ index (snd (fst (add_document encode self1 passages)))
     = Some {| d := Z.of_nat model_dim; xb := rows |}.
Proof.
  intros Hne He.
  destruct (add_document_embedded float encode model_dim encode_shape
              self1 passages rows Hne He) as [E1 _].
  destruct (add_document_embedded float encode model_dim encode_shape
              self2 passages rows Hne He) as [E2 _].
  rewrite E1, E2. repeat split.
Qed.

Hypothesis float_leb_total :
  forall a b, float_leb a b = true \/ float_leb b a = true.
Hypothesis float_leb_trans :
  forall a b c,
    float_leb a b = true -> float_leb b c = true -> float_leb a c = true.

(** X14: after a successful build, [search] returns the nearest
    passages.  Every stored passage is either among the results, with its
    own text and metadata and with the distance between the query vector
    and its embedding as score, or at least as far from the query as
    every result. *)
Theorem search_returns_nearest (self self' : store) (passages : list chunk)
  (m : Z) (log : list (log_record float)) (rows : list (list float))
  (query : str) (k : Z) (q : list float)
  (results : list (search_result float))
  (j : nat) (c : chunk) (row : list float) :
  add_document encode self passages = (Return m, self', log) ->
  encode (map c_text passages) = Return rows ->
  (1 <= k)%Z ->
  encode [query] = Return [q] ->
  fst (search float_leb fvec_L2sqr FLT_MAX np_empty encode self' query k)
  = Return results ->
  nth_error passages j = Some c ->
  nth_error rows j = Some row ->
  (exists r, In r results
             /\ r_chunk r = c_text c
             /\ r_metadata r = c_metadata c
             /\ r_score r = fvec_L2sqr q row)
  \/ Forall (fun r => float_leb (r_score r) (fvec_L2sqr q row) = true)
       results.
Proof.
  intros Hadd He Hk HE Hres Hc Hrow.
  assert (Hne : passages <> []) by (intros ->; destruct j; discriminate).
  destruct (add_document_embedded float encode model_dim encode_shape
              self passages rows Hne He) as [Hadd' Hlen].
  rewrite Hadd' in Hadd. injection Hadd as _ <- _. clear Hadd'.
  set (ix := {| d := Z.of_nat model_dim; xb := rows |}).
  destruct (encode_shape _ _ HE) as [_ Hq]. apply Forall_inv in Hq.
  destruct (np_empty k) as [[]|e] eqn:Ha.
  2:{ rewrite (search_unallocated float float_leb fvec_L2sqr FLT_MAX
                 np_empty encode _ query k e Ha) in Hres.
      injection Hres as <-. right. constructor. }
  destruct (search_hits float float_leb fvec_L2sqr FLT_MAX np_empty encode
              {| index := Some ix; chunks := passages;
                 dimension := Z.of_nat model_dim |}
              ix query k q [] eq_refl Hne HE)
    as (results' & E & F); [unfold len; now rewrite Hq|lia|exact Ha|].
  unfold ix in E. rewrite Hres in E. injection E as <-. cbn [chunks] in F.
  pose proof (filter_search_hits float float_leb fvec_L2sqr FLT_MAX ix
                passages q (Z.to_nat k) 0 (eq_sym Hlen)) as Hf.
  cbn [repeat] in Hf. rewrite app_nil_r in Hf. rewrite Hf in F. clear Hf.
  set (h := (Z.of_nat j, fvec_L2sqr q row)).
  assert (Hh : In h (ranked float_leb fvec_L2sqr ix q)).
  { unfold ranked. apply (proj2 (sort_hits_In float float_leb h _)).
    unfold ix, h. cbn [xb].
    exact (In_enumerated (fvec_L2sqr q) rows j row Hrow). }
  rewrite <- (firstn_skipn (Z.to_nat k)) in Hh.
  apply in_app_or in Hh as [Hh|Hh].
  - left. destruct (Forall2_In_r _ _ _ _ F Hh) as (r & Hr & c' & Hn & Ht & Hm & Hs).
    unfold h in Hn. cbn [fst] in Hn. rewrite Nat2Z.id, Hc in Hn.
    injection Hn as <-. exists r. auto.
  - right. apply Forall_forall. intros r Hr.
    destruct (Forall2_In_l _ _ _ _ F Hr) as (h' & Hh' & c' & _ & _ & _ & Hs).
    rewrite Hs.
    pose proof (StronglySorted_map_inv _ _ _
                  (ranked_StronglySorted float float_leb fvec_L2sqr
                     float_leb_total float_leb_trans ix q)) as SS.
    exact (StronglySorted_firstn_skipn _ (Z.to_nat k) _ SS h' h Hh' Hh).
Qed.

End NearestNeighbours.

Lemma Zleb_trans (a b c : Z) :
  (a <=? b)%Z = true -> (b <=? c)%Z = true -> (a <=? c)%Z = true.
Proof. rewrite !Z.leb_le. lia. Qed.

Lemma add_document_replaces_witness :
  [dogs] <> []
  /\ demo_encode (map c_text [dogs]) = Return [[4; 0]%Z]
  /\ demo_add_document built_store [dogs]
     = demo_add_document VectorStore_init [dogs]
  /\ chunks (snd (fst (demo_add_document built_store [dogs]))) = [dogs]
  /\ index (snd (fst (demo_add_document built_store [dogs])))
     = Some {| d := Z.of_nat 2; xb := [[4; 0]%Z] |}.
Proof.
  assert (Hne : [dogs] <> []) by discriminate.
  assert (He : demo_encode (map c_text [dogs]) = Return [[4; 0]%Z])
    by reflexivity.
  split; [exact Hne|]. split; [exact He|].
  exact (add_document_replaces Z demo_encode 2 demo_encode_shape
           built_store VectorStore_init [dogs] [[4; 0]%Z] Hne He).
Defined.

Lemma search_bounded_sorted_witness :
  exists results,
    fst (demo_search (snd (fst (demo_add_document built_store [oversized])))
           (lit "what is") 3) = Return results
    /\ (len results <= Z.max 0 3)%Z
    /\ (forall ix,
           index (snd (fst (demo_add_document built_store [oversized])))
           = Some ix -> (len results <= ntotal ix)%Z)
    /\ Sorted (fun a b => (a <=? b)%Z = true) (map (@r_score Z) results).
Proof.
  exact (search_bounded_sorted Z Z.leb demo_L2sqr demo_FLT_MAX demo_np_empty
           demo_encode Zleb_total Zleb_trans
           (snd (fst (demo_add_document built_store [oversized])))
           (lit "what is") 3).
Defined.

Lemma search_returns_nearest_witness :
  demo_add_document VectorStore_init [cats; dogs]
  = (Return 2%Z, built_store, [info_adding Z 2; info_index_created Z 2])
  /\ demo_encode (map c_text [cats; dogs]) = Return [[16; 2]; [4; 0]]%Z
  /\ (1 <= 1)%Z
  /\ demo_encode [lit "what is"] = Return [[7; 1]%Z]
  /\ fst (demo_search built_store (lit "what is") 1)
     = Return [{| r_chunk := c_text dogs; r_metadata := c_metadata dogs;
                  r_score := 10%Z |}]
  /\ nth_error [cats; dogs] 0 = Some cats
  /\ nth_error [[16; 2]; [4; 0]]%Z 0 = Some [16; 2]%Z
  /\ ((exists r, In r [{| r_chunk := c_text dogs;
                          r_metadata := c_metadata dogs;
                          r_score := 10%Z |}]
                 /\ r_chunk r = c_text cats
                 /\ r_metadata r = c_metadata cats
                 /\ r_score r = demo_L2sqr [7; 1]%Z [16; 2]%Z)
      \/ Forall (fun r => (r_score r <=? demo_L2sqr [7; 1] [16; 2])%Z = true)
           [{| r_chunk := c_text dogs; r_metadata := c_metadata dogs;
               r_score := 10%Z |}]).
Proof.
  assert (H1 : demo_add_document VectorStore_init [cats; dogs]
               = (Return 2%Z, built_store,
                  [info_adding Z 2; info_index_created Z 2]))
    by reflexivity.
  assert (H2 : demo_encode (map c_text [cats; dogs])
               = Return [[16; 2]; [4; 0]]%Z) by reflexivity.
  assert (H3 : (1 <= 1)%Z) by lia.
  assert (H4 : demo_encode [lit "what is"] = Return [[7; 1]%Z])
    by reflexivity.
  assert (H5 : fst (demo_search built_store (lit "what is") 1)
               = Return [{| r_chunk := c_text dogs;
                            r_metadata := c_metadata dogs;
                            r_score := 10%Z |}]) by reflexivity.
  assert (H6 : nth_error [cats; dogs] 0 = Some cats) by reflexivity.
  assert (H7 : nth_error [[16; 2]; [4; 0]]%Z 0 = Some [16; 2]%Z)
    by reflexivity.
  split; [exact H1|]. split; [exact H2|]. split; [exact H3|].
  split; [exact H4|]. split; [exact H5|]. split; [exact H6|].
  split; [exact H7|].
  exact (search_returns_nearest Z Z.leb demo_L2sqr demo_FLT_MAX
           demo_np_empty demo_encode 2 demo_encode_shape Zleb_total Zleb_trans
           VectorStore_init built_store [cats; dogs] 2 _ _
           (lit "what is") 1 _ _ 0%nat cats _ H1 H2 H3 H4 H5 H6 H7).
Defined.

(** ** [strip] and [split] *)

Lemma lstrip_fixed (s : str) :
  match s with [] => True | c :: _ => isspace c = false end ->
  lstrip s = s.
Proof. destruct s as [|c s]; simpl; [reflexivity|]. now intros ->. Qed.

Lemma lstrip_head (s : str) :
  match lstrip s with [] => True | c :: _ => isspace c = false end.
Proof.
  induction s as [|c s IH]; simpl; [exact I|].
  destruct (isspace c) eqn:E; [exact IH|exact E].
Qed.

Lemma lstrip_idempotent (s : str) : lstrip (lstrip s) = lstrip s.
Proof. apply lstrip_fixed, lstrip_head. Qed.

Lemma lstrip_keeps_last (x : str) (c : char) :
  isspace c = false -> exists p, lstrip (x ++ [c]) = p ++ [c].
Proof.
  intros Hc. induction x as [|a x IH]; simpl.
  - rewrite Hc. now exists [].
  - destruct (isspace a); [exact IH|]. now exists (a :: x).
Qed.

Lemma strip_idempotent (s : str) : strip (strip s) = strip s.
Proof.
  assert (Hl : lstrip (strip s) = strip s).
  { unfold strip, rstrip. pose proof (lstrip_head s) as Hh.
    destruct (lstrip s) as [|c t]; [reflexivity|].
    simpl rev. destruct (lstrip_keeps_last (rev t) c Hh) as (p & ->).
    rewrite rev_app_distr. simpl. now rewrite Hh. }
  unfold strip at 1. rewrite Hl. unfold strip, rstrip.
  now rewrite rev_involutive, lstrip_idempotent.
Qed.

Lemma existsb_lstrip (f : char -> bool) (s : str) :
  (forall c, f c = true -> isspace c = false) ->
  existsb f (lstrip s) = existsb f s.
Proof.
  intros Hf. induction s as [|c s IH]; simpl; [reflexivity|].
  destruct (isspace c) eqn:E; [|reflexivity].
  rewrite IH. destruct (f c) eqn:Efc; [|reflexivity].
  apply Hf in Efc. congruence.
Qed.

Lemma existsb_rev {A} (f : A -> bool) (l : list A) :
  existsb f (rev l) = existsb f l.
Proof.
  induction l as [|a l IH]; simpl; [reflexivity|].
  rewrite existsb_app, IH. simpl. rewrite orb_false_r. apply orb_comm.
Qed.

Lemma contains_strip (c : char) (s : str) :
  isspace c = false -> contains c (strip s) = contains c s.
Proof.
  intros Hc. unfold contains, strip, rstrip.
  assert (Hf : forall x, (x =? c)%N = true -> isspace x = false).
  { intros x Hx. apply N.eqb_eq in Hx. now subst. }
  now rewrite existsb_rev, existsb_lstrip, existsb_rev, existsb_lstrip.
Qed.

Lemma lstrip_In (x : char) (s : str) : In x (lstrip s) -> In x s.
Proof.
  induction s as [|c s IH]; simpl; [tauto|].
  destruct (isspace c); [|tauto]. intros H. right. now apply IH.
Qed.

Lemma strip_In (x : char) (s : str) : In x (strip s) -> In x s.
Proof.
  unfold strip, rstrip. intros H. apply in_rev, lstrip_In, in_rev in H.
  now apply lstrip_In.
Qed.

Lemma split_char_from_no_sep (sep : char) (s cur : str) :
  ~ In sep cur ->
  Forall (fun p => ~ In sep p) (split_char_from sep cur s).
Proof.
  revert cur. induction s as [|c s IH]; intros cur Hcur; simpl.
  - constructor; [|constructor]. intros H. apply in_rev in H. contradiction.
  - destruct (N.eqb_spec c sep) as [->|Hne].
    + constructor; [|now apply IH].
      intros H. apply in_rev in H. contradiction.
    + apply IH. intros [H|H]; [congruence|contradiction].
Qed.

(** The pieces of [s.split(sep)] are never none, and joining them with
    [sep] gives [s] back. *)
Lemma split_char_from_not_nil (sep : char) (s cur : str) :
  split_char_from sep cur s <> [].
Proof.
  revert cur. induction s as [|c s IH]; intros cur; cbn [split_char_from].
  - discriminate.
  - destruct (c =? sep)%N; [discriminate|apply IH].
Qed.

Lemma join_split_char_from (sep : char) (s cur : str) :
  join [sep] (split_char_from sep cur s) = rev cur ++ s.
Proof.
  revert cur. induction s as [|c s IH]; intros cur; cbn [split_char_from].
  - cbn [join]. now rewrite app_nil_r.
  - destruct (N.eqb_spec c sep) as [->|Hne].
    + pose proof (split_char_from_not_nil sep s []) as Hn.
      specialize (IH []). cbn [rev app] in IH.
      destruct (split_char_from sep [] s) as [|p ps]; [congruence|].
      cbn [join] in *. now rewrite IH.
    + rewrite IH. cbn [rev]. now rewrite <- app_assoc.
Qed.

Lemma split_char_from_free (sep : char) (p s cur : str) :
  ~ In sep p ->
  split_char_from sep cur (p ++ s) = split_char_from sep (rev p ++ cur) s.
Proof.
  revert cur. induction p as [|c p IH]; intros cur Hp; [reflexivity|].
  cbn [app split_char_from].
  destruct (N.eqb_spec c sep) as [->|Hne]; [elim Hp; now left|].
  rewrite IH by (intros H; apply Hp; now right).
  cbn [rev]. now rewrite <- app_assoc.
Qed.

Lemma split_char_from_join (sep : char) (lines : list str) :
  Forall (fun line => ~ In sep line) lines ->
  forall p cur,
    ~ In sep p ->
    split_char_from sep cur (join [sep] (p :: lines))
    = (rev cur ++ p) :: lines.
Proof.
  induction 1 as [|p2 ps Hp2 Hps IH]; intros p cur Hp.
  - cbn [join]. rewrite <- (app_nil_r p) at 1.
    rewrite split_char_from_free by exact Hp.
    cbn [split_char_from]. now rewrite rev_app_distr, rev_involutive.
  - change (join [sep] (p :: p2 :: ps))
      with (p ++ [sep] ++ join [sep] (p2 :: ps)).
    rewrite split_char_from_free by exact Hp.
    cbn [app split_char_from]. rewrite N.eqb_refl.
    rewrite (IH p2 [] Hp2). cbn [rev app].
    now rewrite rev_app_distr, rev_involutive.
Qed.

(** ** ollama_service.py *)

(** X15: whatever the model answers, [generate_starters] returns at most
    five questions; each is a line of the answer without its surrounding
    whitespace, is not empty, contains the Arabic question mark and no
    newline.  The questions are the first five such lines, in the order
    of the answer, where the lines are the newline-free pieces that give
    the answer back when joined by newlines; there is one such list of
    pieces only.  When the call raises, the result is the empty list. *)
Theorem generate_starters_shape (call_ollama : str -> outcome str)
  (document_content : str) :
  (length (generate_starters call_ollama document_content) <= 5)%nat
  /\ Forall (fun q => q <> []
                      /\ strip q = q
                      /\ contains QUESTION_MARK q = true
                      /\ ~ In NEWLINE q)
       (generate_starters call_ollama document_content)
  /\ (forall e,
         call_ollama (starters_prompt (starter_sample document_content))
         = Raise e ->
         generate_starters call_ollama document_content = [])
  /\ (forall response_text,
         call_ollama (starters_prompt (starter_sample document_content))
         = Return response_text ->
         exists lines,
           lines <> []
           /\ join [NEWLINE] lines = response_text
           /\ Forall (fun line => ~ In NEWLINE line) lines
           /\ generate_starters call_ollama document_content
              = firstn 5
                  (map strip
                     (filter (fun line => truthy (strip line)
                                          && contains QUESTION_MARK line)
                        lines))
           /\ Forall (fun q => exists line, In line lines /\ q = strip line)
                (generate_starters call_ollama document_content)
           /\ (forall lines',
                  lines' <> [] ->
                  join [NEWLINE] lines' = response_text ->
                  Forall (fun line => ~ In NEWLINE line) lines' ->
                  lines' = lines)).
Proof.
  unfold generate_starters.
  destruct (call_ollama (starters_prompt (starter_sample document_content)))
    as [response_text|e];
    [|repeat split; simpl; auto; try lia; discriminate].
  cbv zeta. split; [|split; [|split; [discriminate|]]].
  3:{ intros r Hr. injection Hr as <-.
      exists (split_char response_text NEWLINE). unfold split_char.
      split; [apply split_char_from_not_nil|].
      split; [apply join_split_char_from|].
      split; [apply split_char_from_no_sep; intros []|].
      split; [reflexivity|]. split.
      - apply Forall_forall. intros q Hq. apply firstn_In in Hq.
        apply in_map_iff in Hq as (line & <- & Hline).
        apply filter_In in Hline as [Hline _]. now exists line.
      - intros [|p ps] Hne <- Hfree; [congruence|].
        symmetry.
        exact (split_char_from_join NEWLINE ps (Forall_inv_tail Hfree)
                 p [] (Forall_inv Hfree)). }
  - rewrite length_firstn. lia.
  - apply Forall_forall. intros q Hq. apply firstn_In in Hq.
    apply in_map_iff in Hq as (line & <- & Hline).
    apply filter_In in Hline as [Hline Hf].
    apply andb_true_iff in Hf as [Hne Hqm].
    pose proof (split_char_from_no_sep NEWLINE response_text []
                  (fun H => H)) as Hnl.
    rewrite Forall_forall in Hnl. specialize (Hnl line Hline).
    repeat split.
    + destruct (strip line); [discriminate|discriminate].
    + apply strip_idempotent.
    + rewrite contains_strip by reflexivity. exact Hqm.
    + intros H. apply Hnl. now apply strip_In.
Qed.

(** X16: the threshold of 2000 characters in [generate_starters] has no
    effect: the sample put into the prompt is always the first 5000
    characters of the document (the whole document when it is shorter). *)
Theorem starter_sample_first_5000 (call_ollama : str -> outcome str)
  (document_content : str) :
  starter_sample document_content = firstn 5000 document_content
  /\ (len (starter_sample document_content) <= 5000)%Z
  /\ generate_starters call_ollama document_content
     = match call_ollama
               (starters_prompt (firstn 5000 document_content)) with
       | Return response_text =>
           firstn 5
             (map strip
                (filter (fun q => truthy (strip q)
                                  && contains QUESTION_MARK q)
                   (split_char response_text NEWLINE)))
       | Raise _ => []
       end.
Proof.
  assert (H : starter_sample document_content = firstn 5000 document_content).
  { unfold starter_sample.
    destruct (Z.ltb_spec 2000 (len document_content)); [reflexivity|].
    symmetry. apply firstn_all2. unfold len in *. lia. }
  split; [exact H|]. split.
  - rewrite H. unfold len. rewrite length_firstn. lia.
  - unfold generate_starters. now rewrite H.
Qed.

Lemma occurs_app_l (w a b : str) : occurs w a -> occurs w (a ++ b).
Proof.
  intros (l & r & ->). exists l, (r ++ b). now rewrite <- !app_assoc.
Qed.

Lemma occurs_app_r (w a b : str) : occurs w b -> occurs w (a ++ b).
Proof.
  intros (l & r & ->). exists (a ++ l), r. now rewrite <- !app_assoc.
Qed.

Lemma occurs_refl (w : str) : occurs w w.
Proof. exists [], []. simpl. now rewrite app_nil_r. Qed.

Lemma occurs_join (sep x : str) (parts : list str) :
  In x parts -> occurs x (join sep parts).
Proof.
  induction parts as [|p ps IH]; [contradiction|]. intros [->|Hin].
  - destruct ps; simpl; [apply occurs_refl|apply occurs_app_l, occurs_refl].
  - specialize (IH Hin). destruct ps as [|p' ps]; [contradiction|].
    change (join sep (p :: p' :: ps)) with (p ++ sep ++ join sep (p' :: ps)).
    now apply occurs_app_r, occurs_app_r.
Qed.

Lemma context_chunks_nth (float : Type) (context : list (search_result float))
  (i : nat) (item : search_result float) :
  nth_error context i = Some item ->
  forall start,
    In (reference_id (start + i) item ++ lit ": " ++ r_chunk item)
      (context_chunks start context).
Proof.
  revert i. induction context as [|r rs IH]; intros i Hn start.
  - destruct i; discriminate.
  - destruct i as [|i]; simpl in Hn.
    + injection Hn as ->. left. now rewrite Nat.add_0_r.
    + right. rewrite <- Nat.add_succ_comm. now apply IH.
Qed.

(** X17: the prompt that [query_document] sends to the model contains
    the question and, for every retrieved item, its full text preceded by
    its reference id: the item's position counted from 1 with the page
    and the line of its metadata.  The answer of the model is returned as
    it is; when the call raises, an error text is returned instead. *)
Theorem query_document_prompt (float : Type)
  (call_ollama : str -> outcome str) (exn_text : exn -> str)
  (query : str) (context : list (search_result float)) :
  occurs query (query_prompt query context)
  /\ (forall i item,
         nth_error context i = Some item ->
         occurs (REF_ID_OPEN ++ str_of_int (Z.of_nat i + 1)
                   ++ REF_ID_PAGE ++ str_of_int (m_page (r_metadata item))
                   ++ REF_ID_LINE ++ str_of_int (m_line (r_metadata item))
                   ++ REF_ID_CLOSE ++ lit ": " ++ r_chunk item)
           (query_prompt query context))
  /\ query_document call_ollama exn_text query context
     = match call_ollama (query_prompt query context) with
       | Return response_text => response_text
       | Raise e => QUERY_ERROR ++ exn_text e
       end.
Proof.
  split; [|split; [|reflexivity]].
  - unfold query_prompt. do 5 apply occurs_app_r.
    apply occurs_app_l, occurs_refl.
  - intros i item Hn. unfold query_prompt. do 3 apply occurs_app_r.
    apply occurs_app_l, occurs_join.
    pose proof (context_chunks_nth float context i item Hn 0) as H.
    unfold reference_id in H. simpl Nat.add in H.
    now rewrite <- !app_assoc in H.
Qed.

(** ** Text extraction *)

Lemma fix_arabic_text_output_fixed (x : str) :
  fix_arabic_text (fix_arabic_text x) = fix_arabic_text x.
Proof.
  destruct (forallb isspace x) eqn:E.
  - now rewrite (fix_arabic_text_eq x), E.
  - rewrite (fix_arabic_text_eq (fix_arabic_text x)).
    rewrite fix_arabic_text_isspace, E.
    destruct (fix_arabic_text_max_runs x) as [Hs Hn].
    rewrite collapse_whitespace_runs_unchanged by assumption.
    apply normalize_letters_unchanged.
    rewrite fix_arabic_text_eq, E. apply normalize_letters_no_replaced.
Qed.

Section ExtractionProperties.

Variable pdf_pages : str -> outcome (list (option str)).
Variable docx_document : str -> outcome (list str * list (list (list str))).
Variable read_text : str -> str -> decoded.
Variable read_bytes : str -> outcome (list N).
Variable decode : list N -> str -> decoded.
Variable exn_text : exn -> str.

Lemma read_with_fixed (file_path : str) (encs : list str) (text : str) :
  read_with read_text file_path encs = Return (Some text) ->
  fix_arabic_text text = text.
Proof.
  induction encs as [|enc encs IH]; simpl; [discriminate|].
  destruct (read_text file_path enc); try discriminate; [|exact IH].
  intros H. injection H as <-. apply fix_arabic_text_output_fixed.
Qed.

Lemma decode_with_fixed (binary_data : list N) (encs : list str) (text : str) :
  decode_with decode binary_data encs = Return (Some text) ->
  fix_arabic_text text = text.
Proof.
  induction encs as [|enc encs IH]; simpl; [discriminate|].
  destruct (decode binary_data enc); try discriminate; [|exact IH].
  intros H. injection H as <-. apply fix_arabic_text_output_fixed.
Qed.

Lemma extract_from_txt_fixed (file_path text : str) :
  extract_from_txt read_text read_bytes decode file_path = Return text ->
  text = TXT_UNREADABLE \/ fix_arabic_text text = text.
Proof.
  unfold extract_from_txt.
  destruct (read_with read_text file_path encodings) as [[t|]|e] eqn:E1;
    cbn [bind]; [| |discriminate].
  - intros H. injection H as <-. right. eapply read_with_fixed; eauto.
  - destruct (read_bytes file_path) as [data|e]; cbn [bind]; [|discriminate].
    destruct (decode_with decode data encodings) as [[t|]|e] eqn:E2;
      cbn [bind]; intros H; try discriminate H; injection H as <-.
    + right. eapply decode_with_fixed; eauto.
    + now left.
Qed.

(** X18: [process_document] never raises, and what it returns is either
    one of its three messages (unsupported format, unreadable text file,
    processing error with the exception text) or a text in the normal
    form of [fix_arabic_text], which that function leaves unchanged. *)
Theorem process_document_result (file_path : str) :
  exists text,
    process_document pdf_pages docx_document read_text read_bytes decode
      exn_text file_path = Return text
    /\ (text = UNSUPPORTED_FORMAT
        \/ text = TXT_UNREADABLE
        \/ (exists e, text = PROCESSING_ERROR ++ exn_text e)
        \/ fix_arabic_text text = text).
Proof.
  unfold process_document.
  destruct (ends_with (lit ".pdf") file_path).
  { unfold extract_from_pdf.
    destruct (pdf_pages file_path) as [pages|e]; simpl; eexists;
      (split; [reflexivity|]).
    - do 3 right. apply fix_arabic_text_output_fixed.
    - right. right. left. now exists e. }
  destruct (ends_with (lit ".docx") file_path).
  { unfold extract_from_docx.
    destruct (docx_document file_path) as [doc|e]; simpl; eexists;
      (split; [reflexivity|]).
    - do 3 right. apply fix_arabic_text_output_fixed.
    - right. right. left. now exists e. }
  destruct (ends_with (lit ".txt") file_path).
  { destruct (extract_from_txt read_text read_bytes decode file_path)
      as [text|e] eqn:E; eexists; (split; [reflexivity|]).
    - apply extract_from_txt_fixed in E as [->|E]; [right; now left|].
      now do 3 right.
    - right. right. left. now exists e. }
  eexists. split; [reflexivity|]. now left.
Qed.

End ExtractionProperties.
(** ** app.py *)

Lemma starts_with_app (w s : str) : starts_with w (w ++ s) = true.
Proof.
  induction w as [|c w IH]; [reflexivity|].
  cbn [app starts_with]. now rewrite N.eqb_refl, IH.
Qed.

Lemma occurs_in_app (w a b : str) : occurs_in w (a ++ w ++ b) = true.
Proof.
  induction a as [|c a IH].
  - cbn [app]. destruct (w ++ b) eqn:E; cbn [occurs_in]; rewrite <- ?E;
      now rewrite starts_with_app.
  - cbn [app occurs_in]. rewrite IH. apply orb_true_r.
Qed.

Lemma occurs_in_app_l (w a b : str) :
  occurs_in w a = true -> occurs_in w (a ++ b) = true.
Proof.
  induction a as [|c a IH]; intros H.
  - destruct w; [destruct b; reflexivity|discriminate H].
  - cbn [app occurs_in] in *. apply orb_true_iff in H as [H|H].
    + assert (Hs : forall (u v : str), starts_with u v = true ->
                     starts_with u (v ++ b) = true).
      { clear. induction u as [|x u IHu]; intros v Hv; [reflexivity|].
        destruct v as [|y v]; [discriminate Hv|].
        cbn [app starts_with] in *. apply andb_true_iff in Hv as [-> Hv].
        now rewrite IHu. }
      pose proof (Hs w (c :: a) H) as Hx. cbn [app] in Hx. now rewrite Hx.
    + rewrite (IH H). apply orb_true_r.
Qed.

Lemma add_document_chunks (float : Type)
  (encode : list str -> outcome (list (list float)))
  (self : VectorStore float) (passages : list chunk) :
  chunks (snd (fst (add_document encode self passages))) = passages.
Proof.
  unfold add_document.
  destruct (negb (truthy (map c_text passages))); [reflexivity|].
  destruct (encode (map c_text passages)) as [rows|e]; [|reflexivity].
  destruct (shape1 rows) as [dim|e]; [|reflexivity].
  destruct (IndexFlatL2_add (IndexFlatL2_new float dim) rows);
    reflexivity.
Qed.

Section AppProperties.

Variable float : Type.
Variable float_leb : float -> float -> bool.
Variable fvec_L2sqr : list float -> list float -> float.
Variable FLT_MAX : float.
Variable np_empty : Z -> outcome unit.
Variable encode : list str -> outcome (list (list float)).
Variable splitter : Z -> Z -> list str -> str -> outcome (list str).
Variable detect : str -> outcome str.
Variable call_ollama : str -> outcome str.
Variable exn_text : exn -> str.
Variable pdf_pages : str -> outcome (list (option str)).
Variable docx_document : str -> outcome (list str * list (list (list str))).
Variable read_text : str -> str -> decoded.
Variable read_bytes : str -> outcome (list N).
Variable decode : list N -> str -> decoded.

Local Abbreviation state := (app_state float).
Local Abbreviation upload :=
  (process_uploaded_file encode splitter detect call_ollama exn_text
     pdf_pages docx_document read_text read_bytes decode).
Local Abbreviation uploads :=
  (process_files encode splitter detect call_ollama exn_text
     pdf_pages docx_document read_text read_bytes decode).
Local Abbreviation chat_start :=
  (start encode splitter detect call_ollama exn_text
     pdf_pages docx_document read_text read_bytes decode).
Local Abbreviation upload_more :=
  (on_upload_more encode splitter detect call_ollama exn_text
     pdf_pages docx_document read_text read_bytes decode).
Local Abbreviation reached :=
  (reachable encode splitter detect call_ollama exn_text
     pdf_pages docx_document read_text read_bytes decode).
Local Abbreviation extract :=
  (process_document pdf_pages docx_document read_text read_bytes decode
     exn_text).
Local Abbreviation answer_to :=
  (handle_user_message float_leb fvec_L2sqr FLT_MAX np_empty encode call_ollama
     exn_text).
Local Abbreviation lookup :=
  (search float_leb fvec_L2sqr FLT_MAX np_empty encode).

Lemma process_document_returns (path : str) :
  exists text, extract path = Return text.
Proof.
  unfold process_document.
  match goal with
  | |- context [match ?x with Return _ => _ | Raise _ => _ end] =>
      destruct x as [text|e]
  end; eauto.
Qed.

Lemma blank_test (text : str) :
  (strip text = []
   /\ negb (truthy text) || (len (strip text) =? 0)%Z = true)
  \/ (strip text <> []
      /\ negb (truthy text) || (len (strip text) =? 0)%Z = false).
Proof.
  destruct (strip text) as [|c s] eqn:E.
  - left. split; [reflexivity|]. apply orb_true_r.
  - right. split; [discriminate|].
    destruct text; [discriminate E|]. reflexivity.
Qed.

Lemma upload_at_limit (st : state) (file : uploaded_file) :
  (5 <= processed_files st)%Z ->
  upload st file = (set_vector_store st (the_store st), [show_limit_reached]).
Proof.
  intros H. unfold process_uploaded_file.
  change (processed_files (set_vector_store st (the_store st)))
    with (processed_files st).
  destruct (Z.leb_spec 5 (processed_files st)); [reflexivity|lia].
Qed.

(** The four ways an upload under the limit ends. *)
Lemma upload_under_limit (st : state) (file : uploaded_file) :
  (processed_files st < 5)%Z ->
  exists text,
    extract (file_path file) = Return text
    /\ let name := file_name file in
       let st1 :=
         set_processed_files
           (set_files (set_vector_store st (the_store st))
              (match session_files st with
               | None => []
               | Some l => l
               end ++ [file_entry file]))
           (processed_files st + 1) in
       let st2 := set_document_language st1 (detect_language detect text) in
       let new_chunks := chunk_document splitter text in
       (strip text = []
        /\ upload st file
           = (st1, [show_processing name 1; show_processing name 2;
                    show_no_text name]))
       \/ (strip text <> [] /\ new_chunks = []
           /\ upload st file
              = (st2, [show_processing name 1; show_processing name 2;
                       show_processing name 3; show_no_chunks name]))
       \/ (strip text <> [] /\ new_chunks <> []
           /\ exists e store' log,
                add_document encode (the_store st) new_chunks
                = (Raise e, store', log)
                /\ upload st file
                   = (set_vector_store st2 store',
                      [show_processing name 1; show_processing name 2;
                       show_processing name 3; show_error e]))
       \/ (strip text <> [] /\ new_chunks <> []
           /\ exists n store' log,
                add_document encode (the_store st) new_chunks
                = (Return n, store', log)
                /\ upload st file
                   = (set_vector_store st2 store',
                      [show_processing name 1; show_processing name 2;
                       show_processing name 3]
                        ++ loaded_messages (set_vector_store st2 store')
                             name text (detect_language detect text)
                             (generate_starters call_ollama text))).
Proof.
  intros H.
  destruct (process_document_returns (file_path file)) as (text & Ht).
  exists text. split; [exact Ht|]. cbv zeta.
  remember (upload st file) as r eqn:Er.
  unfold process_uploaded_file in Er.
  change (processed_files (set_vector_store st (the_store st)))
    with (processed_files st) in Er.
  destruct (Z.leb_spec 5 (processed_files st)); [lia|].
  rewrite Ht in Er.
  cbn [session_files set_vector_store set_files set_processed_files
       set_document_language vector_store the_store app] in Er.
  fold (file_entry file) in Er.
  destruct (blank_test text) as [Hb|Hb]; rewrite (proj2 Hb) in Er.
  { left. now split; [apply Hb|]. }
  right. destruct Hb as [Hb _].
  destruct (chunk_document splitter text) as [|c cs] eqn:Ec;
    cbn [truthy negb] in Er.
  { left. now repeat split. }
  right.
  destruct (add_document encode (the_store st) (c :: cs))
    as [[[n|e] store'] log] eqn:Ea.
  - right. repeat split; [exact Hb|discriminate|].
    exists n, store', log. split; [reflexivity|exact Er].
  - left. repeat split; [exact Hb|discriminate|].
    exists e, store', log. split; [reflexivity|exact Er].
Qed.

Lemma upload_session (st : state) (file : uploaded_file) :
  (processed_files st < 5)%Z ->
  session_files (fst (upload st file))
  = Some (match session_files st with
          | None => []
          | Some l => l
          end ++ [file_entry file])
  /\ session_processed_files (fst (upload st file))
     = Some (processed_files st + 1)%Z.
Proof.
  intros H. destruct (upload_under_limit st file H) as (text & _ & C).
  cbv zeta in C.
  destruct C as [(_ & ->)|[(_ & _ & ->)|[(_ & _ & e & s' & log & _ & ->)
                |(_ & _ & n & s' & log & _ & ->)]]];
    split; reflexivity.
Qed.

Lemma upload_store (st : state) (file : uploaded_file) :
  exists store',
    vector_store (fst (upload st file)) = Some store'
    /\ (store' = the_store st \/ chunks store' <> []).
Proof.
  destruct (Z.leb_spec 5 (processed_files st)) as [H|H].
  - rewrite (upload_at_limit st file H). eexists. split; [reflexivity|].
    now left.
  - destruct (upload_under_limit st file H) as (text & _ & C).
    cbv zeta in C.
    destruct C as [(_ & ->)|[(_ & _ & ->)|[(_ & Hc & e & s' & log & Ea & ->)
                  |(_ & Hc & n & s' & log & Ea & ->)]]];
      eexists; (split; [reflexivity|]); try (now left); right;
      pose proof (add_document_chunks float encode (the_store st)
                    (chunk_document splitter text)) as Hk;
      rewrite Ea in Hk; cbn [fst snd] in Hk; now rewrite Hk.
Qed.

Lemma uploads_session (files : list uploaded_file) :
  forall (st : state) (l : list (str * str)),
    session_files st = Some l ->
    session_processed_files st = Some (len l) ->
    let l' := l ++ map file_entry (firstn (5 - length l) files) in
    session_files (fst (uploads st files)) = Some l'
    /\ session_processed_files (fst (uploads st files)) = Some (len l').
Proof.
  induction files as [|file rest IH]; intros st l Hf Hp; cbv zeta.
  - rewrite firstn_nil, app_nil_r. now split.
  - cbn [process_files fst].
    assert (Hn : processed_files st = len l)
      by (unfold processed_files; now rewrite Hp).
    destruct (Z.leb_spec 5 (processed_files st)) as [H|H].
    + rewrite (upload_at_limit st file H). cbn [fst].
      assert (E : (5 - length l = 0)%nat) by (unfold len in Hn; lia).
      rewrite E. cbn [firstn map].
      specialize (IH (set_vector_store st (the_store st)) l Hf Hp).
      cbv zeta in IH. rewrite E in IH. exact IH.
    + destruct (upload_session st file H) as [Hf' Hp'].
      rewrite Hf in Hf'. rewrite Hn in Hp'.
      assert (Hl : (len l + 1)%Z = len (l ++ [file_entry file]))
        by (unfold len; rewrite length_app; cbn [length]; lia).
      rewrite Hl in Hp'.
      specialize (IH _ _ Hf' Hp'). cbv zeta in IH.
      assert (E : (5 - length l
                   = S (5 - length (l ++ [file_entry file])))%nat)
        by (rewrite length_app; cbn [length]; unfold len in Hn; lia).
      rewrite E. cbn [firstn map].
      replace (l ++ file_entry file
                 :: map file_entry
                      (firstn (5 - length (l ++ [file_entry file])) rest))
        with ((l ++ [file_entry file])
                ++ map file_entry
                     (firstn (5 - length (l ++ [file_entry file])) rest))
        by now rewrite <- app_assoc.
      exact IH.
Qed.

Lemma uploads_store (files : list uploaded_file) :
  forall (st : state) (store : VectorStore float),
    vector_store st = Some store ->
    index store = None \/ chunks store <> [] ->
    exists store',
      vector_store (fst (uploads st files)) = Some store'
      /\ (index store' = None \/ chunks store' <> []).
Proof.
  induction files as [|file rest IH]; intros st store Hs Hi.
  - exists store. now split.
  - cbn [process_files fst].
    destruct (upload_store st file) as (store' & Hs' & [->|Hc]).
    + apply (IH _ _ Hs'). unfold the_store. now rewrite Hs.
    + apply (IH _ _ Hs'). now right.
Qed.

Lemma log_results_info (results : list (search_result float)) :
  forall i, ~ In (warning_no_chunks float) (log_results i results).
Proof.
  induction results as [|r rs IH]; intros i H; [exact H|].
  cbn [log_results In] in H. destruct H as [H|H]; [discriminate H|].
  exact (IH _ H).
Qed.

Lemma search_at_most (self : VectorStore float) (query : str) (k : Z)
  (results : list (search_result float)) :
  fst (lookup self query k) = Return results ->
  (length results <= Z.to_nat k)%nat.
Proof.
  assert (Hnil : Return (@nil (search_result float)) = Return results ->
                 (length results <= Z.to_nat k)%nat).
  { intros E. injection E as <-. apply Nat.le_0_l. }
  destruct (index self) as [ix|] eqn:Hi; [|unfold search; now rewrite Hi].
  destruct (chunks self) as [|c0 cs] eqn:Hc;
    [unfold search; now rewrite Hi, Hc|].
  destruct (encode [query]) as [[|q rest]|e] eqn:HE;
    try (unfold search, search_body; now rewrite Hi, Hc, HE).
  destruct (Z.eqb_spec (len q) (d ix)) as [Hd|Hd].
  2:{ unfold search, search_body, IndexFlatL2_search.
      rewrite Hi, Hc, HE. apply Z.eqb_neq in Hd. now rewrite Hd. }
  destruct (Z.ltb_spec 0 k) as [Hk|Hk].
  2:{ unfold search, search_body, IndexFlatL2_search.
      rewrite Hi, Hc, HE, Hd, Z.eqb_refl.
      destruct (Z.ltb_spec 0 k); [lia|]. exact Hnil. }
  destruct (np_empty k) as [[]|e] eqn:Ha.
  2:{ rewrite (search_unallocated float float_leb fvec_L2sqr FLT_MAX
                 np_empty encode self query k e Ha). exact Hnil. }
  destruct (search_hits float float_leb fvec_L2sqr FLT_MAX np_empty encode
              self ix query k q rest Hi) as (results' & E & F);
    auto; [rewrite Hc; discriminate|].
  rewrite E. intros E'. injection E' as <-.
  rewrite (Forall2_length F).
  etransitivity; [apply filter_length_le|].
  rewrite length_firstn. apply Nat.le_min_l.
Qed.

Lemma search_total (self : VectorStore float) (query : str) (k : Z) :
  exists results, fst (lookup self query k) = Return results.
Proof.
  unfold search. destruct (index self); [|now exists []].
  destruct (negb (truthy (chunks self))); [now exists []|].
  destruct (search_body float_leb fvec_L2sqr FLT_MAX np_empty encode i
              (chunks self) query k) as [[results|e] log];
    eexists; reflexivity.
Qed.

Lemma reference_list_length (results : list (search_result float)) :
  forall i, length (reference_list i results) = length results.
Proof.
  induction results as [|r rs IH]; intros i; [reflexivity|].
  cbn [reference_list length]. now rewrite IH.
Qed.

(** X19: [start] records the first five of the files given in answer
    to its request, in their order, and counts them; a sixth file and
    the ones after it leave no trace in the session.  Without an
    answer the session stays as initialised. *)
Theorem start_records_first_five (files : list uploaded_file) :
  session_files (fst (chat_start (Some files)))
  = Some (map file_entry (firstn 5 files))
  /\ session_processed_files (fst (chat_start (Some files)))
     = Some (Z.min 5 (len files))
  /\ fst (chat_start None) = start_state float.
Proof.
  destruct (uploads_session files (start_state float) [] eq_refl eq_refl)
    as [Hf Hp].
  cbv zeta in Hf, Hp. cbn [app length Nat.sub] in Hf, Hp.
  unfold start. cbn [fst]. split; [exact Hf|]. split; [|reflexivity].
  rewrite Hp. f_equal. unfold len.
  rewrite length_map, length_firstn. lia.
Qed.

(** X20: in every state a chat reaches, the session counts exactly the
    files it lists, and never more than five. *)
Theorem reachable_session (st : state) :
  reached st ->
  exists l,
    session_files st = Some l
    /\ session_processed_files st = Some (len l)
    /\ (len l <= 5)%Z.
Proof.
  induction 1 as [answer|st answer Hr (l & Hf & Hp & Hl)].
  - destruct answer as [files|].
    + destruct (uploads_session files (start_state float) []
                  eq_refl eq_refl) as [Hf Hp].
      cbv zeta in Hf, Hp. cbn [app length Nat.sub] in Hf, Hp.
      exists (map file_entry (firstn 5 files)). unfold start. cbn [fst].
      split; [exact Hf|]. split; [exact Hp|].
      unfold len. rewrite length_map, length_firstn. lia.
    + exists []. repeat split. unfold len. cbn [length]. lia.
  - destruct answer as [[|file rest]|]; cbn [on_upload_more fst];
      try (exists l; now repeat split).
    destruct (uploads_session [file] st l Hf Hp) as [Hf' Hp'].
    cbv zeta in Hf', Hp'. cbn [process_files fst] in Hf', Hp'.
    eexists. split; [exact Hf'|]. split; [exact Hp'|].
    unfold len in *. rewrite length_app, length_map, length_firstn.
    cbn [length]. lia.
Qed.

Lemma search_body_log (ix : IndexFlatL2 float) (stored : list chunk)
  (query : str) (k : Z) :
  ~ In (warning_no_chunks float)
      (snd (search_body float_leb fvec_L2sqr FLT_MAX np_empty encode ix stored
              query k)).
Proof.
  unfold search_body.
  destruct (encode [query]) as [[|q rest]|e]; try (intros []).
  destruct (IndexFlatL2_search float_leb fvec_L2sqr FLT_MAX np_empty ix q k)
    as [hits|e]; try (intros []).
  destruct (collect_results stored hits) as [results|e]; cbn [snd app In].
  - intros [H|[H|H]]; try discriminate H.
    exact (log_results_info results _ H).
  - intros [H|[]]. discriminate H.
Qed.

Lemma search_log (store : VectorStore float) (query : str) (k : Z) :
  index store = None \/ chunks store <> [] ->
  ~ In (warning_no_chunks float) (snd (lookup store query k)).
Proof.
  intros Hi. unfold search. destruct (index store) as [ix|].
  - destruct Hi as [Hi|Hi]; [discriminate Hi|].
    destruct (chunks store) as [|c cs] eqn:Ec; [congruence|].
    cbn [truthy negb].
    pose proof (search_body_log ix (c :: cs) query k) as Hb.
    destruct (search_body float_leb fvec_L2sqr FLT_MAX np_empty encode ix
                (c :: cs) query k) as [[results|e] log]; cbn [snd] in *.
    + exact Hb.
    + intros H. apply in_app_or in H as [H|[H|[]]]; [now apply Hb|].
      discriminate H.
  - cbn [snd In]. intros [H|[]]. discriminate H.
Qed.

(** X21: in every state a chat reaches there is a store, and the store
    has an index only together with a non-empty chunk list; so no
    [search] of the application ever takes the branch that reports an
    index without chunks. *)
Theorem reachable_store (st : state) :
  reached st ->
  exists store,
    vector_store st = Some store
    /\ (index store = None \/ chunks store <> [])
    /\ forall query k,
         ~ In (warning_no_chunks float)
             (snd (search float_leb fvec_L2sqr FLT_MAX np_empty encode store
                     query k)).
Proof.
  intros Hr.
  assert (H : exists store,
             vector_store st = Some store
             /\ (index store = None \/ chunks store <> [])).
  { induction Hr as [answer|st answer Hr (store & Hs & Hi)].
    - destruct answer as [files|].
      + unfold start. cbn [fst].
        apply (uploads_store files (start_state float) VectorStore_init);
          [reflexivity|now left].
      + exists VectorStore_init. split; [reflexivity|now left].
    - destruct answer as [[|file rest]|]; cbn [on_upload_more fst];
        try (exists store; now split).
      destruct (uploads_store [file] st store Hs Hi) as (store' & Hs' & Hi').
      cbn [process_files fst] in Hs'. exists store'. now split. }
  destruct H as (store & Hs & Hi). exists store.
  split; [exact Hs|]. split; [exact Hi|].
  intros query k. now apply search_log.
Qed.

(** X22: an upload under the limit whose extracted text is blank, or
    whose text gives no chunk, still uses up one of the five places,
    and leaves the store as it was: the document indexed before stays
    the one that is searched. *)
Theorem upload_without_text (st : state) (file : uploaded_file)
  (text : str) :
  (processed_files st < 5)%Z ->
  extract (file_path file) = Return text ->
  strip text = [] \/ chunk_document splitter text = [] ->
  vector_store (fst (upload st file)) = Some (the_store st)
  /\ session_processed_files (fst (upload st file))
     = Some (processed_files st + 1)%Z
  /\ (snd (upload st file)
      = [show_processing (file_name file) 1;
         show_processing (file_name file) 2;
         show_no_text (file_name file)]
      \/ snd (upload st file)
         = [show_processing (file_name file) 1;
            show_processing (file_name file) 2;
            show_processing (file_name file) 3;
            show_no_chunks (file_name file)]).
Proof.
  intros H Ht Hb.
  destruct (upload_under_limit st file H) as (text' & Ht' & C).
  rewrite Ht in Ht'. injection Ht' as <-. cbv zeta in C.
  destruct C as [(_ & ->)|[(_ & _ & ->)|[(Hs & Hc & _)|(Hs & Hc & _)]]].
  - repeat split. now left.
  - repeat split. now right.
  - destruct Hb; contradiction.
  - destruct Hb; contradiction.
Qed.

(** X23: an upload that reaches the store replaces what the store held.
    Whatever was indexed before, the chunk list afterwards is that of
    the new document alone, also when building the index fails, and
    the session's language is that of the new document. *)
Theorem upload_replaces_document (st : state) (file : uploaded_file)
  (text : str) :
  (processed_files st < 5)%Z ->
  extract (file_path file) = Return text ->
  strip text <> [] ->
  chunk_document splitter text <> [] ->
  exists store',
    vector_store (fst (upload st file)) = Some store'
    /\ chunks store' = chunk_document splitter text
    /\ session_document_language (fst (upload st file))
       = Some (detect_language detect text).
Proof.
  intros H Ht Hs Hc.
  destruct (upload_under_limit st file H) as (text' & Ht' & C).
  rewrite Ht in Ht'. injection Ht' as <-. cbv zeta in C.
  destruct C as [(Hs' & _)|[(_ & Hc' & _)
                |[(_ & _ & e & s' & log & Ea & ->)
                 |(_ & _ & n & s' & log & Ea & ->)]]];
    try contradiction;
    exists s'; (split; [reflexivity|]); (split; [|reflexivity]);
    pose proof (add_document_chunks float encode (the_store st)
                  (chunk_document splitter text)) as Hk;
    rewrite Ea in Hk; exact Hk.
Qed.

(** X24: a file whose path ends in none of the three extensions is not
    refused.  The text returned for it is the message about the
    unsupported format, which is taken for the document: the upload
    goes on to the indexing step, the language recorded is Arabic, and
    the chunks stored are those of the message. *)
Theorem upload_unsupported_format (st : state) (file : uploaded_file) :
  (processed_files st < 5)%Z ->
  ends_with (lit ".pdf") (file_path file) = false ->
  ends_with (lit ".docx") (file_path file) = false ->
  ends_with (lit ".txt") (file_path file) = false ->
  firstn 3 (snd (upload st file))
  = [show_processing (file_name file) 1;
     show_processing (file_name file) 2;
     show_processing (file_name file) 3]
  /\ session_document_language (fst (upload st file)) = Some arabic
  /\ exists store',
       vector_store (fst (upload st file)) = Some store'
       /\ (chunk_document splitter UNSUPPORTED_FORMAT <> [] ->
           chunks store' = chunk_document splitter UNSUPPORTED_FORMAT).
Proof.
  intros H Hp Hd Hx.
  assert (Ht : extract (file_path file) = Return UNSUPPORTED_FORMAT)
    by (unfold process_document; now rewrite Hp, Hd, Hx).
  assert (Hl : detect_language detect UNSUPPORTED_FORMAT = arabic)
    by (vm_compute; reflexivity).
  destruct (upload_under_limit st file H) as (text' & Ht' & C).
  rewrite Ht in Ht'. injection Ht' as <-. cbv zeta in C.
  rewrite Hl in C.
  destruct C as [(Hs' & _)|[(_ & Hc' & ->)
                |[(_ & _ & e & s' & log & Ea & ->)
                 |(_ & _ & n & s' & log & Ea & ->)]]].
  - vm_compute in Hs'. discriminate Hs'.
  - repeat split. eexists. split; [reflexivity|]. intros Hc. contradiction.
  - repeat split. exists s'. split; [reflexivity|]. intros _.
    pose proof (add_document_chunks float encode (the_store st)
                  (chunk_document splitter UNSUPPORTED_FORMAT)) as Hk.
    rewrite Ea in Hk. exact Hk.
  - repeat split. exists s'. split; [reflexivity|]. intros _.
    pose proof (add_document_chunks float encode (the_store st)
                  (chunk_document splitter UNSUPPORTED_FORMAT)) as Hk.
    rewrite Ea in Hk. exact Hk.
Qed.

(** X25: what [handle_user_message] shows has one of three shapes.
    The request to upload a document, exactly when there is no store or
    no index; the notice that nothing relevant was found; or an answer
    followed by its translation action and by the sources message with
    one to three labels.  The error message for a failed search is
    never shown, since [search] does not raise. *)
Theorem handle_user_message_shape (st : state) (user_message : str) :
  (answer_to st user_message = [show_upload_first]
   <-> forall store, vector_store st = Some store -> index store = None)
  /\ (answer_to st user_message = [show_upload_first]
      \/ answer_to st user_message = [show_thinking; show_no_information]
      \/ exists response references,
           answer_to st user_message
           = [show_thinking; show_answer response;
              show_translate_action response;
              show_sources (SOURCES_HEADING ++ join [NEWLINE] references)
                references]
           /\ (1 <= length references <= 3)%nat).
Proof.
  unfold handle_user_message.
  destruct (vector_store st) as [store|].
  2:{ split; [|now left]. split; [intros _ s Hs; discriminate Hs|reflexivity]. }
  destruct (index store) as [ix|] eqn:Hi.
  2:{ split; [|now left]. split; [|reflexivity].
      intros _ s Hs. now injection Hs as <-. }
  destruct (search_total store user_message 3) as (results & E).
  pose proof (search_at_most store user_message 3 results E) as Hk.
  rewrite E. split.
  { split; [intros H; discriminate H|].
    intros H. specialize (H store eq_refl). congruence. }
  right. destruct results as [|r rs]; [now left|]. right.
  cbn [truthy negb reference_list app].
  eexists; eexists. split; [reflexivity|].
  cbn [length] in *. rewrite reference_list_length.
  change (Z.to_nat 3) with 3%nat in Hk. lia.
Qed.

(** X26: every answer shown names a reference.  It starts with the
    text [query_document] returned for the results of the search, and
    it contains one of the two words the handler looks for, because the
    list of references is appended when the text has neither. *)
Theorem handle_user_message_references (st : state) (user_message : str)
  (response : str) :
  In (show_answer response) (answer_to st user_message) ->
  (occurs_in MARJI response || occurs_in AL_MARAJI response = true)
  /\ exists store results,
       vector_store st = Some store
       /\ fst (lookup store user_message 3) = Return results
       /\ results <> []
       /\ starts_with
            (query_document call_ollama exn_text user_message results)
            response = true.
Proof.
  unfold handle_user_message.
  destruct (vector_store st) as [store|];
    [|intros [H|[]]; discriminate H].
  destruct (index store) as [ix|]; [|intros [H|[]]; discriminate H].
  destruct (search_total store user_message 3) as (results & E).
  rewrite E. destruct results as [|r rs].
  { intros [H|[H|[]]]; discriminate H. }
  cbn [truthy negb app]. intros [H|[H|[H|H]]]; try discriminate H.
  2:{ destruct (truthy (reference_list 0 (r :: rs)));
        [destruct H as [H|[]]; discriminate H|destruct H]. }
  injection H as <-. split.
  - unfold with_references.
    set (answer := query_document call_ollama exn_text user_message
                     (r :: rs)).
    destruct (occurs_in MARJI answer) eqn:E1; cbn [negb andb];
      [now rewrite E1|].
    destruct (occurs_in AL_MARAJI answer) eqn:E2; cbn [negb andb];
      [rewrite E2; apply orb_true_r|].
    apply orb_true_iff. right.
    change REFERENCES_HEADING
      with ([NEWLINE; NEWLINE; 42%N; 42%N]
              ++ AL_MARAJI ++ [58%N; 42%N; 42%N; NEWLINE]).
    rewrite <- !app_assoc, app_assoc. apply occurs_in_app.
  - exists store, (r :: rs). split; [reflexivity|]. split; [exact E|].
    split; [discriminate|]. unfold with_references.
    destruct (negb _ && negb _).
    + apply starts_with_app.
    + rewrite <- (app_nil_r (query_document _ _ _ _)) at 2.
      apply starts_with_app.
Qed.

Lemma loaded_messages_offer (st : state) (name text : str)
  (lang : language) (starters : list str) :
  In show_offer_more (loaded_messages st name text lang starters) ->
  (processed_files st < 5)%Z.
Proof.
  unfold loaded_messages. cbn [app In].
  intros [H|[H|[H|H]]]; try discriminate H.
  apply in_app_or in H as [H|H].
  - destruct (truthy starters); [|destruct H].
    destruct H as [H|H]; [discriminate H|].
    apply in_flat_map in H as (q & _ & [H|[H|[]]]); discriminate H.
  - destruct (Z.ltb_spec (processed_files st) 5); [assumption|destruct H].
Qed.

(** X27: the offer to upload more files is made only while a place is
    left.  When an upload ends with the offer, fewer than five files
    are counted, and the next upload, whatever the file, is not refused
    by the limit: it starts with its first processing step. *)
Theorem upload_offer_within_limit (st : state) (file next : uploaded_file) :
  In show_offer_more (snd (upload st file)) ->
  (processed_files (fst (upload st file)) < 5)%Z
  /\ hd_error (snd (upload (fst (upload st file)) next))
     = Some (show_processing (file_name next) 1).
Proof.
  intros Hin.
  assert (Hlt : (processed_files (fst (upload st file)) < 5)%Z).
  { destruct (Z.leb_spec 5 (processed_files st)) as [H|H].
    - rewrite (upload_at_limit st file H) in Hin.
      destruct Hin as [Hin|[]]. discriminate Hin.
    - destruct (upload_under_limit st file H) as (text & _ & C).
      cbv zeta in C.
      destruct C as [(_ & E)|[(_ & _ & E)|[(_ & _ & e & s' & log & _ & E)
                    |(_ & _ & n & s' & log & _ & E)]]];
        rewrite E in Hin |- *; cbn [fst snd app In] in Hin |- *.
      + destruct Hin as [Hin|[Hin|[Hin|[]]]]; discriminate Hin.
      + destruct Hin as [Hin|[Hin|[Hin|[Hin|[]]]]]; discriminate Hin.
      + destruct Hin as [Hin|[Hin|[Hin|[Hin|[]]]]]; discriminate Hin.
      + destruct Hin as [Hin|[Hin|[Hin|Hin]]]; try discriminate Hin.
        exact (loaded_messages_offer _ _ _ _ _ Hin). }
  split; [exact Hlt|].
  destruct (upload_under_limit (fst (upload st file)) next Hlt)
    as (text & _ & C).
  cbv zeta in C.
  destruct C as [(_ & ->)|[(_ & _ & ->)|[(_ & _ & e & s' & log & _ & ->)
                |(_ & _ & n & s' & log & _ & ->)]]]; reflexivity.
Qed.

End AppProperties.

Lemma reachable_session_witness :
  exists l,
    session_files (fst (demo_start (Some [notes_txt; blank_txt]))) = Some l
    /\ session_processed_files
         (fst (demo_start (Some [notes_txt; blank_txt])))
       = Some (len l)
    /\ (len l <= 5)%Z.
Proof.
  apply (reachable_session Z demo_encode RecursiveCharacterTextSplitter
           (fun _ => Return (lit "en")) demo_call_ollama
           (fun _ => lit "error")
           (fun _ => Raise RuntimeError) (fun _ => Raise RuntimeError)
           demo_read_text (fun _ => Raise RuntimeError)
           (fun _ _ => UnicodeDecodeError)).
  unfold demo_start. apply reachable_start.
Defined.

Lemma reachable_store_witness :
  exists store,
    vector_store (fst (demo_start (Some [notes_txt; blank_txt])))
    = Some store
    /\ (index store = None \/ chunks store <> [])
    /\ forall query k,
         ~ In (warning_no_chunks Z) (snd (demo_search store query k)).
Proof.
  apply (reachable_store Z Z.leb demo_L2sqr demo_FLT_MAX demo_np_empty
           demo_encode RecursiveCharacterTextSplitter
           (fun _ => Return (lit "en")) demo_call_ollama
           (fun _ => lit "error")
           (fun _ => Raise RuntimeError) (fun _ => Raise RuntimeError)
           demo_read_text (fun _ => Raise RuntimeError)
           (fun _ _ => UnicodeDecodeError)).
  unfold demo_start. apply reachable_start.
Defined.

Lemma upload_without_text_witness :
  vector_store
    (fst (demo_process_uploaded_file (fst (demo_start (Some [notes_txt])))
            blank_txt))
  = Some (the_store (fst (demo_start (Some [notes_txt]))))
  /\ session_processed_files
       (fst (demo_process_uploaded_file
               (fst (demo_start (Some [notes_txt]))) blank_txt))
     = Some 2%Z.
Proof.
  destruct (upload_without_text Z demo_encode RecursiveCharacterTextSplitter
              (fun _ => Return (lit "en")) demo_call_ollama
              (fun _ => lit "error")
              (fun _ => Raise RuntimeError) (fun _ => Raise RuntimeError)
              demo_read_text (fun _ => Raise RuntimeError)
              (fun _ _ => UnicodeDecodeError)
              (fst (demo_start (Some [notes_txt]))) blank_txt [])
    as (Hs & Hp & _).
  - vm_compute. reflexivity.
  - vm_compute. reflexivity.
  - left. reflexivity.
  - split; [exact Hs|exact Hp].
Defined.

Lemma upload_replaces_document_witness :
  exists store',
    vector_store
      (fst (demo_process_uploaded_file
              (fst (demo_start (Some [notes_doc]))) notes_txt))
    = Some store'
    /\ chunks store'
       = chunk_document RecursiveCharacterTextSplitter
           (lit "Riyadh is the capital. It is a large city.")
    /\ session_document_language
         (fst (demo_process_uploaded_file
                 (fst (demo_start (Some [notes_doc]))) notes_txt))
       = Some english.
Proof.
  apply (upload_replaces_document Z demo_encode
           RecursiveCharacterTextSplitter
           (fun _ => Return (lit "en")) demo_call_ollama
           (fun _ => lit "error")
           (fun _ => Raise RuntimeError) (fun _ => Raise RuntimeError)
           demo_read_text (fun _ => Raise RuntimeError)
           (fun _ _ => UnicodeDecodeError)
           (fst (demo_start (Some [notes_doc]))) notes_txt
           (lit "Riyadh is the capital. It is a large city.")).
  - vm_compute. reflexivity.
  - vm_compute. reflexivity.
  - vm_compute. discriminate.
  - vm_compute. discriminate.
Defined.

Lemma upload_unsupported_format_witness :
  session_document_language
    (fst (demo_process_uploaded_file (start_state Z) notes_doc))
  = Some arabic.
Proof.
  apply (upload_unsupported_format Z demo_encode
           RecursiveCharacterTextSplitter
           (fun _ => Return (lit "en")) demo_call_ollama
           (fun _ => lit "error")
           (fun _ => Raise RuntimeError) (fun _ => Raise RuntimeError)
           demo_read_text (fun _ => Raise RuntimeError)
           (fun _ _ => UnicodeDecodeError)
           (start_state Z) notes_doc).
  - vm_compute. reflexivity.
  - vm_compute. reflexivity.
  - vm_compute. reflexivity.
  - vm_compute. reflexivity.
Defined.

Lemma handle_user_message_references_witness :
  exists response,
    In (show_answer response)
      (demo_handle_user_message (fst (demo_start (Some [notes_txt])))
         (lit "capital"))
    /\ occurs_in MARJI response || occurs_in AL_MARAJI response = true.
Proof.
  eexists. split.
  - vm_compute. right. left. reflexivity.
  - apply (handle_user_message_references Z Z.leb demo_L2sqr demo_FLT_MAX
             demo_np_empty demo_encode demo_call_ollama (fun _ => lit "error")
             (fst (demo_start (Some [notes_txt]))) (lit "capital")).
    vm_compute. right. left. reflexivity.
Defined.

Lemma upload_offer_within_limit_witness :
  (processed_files
     (fst (demo_process_uploaded_file (start_state Z) notes_txt)) < 5)%Z
  /\ hd_error
       (snd (demo_process_uploaded_file
               (fst (demo_process_uploaded_file (start_state Z) notes_txt))
               blank_txt))
     = Some (show_processing (file_name blank_txt) 1).
Proof.
  apply (upload_offer_within_limit Z demo_encode
           RecursiveCharacterTextSplitter
           (fun _ => Return (lit "en")) demo_call_ollama
           (fun _ => lit "error")
           (fun _ => Raise RuntimeError) (fun _ => Raise RuntimeError)
           demo_read_text (fun _ => Raise RuntimeError)
           (fun _ _ => UnicodeDecodeError)
           (start_state Z) notes_txt blank_txt).
  vm_compute. do 9 right. left. reflexivity.
Defined.
